(** * SD-WAN path selection and drift-driven reoptimisation

    A shallow embedding of [sdwan.py]: the [SDWANController] (topology store,
    flow registry, path selection, path metrics and path score) and the
    [DynamicPathOptimizer] (snapshot capture, snapshot difference and the
    reoptimisation trigger).

    Conventions of the embedding.
    - Python numbers are binary64 floats ([PrimFloat.float]); the integer
      literals of the program ([0], [1], [100], [30] ...) are taken as their
      exact float images, on which Python's mixed int/float arithmetic and
      comparisons agree with float arithmetic.
    - A Python [dict] is an insertion-ordered association list with unique
      keys ([dict K V]); [d[k]] on a missing key raises [KeyError].
    - A raised exception is the [Raise] branch of [result]; statements are
      sequenced with [x <- c ;; k].
    - [networkx.Graph] is modelled by its three dictionaries: [_node],
      [_adj], and the store of edge attribute dictionaries, which
      [_adj[u][v]] and [_adj[v][u]] share by reference. *)

From Stdlib Require Import String Ascii List Bool ZArith Arith Lia Floats.
From Stdlib Require Import Permutation.
Import ListNotations.
Set Warnings "-inexact-float".

(* ================================================================== *)
(** ** Python runtime: exceptions, results, dictionaries, float helpers *)
(* ================================================================== *)

(** The exceptions the modelled code can raise.  [OutOfFuel] is no Python
    exception: it is what a fuel-bounded loop of the embedding returns when
    its fuel runs out (shown below never to happen on a well-formed graph). *)
Inductive exn : Type :=
| KeyError
| ZeroDivisionError
| ValueError
| UnboundLocalError
| IndexError
| NodeNotFound
| NetworkXNoPath
| OutOfFuel.

Inductive result (A : Type) : Type :=
| Ok (a : A)
| Raise (e : exn).
Arguments Ok {A} a.
Arguments Raise {A} e.

Definition bind {A B : Type} (c : result A) (k : A -> result B) : result B :=
  match c with
  | Ok a => k a
  | Raise e => Raise e
  end.

Notation "x <- c ;; k" := (bind c (fun x => k))
  (at level 61, c at next level, right associativity).
Notation "' p <- c ;; k" := (bind c (fun x => let p := x in k))
  (at level 61, p pattern, c at next level, right associativity).

(** Keys of dictionaries: a type with a boolean equality. *)
Class EqKey (K : Type) : Type := { keqb : K -> K -> bool }.

#[global] Instance EqKey_string : EqKey string := {| keqb := String.eqb |}.

#[global] Instance EqKey_pair {A B : Type} `{EqKey A} `{EqKey B} : EqKey (A * B) :=
  {| keqb := fun p q => keqb (fst p) (fst q) && keqb (snd p) (snd q) |}.

(** Python dictionaries. *)
Definition dict (K V : Type) : Type := list (K * V).

Section DictOps.
Context {K V : Type} `{EqKey K}.

Fixpoint get (d : dict K V) (k : K) : option V :=
  match d with
  | [] => None
  | (k', v) :: d' => if keqb k' k then Some v else get d' k
  end.

(** [k in d] *)
Definition mem (d : dict K V) (k : K) : bool :=
  match get d k with
  | Some _ => true
  | None => false
  end.

(** [d[k]] *)
Definition getitem (d : dict K V) (k : K) : result V :=
  match get d k with
  | Some v => Ok v
  | None => Raise KeyError
  end.

(** [d.get(k, dflt)] *)
Definition get_default (d : dict K V) (k : K) (dflt : V) : V :=
  match get d k with
  | Some v => v
  | None => dflt
  end.

(** [d[k] = v]: an existing key keeps its position, a new key goes last. *)
Fixpoint set (d : dict K V) (k : K) (v : V) : dict K V :=
  match d with
  | [] => [(k, v)]
  | (k', v') :: d' =>
      if keqb k' k then (k', v) :: d' else (k', v') :: set d' k v
  end.

(** [d.update(kvs)] *)
Definition update (d : dict K V) (kvs : list (K * V)) : dict K V :=
  fold_left (fun acc kv => set acc (fst kv) (snd kv)) kvs d.

Definition keys (d : dict K V) : list K := map fst d.

End DictOps.

(** Float helpers with Python's semantics. *)
Section PyFloat.
Local Open Scope float_scope.

(** [a / b]: true division raises on a zero divisor (of either sign). *)
Definition py_div (a b : float) : result float :=
  if b =? 0 then Raise ZeroDivisionError else Ok (a / b).

(** [min(a, b)] keeps its first argument unless the second is smaller;
    [max(a, b)] keeps its first argument unless the second is larger. *)
Definition py_min (a b : float) : float := if b <? a then b else a.
Definition py_max (a b : float) : float := if a <? b then b else a.

End PyFloat.

(** [l[i] = x] on a list (no effect out of range; the embedding only writes
    at valid references). *)
Fixpoint write {A : Type} (l : list A) (i : nat) (x : A) : list A :=
  match l, i with
  | [], _ => []
  | _ :: t, O => x :: t
  | h :: t, S i' => h :: write t i' x
  end.

(** [l[-1]] *)
Definition last_item {A : Type} (l : list A) : result A :=
  match rev l with
  | [] => Raise IndexError
  | x :: _ => Ok x
  end.

(* ================================================================== *)
(** ** networkx: the undirected [Graph] and [shortest_path]            *)
(* ================================================================== *)

Module nx.

Abbreviation node := string (only parsing).

(** An edge's attribute dictionary ([datadict]) and a reference to one. *)
Abbreviation attrs := (dict string float) (only parsing).
Abbreviation ref := nat (only parsing).

Record Graph : Type := mkGraph
  { _node : dict node (dict string string);
    _adj : dict node (dict node ref);
    _data : list attrs }.

Definition empty : Graph := mkGraph [] [] [].

(** [G.add_node(n, **attr)] *)
Definition add_node (g : Graph) (n : node) (attr : list (string * string)) : Graph :=
  match get (_node g) n with
  | None => mkGraph (set (_node g) n (update [] attr)) (set (_adj g) n []) (_data g)
  | Some a => mkGraph (set (_node g) n (update a attr)) (_adj g) (_data g)
  end.

(** The first half of [add_edge]: a missing endpoint is created. *)
Definition ensure_node (g : Graph) (u : node) : Graph :=
  if mem (_node g) u then g
  else mkGraph (set (_node g) u []) (set (_adj g) u []) (_data g).

(** The attribute dictionary a reference points to. *)
Definition deref (g : Graph) (r : ref) : attrs := nth r (_data g) [].

(** [G.add_edge(u, v, **attr)]:
    [datadict = self._adj[u].get(v, {}); datadict.update(attr);
     self._adj[u][v] = datadict; self._adj[v][u] = datadict]. *)
Definition add_edge (g : Graph) (u v : node) (attr : list (string * float)) : Graph :=
  let g1 := ensure_node (ensure_node g u) v in
  let '(r, data) :=
    match get (get_default (_adj g1) u []) v with
    | Some r => (r, _data g1)
    | None => (length (_data g1), _data g1 ++ [[]])
    end in
  let data' := write data r (update (nth r data []) attr) in
  let adj1 := set (_adj g1) u (set (get_default (_adj g1) u []) v r) in
  let adj2 := set adj1 v (set (get_default adj1 v []) u r) in
  mkGraph (_node g1) adj2 data'.

(** [n in G] *)
Definition has_node (g : Graph) (n : node) : bool := mem (_node g) n.

(** [G.has_edge(u, v)]: [try: return v in self._adj[u] except KeyError: return False] *)
Definition has_edge (g : Graph) (u v : node) : bool :=
  match get (_adj g) u with
  | Some nbrs => mem nbrs v
  | None => false
  end.

(** [G[u]] *)
Definition adj (g : Graph) (u : node) : result (dict node ref) := getitem (_adj g) u.

(** [G[u][v]] *)
Definition edge_data (g : Graph) (u v : node) : result attrs :=
  nbrs <- adj g u ;;
  r <- getitem nbrs v ;;
  Ok (deref g r).

(** [G[u][v][k] = x] *)
Definition set_edge_attr (g : Graph) (u v : node) (k : string) (x : float) : result Graph :=
  nbrs <- adj g u ;;
  r <- getitem nbrs v ;;
  Ok (mkGraph (_node g) (_adj g) (write (_data g) r (set (deref g r) k x))).

(** [G.edges()]: every edge once, from the endpoint that comes first in
    node order ([seen] holds the nodes already iterated). *)
Fixpoint edges_from (adjacency : dict node (dict node ref)) (seen : list node)
  : list (node * node) :=
  match adjacency with
  | [] => []
  | (n, nbrs) :: rest =>
      map (fun nbr => (n, nbr))
          (filter (fun nbr => negb (existsb (String.eqb nbr) seen)) (keys nbrs))
      ++ edges_from rest (n :: seen)
  end.

Definition edges (g : Graph) : list (node * node) := edges_from (_adj g) [].

(** *** Unweighted search: [bidirectional_shortest_path] *)

(** The predecessor / successor maps of the two searches: a node maps to
    the node it was reached from, the start of a search to [None]. *)
Definition links : Type := dict node (option node).

(** Outcome of scanning (part of) a level: the search goes on with the
    grown map and the next fringe, or the two searches met at a node. *)
Inductive scan : Type :=
| Next (mine : links) (fringe : list node)
| Found (mine : links) (w : node).

(** The inner loop [for w in G.adj[v]]: a new node is recorded and joins
    the next fringe; the search stops at the first node the other search
    has reached.  Forward, [mine] is [pred] and [other] is [succ]; backward
    the roles are swapped. *)
Fixpoint scan_nbrs (v : node) (ws : list node) (mine other : links)
  (fringe : list node) : scan :=
  match ws with
  | [] => Next mine fringe
  | w :: ws' =>
      let '(mine', fringe') :=
        if mem mine w then (mine, fringe)
        else (set mine w (Some v), fringe ++ [w]) in
      if mem other w then Found mine' w
      else scan_nbrs v ws' mine' other fringe'
  end.

(** The loop [for v in this_level]. *)
Fixpoint scan_level (g : Graph) (level : list node) (mine other : links)
  (fringe : list node) : result scan :=
  match level with
  | [] => Ok (Next mine fringe)
  | v :: level' =>
      nbrs <- adj g v ;;
      match scan_nbrs v (keys nbrs) mine other fringe with
      | Next mine' fringe' => scan_level g level' mine' other fringe'
      | Found mine' w => Ok (Found mine' w)
      end
  end.

(** [while forward_fringe and reverse_fringe]: the shorter fringe is
    expanded, the forward one on a tie. *)
Fixpoint pred_succ_loop (fuel : nat) (g : Graph) (pred succ : links)
  (forward_fringe reverse_fringe : list node) : result (links * links * node) :=
  match fuel with
  | O => Raise OutOfFuel
  | S fuel' =>
      match forward_fringe, reverse_fringe with
      | [], _ => Raise NetworkXNoPath
      | _, [] => Raise NetworkXNoPath
      | _, _ =>
          if List.length forward_fringe <=? List.length reverse_fringe then
            r <- scan_level g forward_fringe pred succ [] ;;
            match r with
            | Next pred' fringe' =>
                pred_succ_loop fuel' g pred' succ fringe' reverse_fringe
            | Found pred' w => Ok (pred', succ, w)
            end
          else
            r <- scan_level g reverse_fringe succ pred [] ;;
            match r with
            | Next succ' fringe' =>
                pred_succ_loop fuel' g pred succ' forward_fringe fringe'
            | Found succ' w => Ok (pred, succ', w)
            end
      end
  end.

(** Every pass of the loop that goes on records a new node in [pred] or
    in [succ], which bounds the number of passes. *)
Definition bfs_fuel (g : Graph) : nat := 2 * List.length (_adj g) + 2.

Definition _bidirectional_pred_succ (g : Graph) (source target : node)
  : result (links * links * node) :=
  if String.eqb target source then Ok ([(target, None)], [(source, None)], source)
  else pred_succ_loop (bfs_fuel g) g [(source, None)] [(target, None)]
                      [source] [target].

(** [while w is not None: path.append(w); w = m[w]] *)
Fixpoint follow (fuel : nat) (m : links) (w : option node) (path : list node)
  : result (list node) :=
  match w with
  | None => Ok path
  | Some x =>
      match fuel with
      | O => Raise OutOfFuel
      | S fuel' =>
          nxt <- getitem m x ;;
          follow fuel' m nxt (path ++ [x])
      end
  end.

Definition bidirectional_shortest_path (g : Graph) (source target : node)
  : result (list node) :=
  if negb (has_node g source) || negb (has_node g target) then Raise NodeNotFound
  else
    '(pred, succ, w) <- _bidirectional_pred_succ g source target ;;
    path <- follow (S (List.length pred)) pred (Some w) [] ;;
    let path := rev path in
    l <- last_item path ;;
    w' <- getitem succ l ;;
    follow (S (List.length succ)) succ w' path.

(** *** Weighted search: [bidirectional_dijkstra] *)

(** A weight callable [weight(u, v, d)]. *)
Definition weightfn : Type := node -> node -> attrs -> result float.

(** [_weight_function(G, name)] for a string weight: [d.get(name, 1)]. *)
Definition attr_weight (name : string) : weightfn :=
  fun _ _ d => Ok (get_default d name 1%float).

(** A heap entry [(distance, counter, node)]. *)
Definition entry : Type := (float * nat * node)%type.

(** Tuple comparison [e1 < e2]: by distance, then by the counter (which is
    unique, so the node is never compared). *)
Definition entry_lt (e1 e2 : entry) : bool :=
  let '(d1, c1, _) := e1 in
  let '(d2, c2, _) := e2 in
  if (d1 =? d2)%float then c1 <? c2 else (d1 <? d2)%float.

(** [heappop]: the least entry and the remaining ones.  The heap is kept
    as the list of its entries; on entries that are totally ordered (no
    NaN distance) the least one is what [heapq] returns. *)
Fixpoint pop_min (e : entry) (h : list entry) : entry * list entry :=
  match h with
  | [] => (e, [])
  | e' :: h' =>
      let '(m, rest) := pop_min e' h' in
      if entry_lt m e then (m, e :: rest) else (e, m :: rest)
  end.

Definition heappop (h : list entry) : option (entry * list entry) :=
  match h with
  | [] => None
  | e :: h' => Some (pop_min e h')
  end.

(** One direction of the search: [dists], [paths], [fringe], [seen]. *)
Record side : Type := mkSide
  { dists : dict node float;
    paths : dict node (list node);
    fringe : list entry;
    seen : dict node float }.

(** The whole state of the loop; [dir] is [false] for forward ([0]) and
    [true] for backward ([1]).  [finaldist] is unbound until a first
    meeting point is found. *)
Record bidi : Type := mkBidi
  { fwd : side;
    bwd : side;
    count : nat;
    finaldist : option float;
    finalpath : list node;
    dir : bool }.

Definition this_side (st : bidi) (d : bool) : side := if d then bwd st else fwd st.
Definition other_side (st : bidi) (d : bool) : side := if d then fwd st else bwd st.
Definition with_side (st : bidi) (d : bool) (s : side) : bidi :=
  if d then mkBidi (fwd st) s (count st) (finaldist st) (finalpath st) (dir st)
  else mkBidi s (bwd st) (count st) (finaldist st) (finalpath st) (dir st).

(** [finalpath == [] or finaldist > totaldist] *)
Definition improves (st : bidi) (totaldist : float) : result bool :=
  match finalpath st with
  | [] => Ok true
  | _ :: _ =>
      match finaldist st with
      | None => Raise UnboundLocalError
      | Some fd => Ok (totaldist <? fd)%float
      end
  end.

(** The body of [for w, d in neighs[dir][v].items()] after the cost is
    known, for a neighbour [w] that is relaxed. *)
Definition relax_one (d : bool) (v w : node) (vwLength : float) (st : bidi)
  : result bidi :=
  let s := this_side st d in
  pv <- getitem (paths s) v ;;
  let s' := mkSide (dists s) (set (paths s) w (pv ++ [w]))
                   ((vwLength, count st, w) :: fringe s)
                   (set (seen s) w vwLength) in
  let st1 := with_side st d s' in
  let st1 := mkBidi (fwd st1) (bwd st1) (S (count st1)) (finaldist st1)
                    (finalpath st1) (dir st1) in
  match get (seen (fwd st1)) w, get (seen (bwd st1)) w with
  | Some d0, Some d1 =>
      let totaldist := (d0 + d1)%float in
      b <- improves st1 totaldist ;;
      if b then
        p0 <- getitem (paths (fwd st1)) w ;;
        p1 <- getitem (paths (bwd st1)) w ;;
        Ok (mkBidi (fwd st1) (bwd st1) (count st1) (Some totaldist)
                   (p0 ++ tl (rev p1)) (dir st1))
      else Ok st1
  | _, _ => Ok st1
  end.

(** [for w, d in neighs[dir][v].items()], with [dv = dists[dir][v]] (set
    just before the loop and not written in it). *)
Fixpoint relax (g : Graph) (weight : weightfn) (d : bool) (v : node) (dv : float)
  (nbrs : list (node * ref)) (st : bidi) : result bidi :=
  match nbrs with
  | [] => Ok st
  | (w, r) :: rest =>
      cost <- (if d then weight w v (deref g r) else weight v w (deref g r)) ;;
      let vwLength := (dv + cost)%float in
      let s := this_side st d in
      match get (dists s) w with
      | Some dw =>
          if (vwLength <? dw)%float then Raise ValueError
          else relax g weight d v dv rest st
      | None =>
          let better :=
            match get (seen s) w with
            | None => true
            | Some sw => (vwLength <? sw)%float
            end in
          if better then
            st' <- relax_one d v w vwLength st ;;
            relax g weight d v dv rest st'
          else relax g weight d v dv rest st
      end
  end.

(** [while fringe[0] and fringe[1]] *)
Fixpoint dijkstra_loop (fuel : nat) (g : Graph) (weight : weightfn) (st : bidi)
  : result (float * list node) :=
  match fuel with
  | O => Raise OutOfFuel
  | S fuel' =>
      match fringe (fwd st), fringe (bwd st) with
      | [], _ => Raise NetworkXNoPath
      | _, [] => Raise NetworkXNoPath
      | _, _ =>
          let d := negb (dir st) in
          match heappop (fringe (this_side st d)) with
          | None => Raise IndexError
          | Some ((dist, _, v), rest) =>
              let s := this_side st d in
              let st1 := with_side st d (mkSide (dists s) (paths s) rest (seen s)) in
              let st1 := mkBidi (fwd st1) (bwd st1) (count st1) (finaldist st1)
                                (finalpath st1) d in
              if mem (dists s) v then dijkstra_loop fuel' g weight st1
              else
                let s1 := this_side st1 d in
                let st2 := with_side st1 d
                             (mkSide (set (dists s1) v dist) (paths s1)
                                     (fringe s1) (seen s1)) in
                if mem (dists (other_side st2 d)) v then
                  match finaldist st2 with
                  | None => Raise UnboundLocalError
                  | Some fd => Ok (fd, finalpath st2)
                  end
                else
                  nbrs <- adj g v ;;
                  st3 <- relax g weight d v dist nbrs st2 ;;
                  dijkstra_loop fuel' g weight st3
          end
      end
  end.

(** Every pass pops one entry, and a node pushes at most its degree many
    entries, once, when it is finalised in a direction. *)
Definition total_degree (g : Graph) : nat :=
  fold_right (fun kv acc => List.length (snd kv) + acc) 0 (_adj g).

Definition dijkstra_fuel (g : Graph) : nat := 2 * total_degree g + 3.

Definition bidirectional_dijkstra (g : Graph) (source target : node)
  (weight : weightfn) : result (float * list node) :=
  if negb (has_node g source) then Raise NodeNotFound
  else if negb (has_node g target) then Raise NodeNotFound
  else if String.eqb source target then Ok (0%float, [source])
  else
    dijkstra_loop (dijkstra_fuel g) g weight
      (mkBidi (mkSide [] [(source, [source])] [(0%float, 0, source)] [(source, 0%float)])
              (mkSide [] [(target, [target])] [(0%float, 1, target)] [(target, 0%float)])
              2 None [] true).

(** [nx.shortest_path(G, source, target, weight)]: breadth-first when no
    weight is given, Dijkstra otherwise. *)
Definition shortest_path (g : Graph) (source target : node) (weight : option weightfn)
  : result (list node) :=
  match weight with
  | None => bidirectional_shortest_path g source target
  | Some w =>
      '(_, path) <- bidirectional_dijkstra g source target w ;;
      Ok path
  end.

End nx.

(* ================================================================== *)
(** ** sdwan.py: data classes and the [SDWANController]                *)
(* ================================================================== *)

Record NetworkLink : Type := mkNetworkLink
  { latency : float;
    jitter : float;
    packet_loss : float;
    bandwidth : float;
    cost : float }.

(** [link.__dict__], in field order. *)
Definition NetworkLink_dict (link : NetworkLink) : list (string * float) :=
  [("latency"%string, latency link);
   ("jitter"%string, jitter link);
   ("packet_loss"%string, packet_loss link);
   ("bandwidth"%string, bandwidth link);
   ("cost"%string, cost link)].

Record TrafficFlow : Type := mkTrafficFlow
  { source : string;
    destination : string;
    required_bandwidth : float;
    priority : Z;
    sensitivity : string }.

(** The controller's state.  ([policies] and [performance_metrics] are
    initialised empty and never read or written; they are left out.) *)
Record SDWANController : Type := mkController
  { topology : nx.Graph;
    flows : dict string TrafficFlow }.

Definition SDWANController_init : SDWANController := mkController nx.empty [].

Definition add_node (c : SDWANController) (node_id node_type : string) : SDWANController :=
  mkController (nx.add_node (topology c) node_id [("type"%string, node_type)]) (flows c).

Definition add_link (c : SDWANController) (node1 node2 : string) (link : NetworkLink)
  : SDWANController :=
  mkController (nx.add_edge (topology c) node1 node2 (NetworkLink_dict link)) (flows c).

Definition add_traffic_flow (c : SDWANController) (flow_id : string) (flow : TrafficFlow)
  : SDWANController :=
  mkController (topology c) (set (flows c) flow_id flow).

(** [for metric, value in metrics.items(): self.topology[node1][node2][metric] = value] *)
Fixpoint set_metrics (g : nx.Graph) (node1 node2 : string) (metrics : list (string * float))
  : result nx.Graph :=
  match metrics with
  | [] => Ok g
  | (metric, value) :: rest =>
      g' <- nx.set_edge_attr g node1 node2 metric value ;;
      set_metrics g' node1 node2 rest
  end.

Definition update_link_metrics (c : SDWANController) (node1 node2 : string)
  (metrics : list (string * float)) : result SDWANController :=
  if nx.has_edge (topology c) node1 node2 then
    g <- set_metrics (topology c) node1 node2 metrics ;;
    Ok (mkController g (flows c))
  else Ok c.

(** The two weight lambdas of [calculate_best_path]. *)
Definition throughput_weight : nx.weightfn :=
  fun _ _ d =>
    b <- getitem d "bandwidth"%string ;;
    py_div 1%float b.

Definition reliability_weight : nx.weightfn :=
  fun _ _ d =>
    l <- getitem d "packet_loss"%string ;;
    j <- getitem d "jitter"%string ;;
    Ok (l + j * 0.1)%float.

Definition calculate_best_path (c : SDWANController) (flow_id : string)
  : result (list string) :=
  flow <- getitem (flows c) flow_id ;;
  if String.eqb (sensitivity flow) "latency" then
    nx.shortest_path (topology c) (source flow) (destination flow)
                     (Some (nx.attr_weight "latency"))
  else if String.eqb (sensitivity flow) "throughput" then
    nx.shortest_path (topology c) (source flow) (destination flow)
                     (Some throughput_weight)
  else if String.eqb (sensitivity flow) "reliability" then
    nx.shortest_path (topology c) (source flow) (destination flow)
                     (Some reliability_weight)
  else
    nx.shortest_path (topology c) (source flow) (destination flow) None.

(** The dictionary [_get_path_metrics] returns. *)
Record PathMetrics : Type := mkPathMetrics
  { pm_latency : float;
    pm_jitter : float;
    pm_packet_loss : float;
    pm_bandwidth : float }.

(** The loop [for i in range(len(path)-1)], on the running values
    [(latency, jitter, packet_loss, bandwidth)]. *)
Fixpoint path_loop (g : nx.Graph) (path : list string) (acc : float * float * float * float)
  : result (float * float * float * float) :=
  match path with
  | u :: ((v :: _) as rest) =>
      edge <- nx.edge_data g u v ;;
      el <- getitem edge "latency"%string ;;
      ej <- getitem edge "jitter"%string ;;
      ep <- getitem edge "packet_loss"%string ;;
      eb <- getitem edge "bandwidth"%string ;;
      let '(lat, jit, loss, bw) := acc in
      path_loop g rest
        ((lat + el)%float, (jit + ej)%float, (loss * (1 - ep / 100))%float, py_min bw eb)
  | _ => Ok acc
  end.

Definition _get_path_metrics (c : SDWANController) (path : list string) : result PathMetrics :=
  '(lat, jit, loss, bw) <- path_loop (topology c) path (0, 0, 1, infinity)%float ;;
  Ok (mkPathMetrics lat jit ((1 - loss) * 100)%float bw).

Definition _calculate_path_score (metrics : PathMetrics) (flow : TrafficFlow) : result float :=
  score <-
    (if String.eqb (sensitivity flow) "latency" then
       Ok (100 - pm_latency metrics * 0.5 - pm_jitter metrics * 0.3)%float
     else if String.eqb (sensitivity flow) "throughput" then
       q <- py_div (pm_bandwidth metrics) (required_bandwidth flow) ;;
       Ok (q * 100)%float
     else if String.eqb (sensitivity flow) "reliability" then
       Ok (100 - pm_packet_loss metrics * 2 - pm_jitter metrics * 0.5)%float
     else Raise UnboundLocalError) ;;
  Ok (py_max 0%float (py_min 100%float score)).

(** One entry of the mapping [simulate_traffic] returns. *)
Record PathResult : Type := mkPathResult
  { path : list string;
    metrics : PathMetrics;
    score : float }.

(** The loop [for flow_id, flow in self.flows.items()]. *)
Fixpoint simulate_loop (c : SDWANController) (items : list (string * TrafficFlow))
  (results : dict string PathResult) : result (dict string PathResult) :=
  match items with
  | [] => Ok results
  | (flow_id, flow) :: rest =>
      p <- calculate_best_path c flow_id ;;
      path_metrics <- _get_path_metrics c p ;;
      s <- _calculate_path_score path_metrics flow ;;
      simulate_loop c rest (set results flow_id (mkPathResult p path_metrics s))
  end.

Definition simulate_traffic (c : SDWANController) : result (dict string PathResult) :=
  simulate_loop c (flows c) [].

(* ================================================================== *)
(** ** sdwan.py: the [DynamicPathOptimizer]                            *)
(* ================================================================== *)

(** The value [_capture_state] stores for an edge. *)
Record EdgeState : Type := mkEdgeState
  { es_latency : float;
    es_jitter : float;
    es_packet_loss : float }.

Definition State : Type := dict (string * string) EdgeState.

(** The loop [for u, v in self.controller.topology.edges()]. *)
Fixpoint capture_loop (g : nx.Graph) (es : list (string * string)) (state : State)
  : result State :=
  match es with
  | [] => Ok state
  | (u, v) :: rest =>
      d1 <- nx.edge_data g u v ;;
      l <- getitem d1 "latency"%string ;;
      d2 <- nx.edge_data g u v ;;
      j <- getitem d2 "jitter"%string ;;
      d3 <- nx.edge_data g u v ;;
      p <- getitem d3 "packet_loss"%string ;;
      capture_loop g rest (set state (u, v) (mkEdgeState l j p))
  end.

Definition _capture_state (c : SDWANController) : result State :=
  capture_loop (topology c) (nx.edges (topology c)) [].

(** The loop [for key in state1], with the inner loop over the three
    metric names unrolled. *)
Fixpoint diff_loop (items : list ((string * string) * EdgeState)) (state2 : State)
  (total_diff : float) : result float :=
  match items with
  | [] => Ok total_diff
  | (key, e1) :: rest =>
      e2 <- getitem state2 key ;;
      let t1 := (total_diff + abs (es_latency e1 - es_latency e2))%float in
      e2' <- getitem state2 key ;;
      let t2 := (t1 + abs (es_jitter e1 - es_jitter e2'))%float in
      e2'' <- getitem state2 key ;;
      let t3 := (t2 + abs (es_packet_loss e1 - es_packet_loss e2''))%float in
      diff_loop rest state2 t3
  end.

Definition _state_diff (state1 state2 : State) : result float :=
  diff_loop state1 state2 0%float.

(** The optimizer holds a reference to the controller and its own
    [history]; the controller is passed in, the history is threaded. *)
Record DynamicPathOptimizer : Type := mkOptimizer
  { history : list State }.

Definition DynamicPathOptimizer_init : DynamicPathOptimizer := mkOptimizer [].

(** [optimize_paths(threshold)]: the returned flag and the optimizer after
    the call. *)
Definition optimize_paths (o : DynamicPathOptimizer) (c : SDWANController)
  (threshold : float) : result (bool * DynamicPathOptimizer) :=
  current_state <- _capture_state c ;;
  let append := Ok (false, mkOptimizer (history o ++ [current_state])) in
  match rev (history o) with
  | last_state :: _ =>
      d <- _state_diff last_state current_state ;;
      if (threshold <? d)%float then Ok (true, o)
      else append
  | [] => append
  end.

(** The generator behind [random.uniform]: the values that successive
    calls of [random.random()] return, and the number of calls made. *)
Record Random : Type := mkRandom
  { draws : nat -> float;
    drawn : nat }.

(** [random.random()] *)
Definition random (r : Random) : float * Random :=
  (draws r (drawn r), mkRandom (draws r) (S (drawn r))).

(** [random.uniform(a, b)]: [a + (b - a) * self.random()]. *)
Definition uniform (a b : float) (r : Random) : float * Random :=
  let '(x, r') := random r in ((a + (b - a) * x)%float, r').

(** The loop of [monitor_links], [for u, v in self.controller.topology.edges()].
    The body changes attribute values only, never the adjacency the edges
    are read from, so the edges are those at the start of the loop. *)
Fixpoint monitor_loop (c : SDWANController) (es : list (string * string)) (r : Random)
  : result (SDWANController * Random) :=
  match es with
  | [] => Ok (c, r)
  | (u, v) :: rest =>
      d1 <- nx.edge_data (topology c) u v ;;
      l <- getitem d1 "latency"%string ;;
      let '(x1, r) := uniform 0.9 1.1 r in
      let new_latency := (l * x1)%float in
      d2 <- nx.edge_data (topology c) u v ;;
      j <- getitem d2 "jitter"%string ;;
      let '(x2, r) := uniform 0.8 1.2 r in
      let new_jitter := (j * x2)%float in
      d3 <- nx.edge_data (topology c) u v ;;
      p <- getitem d3 "packet_loss"%string ;;
      let '(x3, r) := uniform (-0.1) 0.1 r in
      let new_loss := py_min 5%float (py_max 0%float (p + x3)%float) in
      c' <- update_link_metrics c u v
              [("latency"%string, new_latency); ("jitter"%string, new_jitter);
               ("packet_loss"%string, new_loss)] ;;
      monitor_loop c' rest r
  end.

Definition monitor_links (c : SDWANController) (r : Random)
  : result (SDWANController * Random) :=
  monitor_loop c (nx.edges (topology c)) r.

(* ================================================================== *)
(** ** The scenario of [run_simulation] (and of the dashboard)         *)
(* ================================================================== *)

Definition demo_topology : SDWANController :=
  let c := SDWANController_init in
  let c := add_node c "HQ" "hub" in
  let c := add_node c "Branch1" "cpe" in
  let c := add_node c "Branch2" "cpe" in
  let c := add_node c "CloudGW" "cloud" in
  let c := add_link c "HQ" "Branch1" (mkNetworkLink 30 5 0.1 50 1) in
  let c := add_link c "HQ" "Branch2" (mkNetworkLink 40 8 0.2 50 1) in
  let c := add_link c "Branch1" "Branch2" (mkNetworkLink 20 3 0.05 20 2) in
  let c := add_link c "Branch1" "CloudGW" (mkNetworkLink 60 15 0.3 100 3) in
  add_link c "Branch2" "CloudGW" (mkNetworkLink 70 20 0.4 100 3).

Definition demo_controller : SDWANController :=
  let c := demo_topology in
  let c := add_traffic_flow c "voip1" (mkTrafficFlow "Branch1" "HQ" 0.5 1 "latency") in
  let c := add_traffic_flow c "backup1" (mkTrafficFlow "Branch1" "CloudGW" 20 4 "throughput") in
  add_traffic_flow c "video1" (mkTrafficFlow "Branch2" "HQ" 5 2 "reliability").

(** One pass of the loop of [run_simulation]: the controller, the
    optimizer and the generator after it, and what it reports (the results
    of [simulate_traffic] when a reoptimization is signalled, nothing
    otherwise; the formatting of the printed lines is left out). *)
Definition simulation_step (c : SDWANController) (o : DynamicPathOptimizer) (rnd : Random)
  : result (SDWANController * DynamicPathOptimizer * Random
            * option (dict string PathResult)) :=
  '(c, rnd) <- monitor_links c rnd ;;
  '(signal, o) <- optimize_paths o c 10 ;;
  if signal : bool then
    results <- simulate_traffic c ;;
    Ok (c, o, rnd, Some results)
  else Ok (c, o, rnd, None).

(** [for step in range(steps)] *)
Fixpoint simulation_loop (steps : nat) (c : SDWANController) (o : DynamicPathOptimizer)
  (rnd : Random) (out : list (option (dict string PathResult)))
  : result (list (option (dict string PathResult))) :=
  match steps with
  | O => Ok out
  | S n =>
      '(c, o, rnd, reported) <- simulation_step c o rnd ;;
      simulation_loop n c o rnd (out ++ [reported])
  end.

Definition run_simulation (rnd : Random)
  : result (list (option (dict string PathResult))) :=
  simulation_loop 10 demo_controller DynamicPathOptimizer_init rnd [].

(* ================================================================== *)
(** * Properties                                                        *)
(* ================================================================== *)

(** ** Dictionaries *)

Class EqKeyLaws (K : Type) `{EqKey K} : Prop :=
  { keqb_eq : forall a b : K, keqb a b = true <-> a = b }.

#[global] Instance EqKeyLaws_string : EqKeyLaws string.
Proof. constructor. exact String.eqb_eq. Qed.

#[global] Instance EqKeyLaws_pair {A B : Type} `{EqKeyLaws A} `{EqKeyLaws B} :
  EqKeyLaws (A * B).
Proof.
  constructor. intros [a b] [a' b']. simpl.
  rewrite andb_true_iff, !keqb_eq. split.
  - intros [-> ->]; reflexivity.
  - intros E; inversion E; auto.
Qed.

Section DictLaws.
Context {K V : Type} `{EqKeyLaws K}.
Implicit Types (d : dict K V) (k : K) (v : V).

Lemma keqb_refl k : keqb k k = true.
Proof. apply keqb_eq; reflexivity. Qed.

Lemma keqb_neq k k' : k <> k' -> keqb k k' = false.
Proof.
  intros N. destruct (keqb k k') eqn:E; auto.
  apply keqb_eq in E; contradiction.
Qed.

Lemma keqb_dec k k' : {k = k'} + {k <> k'}.
Proof.
  destruct (keqb k k') eqn:E.
  - left; apply keqb_eq; exact E.
  - right; intros ->. rewrite keqb_refl in E; discriminate.
Qed.

Lemma get_set_same d k v : get (set d k v) k = Some v.
Proof.
  induction d as [|[k' v'] d IH]; simpl.
  - rewrite keqb_refl; reflexivity.
  - destruct (keqb k' k) eqn:E; simpl; rewrite E; auto.
Qed.

Lemma get_set_other d k k' v : k <> k' -> get (set d k v) k' = get d k'.
Proof.
  intros N. induction d as [|[k0 v0] d IH]; simpl.
  - rewrite keqb_neq; auto.
  - destruct (keqb k0 k) eqn:E; simpl.
    + apply keqb_eq in E; subst k0. rewrite keqb_neq; auto.
    + rewrite IH; reflexivity.
Qed.

Lemma get_set d k k' v :
  get (set d k v) k' = if keqb k k' then Some v else get d k'.
Proof.
  destruct (keqb k k') eqn:E.
  - apply keqb_eq in E; subst; apply get_set_same.
  - apply get_set_other. intros ->; rewrite keqb_refl in E; discriminate.
Qed.

Lemma mem_set d k k' v : mem (set d k v) k' = keqb k k' || mem d k'.
Proof. unfold mem. rewrite get_set. destruct (keqb k k'); reflexivity. Qed.

Lemma keys_set d k v :
  keys (set d k v) = if mem d k then keys d else keys d ++ [k].
Proof.
  unfold mem, keys. induction d as [|[k' v'] d IH]; simpl; auto.
  destruct (keqb k' k) eqn:E; simpl; auto.
  rewrite IH. destruct (get d k); reflexivity.
Qed.

Lemma length_set d k v :
  List.length (set d k v) = if mem d k then List.length d else S (List.length d).
Proof.
  pose proof (keys_set d k v) as E. apply (f_equal (@List.length K)) in E.
  unfold keys in E. rewrite length_map in E. rewrite E.
  destruct (mem d k); rewrite ?length_app, length_map; simpl; lia.
Qed.

Lemma get_In d k v : get d k = Some v -> In (k, v) d.
Proof.
  induction d as [|[k' v'] d IH]; simpl; [discriminate|].
  destruct (keqb k' k) eqn:E.
  - apply keqb_eq in E; subst. intros [= ->]; auto.
  - auto.
Qed.

Lemma get_In_keys d k v : get d k = Some v -> In k (keys d).
Proof. intros G. apply get_In in G. apply (in_map fst) in G. exact G. Qed.

Lemma In_keys_get d k : In k (keys d) -> exists v, get d k = Some v.
Proof.
  induction d as [|[k' v'] d IH]; simpl; [tauto|].
  intros [->|I].
  - rewrite keqb_refl; eauto.
  - destruct (keqb k' k); eauto.
Qed.

Lemma mem_In_keys d k : mem d k = true <-> In k (keys d).
Proof.
  unfold mem. split.
  - destruct (get d k) eqn:G; [|discriminate]. intros _; eapply get_In_keys; eauto.
  - intros I. apply In_keys_get in I as [v ->]; reflexivity.
Qed.

Lemma In_get_NoDup d k v : NoDup (keys d) -> In (k, v) d -> get d k = Some v.
Proof.
  induction d as [|[k' v'] d IH]; simpl; [tauto|].
  intros ND [E|I].
  - inversion E; subst. rewrite keqb_refl; reflexivity.
  - inversion ND as [|? ? NI ND']; subst.
    destruct (keqb k' k) eqn:E.
    + apply keqb_eq in E; subst. exfalso. apply NI.
      apply (in_map fst) in I; exact I.
    + auto.
Qed.

Lemma NoDup_keys_set d k v : NoDup (keys d) -> NoDup (keys (set d k v)).
Proof.
  intros ND. rewrite keys_set. destruct (mem d k) eqn:M; auto.
  apply NoDup_app; auto.
  - constructor; [simpl; tauto | constructor].
  - intros x I [<-|[]]. apply mem_In_keys in I. congruence.
Qed.

End DictLaws.

(** ** Binary64 arithmetic *)

Section FloatFacts.
Local Open Scope float_scope.

(** The order on the specification floats is read off [SFcompare]. *)
Lemma SFltb_SFleb x y : SFltb x y = true -> SFleb x y = true.
Proof. unfold SFltb, SFleb. destruct (SFcompare x y) as [[]|]; auto. Qed.

Lemma ltb_leb (x y : float) : (x <? y) = true -> (x <=? y) = true.
Proof. rewrite ltb_spec, leb_spec. apply SFltb_SFleb. Qed.

Lemma float_of_SF (x : float) (s : spec_float) : Prim2SF x = s -> x = SF2Prim s.
Proof. intros <-. symmetry; apply SF2Prim_Prim2SF. Qed.

(** A float that compares equal to zero is one of the two zeros. *)
Lemma eqb_zero_cases (x : float) : (x =? 0) = true -> x = 0 \/ x = (-0).
Proof.
  rewrite eqb_spec. change (Prim2SF 0) with (S754_zero false).
  destruct (Prim2SF x) as [[]|[]| |[] ? ?] eqn:E; simpl; try discriminate; intros _.
  - right. apply float_of_SF in E. exact E.
  - left. apply float_of_SF in E. exact E.
Qed.

(** A finite float is a zero or a finite specification float. *)
Lemma is_finite_SF (x : float) :
  is_finite x = true ->
  (exists s, Prim2SF x = S754_zero s) \/ (exists s m e, Prim2SF x = S754_finite s m e).
Proof.
  unfold is_finite, is_nan, is_infinity.
  rewrite !eqb_spec, abs_spec. change (Prim2SF infinity) with (S754_infinity false).
  destruct (Prim2SF x) as [s|[]| |s m e]; simpl; try discriminate; eauto.
Qed.

Lemma sub_diag_finite (x : float) : is_finite x = true -> x - x = 0.
Proof.
  intros F. apply (float_of_SF (x - x) (S754_zero false)). rewrite sub_spec. unfold SF64sub.
  destruct (is_finite_SF x F) as [[s ->]|(s & m & e & ->)].
  - destruct s; reflexivity.
  - unfold SFsub. rewrite Z.sub_diag. reflexivity.
Qed.

Lemma abs_sub_diag_finite (x : float) : is_finite x = true -> abs (x - x) = 0.
Proof. intros F. rewrite sub_diag_finite by exact F. reflexivity. Qed.

(** The clamp [max(0, min(100, score))] lands in [0, 100] whatever the
    score, a NaN included. *)
Lemma clamp_bounds (s : float) :
  let r := py_max 0 (py_min 100 s) in (0 <=? r) = true /\ (r <=? 100) = true.
Proof.
  unfold py_max, py_min. destruct (s <? 100) eqn:E1.
  - destruct (0 <? s) eqn:E2.
    + split; apply ltb_leb; assumption.
    + split; reflexivity.
  - split; reflexivity.
Qed.

End FloatFacts.

(** Closed goals about the scenario are settled by evaluation, one
    conjunct at a time. *)
Ltac split_conj := repeat match goal with |- _ /\ _ => split end.

Ltac split_compute :=
  repeat match goal with |- _ /\ _ => split end; vm_compute; reflexivity.

(** ** The scenario, evaluated *)

(** C9. In the scenario of [run_simulation] the flow [voip1] (Branch1 to HQ,
    latency-sensitive) is routed over the direct link [Branch1; HQ], whose
    aggregated latency is 30 and jitter is 5, and its score is
    100 - 0.5 * 30 - 0.3 * 5 = 83.5. *)
Theorem scenario_voip1 :
  calculate_best_path demo_controller "voip1" = Ok ["Branch1"%string; "HQ"%string] /\
  exists results r,
    simulate_traffic demo_controller = Ok results /\
    get results "voip1"%string = Some r /\
    path r = ["Branch1"%string; "HQ"%string] /\
    pm_latency (metrics r) = 30%float /\
    pm_jitter (metrics r) = 5%float /\
    score r = 83.5%float /\
    (100 - 0.5 * 30 - 0.3 * 5 = 83.5)%float.
Proof.
  split; [vm_compute; reflexivity|].
  destruct (simulate_traffic demo_controller) as [results|e] eqn:E;
    vm_compute in E; [|discriminate].
  injection E as <-.
  eexists; eexists; split; [reflexivity|].
  split_compute.
Qed.

(** ** The path score *)

Definition known_sensitivity (s : string) : bool :=
  String.eqb s "latency" || String.eqb s "throughput" || String.eqb s "reliability".

(** For the three sensitivities the program names, the score is defined as
    soon as the required bandwidth is not zero, and it lies in [0, 100]
    (for any metrics at all: the clamp also absorbs a NaN). *)
Lemma score_in_range (m : PathMetrics) (flow : TrafficFlow) :
  known_sensitivity (sensitivity flow) = true ->
  (required_bandwidth flow =? 0)%float = false ->
  exists s, _calculate_path_score m flow = Ok s /\
            (0 <=? s)%float = true /\ (s <=? 100)%float = true.
Proof.
  unfold known_sensitivity, _calculate_path_score, py_div. intros K R.
  destruct (String.eqb (sensitivity flow) "latency").
  { simpl. eexists; split; [reflexivity|apply clamp_bounds]. }
  destruct (String.eqb (sensitivity flow) "throughput").
  { rewrite R. simpl. eexists; split; [reflexivity|apply clamp_bounds]. }
  destruct (String.eqb (sensitivity flow) "reliability"); [|discriminate].
  simpl. eexists; split; [reflexivity|apply clamp_bounds].
Qed.

(** C2. The score is not defined for every sensitivity: for a flow whose
    sensitivity is none of [latency], [throughput], [reliability] (the
    case [calculate_best_path] serves with a hop-count path) no branch binds
    [score], and [_calculate_path_score] raises instead of returning a value
    in [0, 100]; [simulate_traffic] fails with it. *)
Theorem score_unspecified_unbound :
  (forall (m : PathMetrics) (src dst : string) (rb : float) (pr : Z),
      _calculate_path_score m (mkTrafficFlow src dst rb pr "unspecified")
      = Raise UnboundLocalError) /\
  calculate_best_path
    (add_traffic_flow demo_topology "f" (mkTrafficFlow "CloudGW" "HQ" 5 2 "unspecified")) "f"
  = Ok ["CloudGW"%string; "Branch1"%string; "HQ"%string] /\
  simulate_traffic
    (add_traffic_flow demo_topology "f" (mkTrafficFlow "CloudGW" "HQ" 5 2 "unspecified"))
  = Raise UnboundLocalError.
Proof.
  split; [intros; reflexivity|]. split; vm_compute; reflexivity.
Qed.

(** ** The reoptimisation trigger *)

Lemma last_item_rev {A : Type} (l : list A) :
  last_item l = match rev l with [] => Raise IndexError | x :: _ => Ok x end.
Proof. reflexivity. Qed.

(** [optimize_paths], by cases on the history. *)
Lemma optimize_paths_cold (c : SDWANController) (th : float) :
  optimize_paths (mkOptimizer []) c th
  = (cur <- _capture_state c ;; Ok (false, mkOptimizer [cur])).
Proof. unfold optimize_paths. destruct (_capture_state c); reflexivity. Qed.

Lemma optimize_paths_warm (o : DynamicPathOptimizer) (c : SDWANController)
  (th : float) (last : State) :
  last_item (history o) = Ok last ->
  optimize_paths o c th
  = (cur <- _capture_state c ;;
     d <- _state_diff last cur ;;
     if (th <? d)%float then Ok (true, o)
     else Ok (false, mkOptimizer (history o ++ [cur]))).
Proof.
  unfold optimize_paths, last_item. intros L.
  destruct (rev (history o)) as [|x l]; [discriminate|]. injection L as ->.
  reflexivity.
Qed.

(** The optimizer after a first call on the scenario, and the scenario with
    the latency of the link HQ--Branch1 changed from 30 to [x]. *)
Definition demo_baseline : DynamicPathOptimizer :=
  match optimize_paths DynamicPathOptimizer_init demo_controller 10 with
  | Ok (_, o) => o
  | Raise _ => DynamicPathOptimizer_init
  end.

Definition demo_with_latency (x : float) : SDWANController :=
  match update_link_metrics demo_controller "HQ" "Branch1" [("latency"%string, x)] with
  | Ok c => c
  | Raise _ => demo_controller
  end.

(** C5, as stated, fails when the drift equals the threshold: with the
    scenario's snapshot as baseline and the latency of one link moved from
    30 to 40, the drift is exactly 10, which is [>=] the threshold 10, and
    [optimize_paths] returns false. *)
Lemma drift_equal_threshold_no_signal :
  exists last cur d o',
    last_item (history demo_baseline) = Ok last /\
    _capture_state (demo_with_latency 40) = Ok cur /\
    _state_diff last cur = Ok d /\
    (10 <=? d)%float = true /\
    optimize_paths demo_baseline (demo_with_latency 40) 10 = Ok (false, o').
Proof.
  destruct (last_item (history demo_baseline)) as [last|] eqn:E1;
    vm_compute in E1; [|discriminate].
  destruct (_capture_state (demo_with_latency 40)) as [cur|] eqn:E2;
    vm_compute in E2; [|discriminate].
  injection E1 as <-. injection E2 as <-.
  eexists; eexists; exists 10%float; eexists.
  split_compute.
Qed.

(** The drift as the specification words it.  For one edge, the absolute
    differences between the baseline and the new value of latency, jitter
    and packet loss. *)
Definition edge_drift_terms (baseline current : EdgeState) : list float :=
  [abs (es_latency baseline - es_latency current);
   abs (es_jitter baseline - es_jitter current);
   abs (es_packet_loss baseline - es_packet_loss current)]%float.

(** Those differences for every edge of the baseline, in its order;
    [None] when the new snapshot lacks one of the baseline's edges. *)
Fixpoint drift_terms (baseline : list ((string * string) * EdgeState)) (current : State)
  : option (list float) :=
  match baseline with
  | [] => Some []
  | (key, e1) :: rest =>
      match get current key, drift_terms rest current with
      | Some e2, Some ts => Some (edge_drift_terms e1 e2 ++ ts)
      | _, _ => None
      end
  end.

(** The sum of the terms, taken from left to right starting at 0. *)
Definition drift_sum (ts : list float) : float := fold_left PrimFloat.add ts 0%float.

Lemma diff_loop_drift (current : State) (items : list ((string * string) * EdgeState)) :
  forall t,
    diff_loop items current t
    = match drift_terms items current with
      | Some ts => Ok (fold_left PrimFloat.add ts t)
      | None => Raise KeyError
      end.
Proof.
  induction items as [|[k e1] items IH]; intros t; [reflexivity|].
  cbn [diff_loop drift_terms]. unfold getitem.
  destruct (get current k) as [e2|]; cbn [bind]; [|reflexivity].
  rewrite IH. destruct (drift_terms items current) as [ts|]; reflexivity.
Qed.

(** [_state_diff] computes the drift of the specification. *)
Lemma state_diff_drift (last cur : State) :
  _state_diff last cur
  = match drift_terms last cur with
    | Some ts => Ok (drift_sum ts)
    | None => Raise KeyError
    end.
Proof. apply diff_loop_drift. Qed.

(** C5 (amended). [optimize_paths] returns true exactly when the history
    holds a baseline snapshot and the drift from it to the freshly captured
    snapshot is strictly greater than the threshold, the drift being the sum,
    over the edges of the baseline, of the absolute differences between the
    baseline and the new value of latency, jitter and packet loss; on the
    very first call (empty history) it returns false whatever the metrics
    are. *)
Theorem optimize_paths_signals_iff (o : DynamicPathOptimizer) (c : SDWANController)
  (th : float) :
  ((exists o', optimize_paths o c th = Ok (true, o')) <->
   (exists last cur ts,
       last_item (history o) = Ok last /\
       _capture_state c = Ok cur /\
       drift_terms last cur = Some ts /\
       (th <? drift_sum ts)%float = true)) /\
  (forall last cur,
      _state_diff last cur
      = match drift_terms last cur with
        | Some ts => Ok (drift_sum ts)
        | None => Raise KeyError
        end) /\
  optimize_paths (mkOptimizer []) c th
  = (cur <- _capture_state c ;; Ok (false, mkOptimizer [cur])).
Proof.
  split; [|split; [exact state_diff_drift|apply optimize_paths_cold]].
  destruct (last_item (history o)) as [last|e] eqn:L.
  - rewrite (optimize_paths_warm o c th last L). split.
    + intros [o' E]. destruct (_capture_state c) as [cur|] eqn:C; [|discriminate].
      cbn [bind] in E. rewrite state_diff_drift in E.
      destruct (drift_terms last cur) as [ts|] eqn:D; [|discriminate].
      cbn [bind] in E. destruct (th <? drift_sum ts)%float eqn:T; [|discriminate].
      exists last, cur, ts. auto.
    + intros (last' & cur & ts & E1 & E2 & E3 & E4).
      assert (last' = last) by congruence. subst last'.
      rewrite E2. cbn [bind]. rewrite state_diff_drift, E3. cbn [bind]. rewrite E4. eauto.
  - split.
    + intros [o' E]. unfold optimize_paths in E. unfold last_item in L.
      destruct (rev (history o)); [|discriminate].
      destruct (_capture_state c); discriminate.
    + intros (last & _ & _ & E & _). discriminate.
Qed.

(** C6. A call that signals reoptimisation returns before the append: the
    optimizer is left as it was, so the fresh snapshot is neither added to
    the history nor made the next baseline.  In the scenario, with the
    latency of one link moved from 30 to 50 (drift 20 > 10), the call
    returns true and the history still holds the first snapshot only. *)
Theorem optimize_paths_signal_skips_append :
  (forall o c th,
      match optimize_paths o c th with
      | Ok (true, o') => o' = o
      | _ => True
      end) /\
  exists s0 cur,
    history demo_baseline = [s0] /\
    _capture_state (demo_with_latency 50) = Ok cur /\
    _state_diff s0 cur = Ok 20%float /\
    optimize_paths demo_baseline (demo_with_latency 50) 10 = Ok (true, demo_baseline) /\
    last_item (history demo_baseline) = Ok s0.
Proof.
  split.
  - intros o c th. unfold optimize_paths.
    destruct (_capture_state c) as [cur|]; simpl; auto.
    destruct (rev (history o)) as [|last l]; simpl; auto.
    destruct (_state_diff last cur) as [d|]; simpl; auto.
    destruct (th <? d)%float; auto.
  - destruct (history demo_baseline) as [|s0 [|]] eqn:E1; vm_compute in E1;
      try discriminate.
    destruct (_capture_state (demo_with_latency 50)) as [cur|] eqn:E2;
      vm_compute in E2; [|discriminate].
    injection E1 as <-. injection E2 as <-.
    eexists; eexists. split_compute.
Qed.

(** ** What the trigger can see of a topology *)

(** The value of attribute [k] of the link between [u] and [v]. *)
Definition link_attr (g : nx.Graph) (u v : string) (k : string) : result float :=
  d <- nx.edge_data g u v ;; getitem d k.

(** Two topologies have the same links and agree, link by link, on the
    three tracked metrics (bandwidth, cost and anything else are free). *)
Definition same_tracked (g1 g2 : nx.Graph) : Prop :=
  nx.edges g1 = nx.edges g2 /\
  Forall (fun e =>
            link_attr g1 (fst e) (snd e) "latency" = link_attr g2 (fst e) (snd e) "latency" /\
            link_attr g1 (fst e) (snd e) "jitter" = link_attr g2 (fst e) (snd e) "jitter" /\
            link_attr g1 (fst e) (snd e) "packet_loss"
            = link_attr g2 (fst e) (snd e) "packet_loss")
         (nx.edges g1).

(** Every value of a snapshot is a finite number. *)
Definition state_finite (s : State) : bool :=
  forallb (fun kv => is_finite (es_latency (snd kv)) &&
                     is_finite (es_jitter (snd kv)) &&
                     is_finite (es_packet_loss (snd kv))) s.

Lemma capture_loop_agree (g1 g2 : nx.Graph) (es : list (string * string)) :
  Forall (fun e =>
            link_attr g1 (fst e) (snd e) "latency" = link_attr g2 (fst e) (snd e) "latency" /\
            link_attr g1 (fst e) (snd e) "jitter" = link_attr g2 (fst e) (snd e) "jitter" /\
            link_attr g1 (fst e) (snd e) "packet_loss"
            = link_attr g2 (fst e) (snd e) "packet_loss") es ->
  forall st, capture_loop g1 es st = capture_loop g2 es st.
Proof.
  induction 1 as [|[u v] es (Hl & Hj & Hp) _ IH]; intros st; [reflexivity|].
  unfold link_attr in Hl, Hj, Hp. simpl in *.
  destruct (nx.edge_data g1 u v) as [d1|e1], (nx.edge_data g2 u v) as [d2|e2];
    simpl in *.
  - rewrite Hl, Hj, Hp.
    destruct (getitem d2 "latency"%string); simpl; auto.
    destruct (getitem d2 "jitter"%string); simpl; auto.
    destruct (getitem d2 "packet_loss"%string); simpl; auto.
  - rewrite Hl. reflexivity.
  - rewrite <- Hl. reflexivity.
  - injection Hl as ->. reflexivity.
Qed.

Lemma capture_loop_NoDup (g : nx.Graph) (es : list (string * string)) :
  forall st s, NoDup (keys st) -> capture_loop g es st = Ok s -> NoDup (keys s).
Proof.
  induction es as [|[u v] es IH]; simpl; intros st s ND E.
  - injection E as <-; exact ND.
  - destruct (nx.edge_data g u v) as [d|]; [simpl in E|discriminate].
    destruct (getitem d "latency"%string); [simpl in E|discriminate].
    destruct (getitem d "jitter"%string); [simpl in E|discriminate].
    destruct (getitem d "packet_loss"%string); [simpl in E|discriminate].
    eapply IH; [|exact E]. apply NoDup_keys_set; exact ND.
Qed.

Lemma diff_loop_self (s : State) (items : list ((string * string) * EdgeState)) :
  (forall k e, In (k, e) items -> get s k = Some e) ->
  state_finite items = true ->
  diff_loop items s 0%float = Ok 0%float.
Proof.
  induction items as [|[k e] items IH]; intros G F; [reflexivity|].
  simpl in F. apply andb_true_iff in F as [F1 F].
  apply andb_true_iff in F1 as [F1 F3]. apply andb_true_iff in F1 as [F1 F2].
  simpl. unfold getitem. rewrite (G k e) by (left; reflexivity). simpl.
  rewrite !abs_sub_diag_finite by assumption.
  change (0 + 0 + 0 + 0)%float with 0%float.
  apply IH; auto. intros; apply G; right; assumption.
Qed.

Lemma state_diff_self (s : State) :
  NoDup (keys s) -> state_finite s = true -> _state_diff s s = Ok 0%float.
Proof.
  intros ND F. apply diff_loop_self; auto.
  intros k e I. apply In_get_NoDup; assumption.
Qed.

Lemma leb_zero_not_ltb (th : float) :
  (0 <=? th)%float = true -> (th <? 0)%float = false.
Proof.
  rewrite leb_spec, ltb_spec. change (Prim2SF 0) with (S754_zero false).
  destruct (Prim2SF th) as [[]|[]| |[] ? ?]; simpl; auto; discriminate.
Qed.

(** A difference of a value with itself is zero, or a NaN when the value
    is infinite or a NaN. *)
Definition zero_or_nan (d : float) : Prop := d = 0%float \/ Prim2SF d = S754_nan.

Lemma abs_sub_diag_cases (x : float) : zero_or_nan (abs (x - x)).
Proof.
  unfold zero_or_nan. destruct (Prim2SF x) as [s|s| |s m e] eqn:E.
  - left. apply (float_of_SF (abs (x - x)) (S754_zero false)).
    rewrite abs_spec, sub_spec, E. destruct s; reflexivity.
  - right. rewrite abs_spec, sub_spec, E. destruct s; reflexivity.
  - right. rewrite abs_spec, sub_spec, E. reflexivity.
  - left. apply (float_of_SF (abs (x - x)) (S754_zero false)).
    rewrite abs_spec, sub_spec, E. unfold SF64sub, SFsub. rewrite Z.sub_diag.
    destruct s; reflexivity.
Qed.

Lemma add_zero_or_nan (t a : float) : zero_or_nan t -> zero_or_nan a -> zero_or_nan (t + a).
Proof.
  unfold zero_or_nan. intros [->|Nt] [->|Na].
  - left. reflexivity.
  - right. rewrite add_spec, Na. reflexivity.
  - right. rewrite add_spec, Nt. reflexivity.
  - right. rewrite add_spec, Nt. reflexivity.
Qed.

Lemma ltb_zero_or_nan (th d : float) :
  (0 <=? th)%float = true -> zero_or_nan d -> (th <? d)%float = false.
Proof.
  intros T [->|N]; [apply leb_zero_not_ltb; exact T|].
  rewrite ltb_spec, N. destruct (Prim2SF th) as [[]|[]| |[] ? ?]; reflexivity.
Qed.

Lemma zero_or_nan_is_nan (d : float) : zero_or_nan d -> d = 0%float \/ is_nan d = true.
Proof.
  intros [Z|N]; [left; exact Z|right].
  unfold is_nan. rewrite eqb_spec, N. reflexivity.
Qed.

Lemma diff_loop_self_cases (s : State) (items : list ((string * string) * EdgeState)) :
  (forall k e, In (k, e) items -> get s k = Some e) ->
  forall t, zero_or_nan t -> exists d, diff_loop items s t = Ok d /\ zero_or_nan d.
Proof.
  induction items as [|[k e] items IH]; intros G t Z; [exists t; split; [reflexivity|exact Z]|].
  cbn [diff_loop]. unfold getitem. rewrite (G k e) by (left; reflexivity). cbn [bind].
  apply IH; [intros k' e' I; apply G; right; exact I|].
  repeat apply add_zero_or_nan; auto using abs_sub_diag_cases.
Qed.

Lemma state_diff_self_cases (s : State) :
  NoDup (keys s) -> exists d, _state_diff s s = Ok d /\ zero_or_nan d.
Proof.
  intros ND. apply diff_loop_self_cases; [|left; reflexivity].
  intros k e I. apply In_get_NoDup; assumption.
Qed.

(** Two one-link topologies that differ in bandwidth and cost only, the
    latency of the link being infinite. *)
Definition demo_infinite_latency : SDWANController :=
  add_link SDWANController_init "A" "B" (mkNetworkLink infinity 5 0.1 50 1).

Definition demo_infinite_latency_other : SDWANController :=
  add_link SDWANController_init "A" "B" (mkNetworkLink infinity 5 0.1 10 7).

(** C10, as stated, fails on its second part when a tracked metric is not
    a finite number: the two topologies agree on latency, jitter and packet
    loss of their link and differ in bandwidth, their snapshots are equal,
    but the drift computed between the snapshots is a NaN, not 0 (the
    difference of the infinite latency with itself). *)
Lemma infinite_latency_drift_not_zero :
  same_tracked (topology demo_infinite_latency) (topology demo_infinite_latency_other) /\
  link_attr (topology demo_infinite_latency) "A" "B" "bandwidth" = Ok 50%float /\
  link_attr (topology demo_infinite_latency_other) "A" "B" "bandwidth" = Ok 10%float /\
  exists s1 s2 d,
    _capture_state demo_infinite_latency = Ok s1 /\
    _capture_state demo_infinite_latency_other = Ok s2 /\
    s1 = s2 /\
    _state_diff s1 s2 = Ok d /\
    (d =? 0)%float = false /\ is_nan d = true.
Proof.
  split; [split; [vm_compute; reflexivity|vm_compute; repeat constructor]|].
  split; [vm_compute; reflexivity|]. split; [vm_compute; reflexivity|].
  exists [(("A", "B")%string, mkEdgeState infinity 5 0.1)],
         [(("A", "B")%string, mkEdgeState infinity 5 0.1)], nan.
  split_compute.
Qed.

(** C10 (amended). Two topology states with the same links that agree on
    latency, jitter and packet loss of every link (and may differ in
    bandwidth and cost) are captured as equal snapshots; the drift between
    the two snapshots is 0 when the tracked values are finite numbers, and
    otherwise 0 or a NaN (when some tracked value is infinite or a NaN);
    [optimize_paths] returns the same flag and leaves the same history on
    both; and with the one as baseline, a non-negative threshold never
    signals on the other. *)
Theorem tracked_metrics_noninterference (c1 c2 : SDWANController) :
  same_tracked (topology c1) (topology c2) ->
  _capture_state c1 = _capture_state c2 /\
  (forall s1 s2,
      _capture_state c1 = Ok s1 -> _capture_state c2 = Ok s2 ->
      exists d, _state_diff s1 s2 = Ok d /\
                (d = 0%float \/ is_nan d = true) /\
                (state_finite s1 = true -> d = 0%float)) /\
  (forall o th, optimize_paths o c1 th = optimize_paths o c2 th) /\
  (forall o th s1,
      last_item (history o) = Ok s1 -> _capture_state c1 = Ok s1 ->
      (0 <=? th)%float = true ->
      optimize_paths o c2 th = Ok (false, mkOptimizer (history o ++ [s1]))).
Proof.
  intros [E A].
  assert (C : _capture_state c1 = _capture_state c2).
  { unfold _capture_state. rewrite <- E. apply capture_loop_agree; exact A. }
  assert (ND : forall s, _capture_state c1 = Ok s -> NoDup (keys s)).
  { intros s Cs. unfold _capture_state in Cs.
    eapply capture_loop_NoDup; [|exact Cs]. constructor. }
  split; [exact C|]. split; [|split].
  - intros s1 s2 C1 C2.
    assert (s2 = s1) by (rewrite C in C1; congruence). subst s2.
    destruct (state_diff_self_cases s1 (ND s1 C1)) as (d & D & Z).
    exists d. split; [exact D|]. split; [apply zero_or_nan_is_nan; exact Z|].
    intros F. pose proof (state_diff_self s1 (ND s1 C1) F) as D0.
    rewrite D in D0.
    apply (f_equal (fun r => match r with Ok x => x | Raise _ => d end)) in D0. exact D0.
  - intros o th. unfold optimize_paths. rewrite C. reflexivity.
  - intros o th s1 L C1 T.
    rewrite (optimize_paths_warm o c2 th s1 L), <- C, C1. cbn [bind].
    destruct (state_diff_self_cases s1 (ND s1 C1)) as (d & D & Z).
    rewrite D. cbn [bind]. rewrite (ltb_zero_or_nan th d T Z). reflexivity.
Qed.

(** The scenario with bandwidth and cost of one link changed. *)
Definition demo_other_bandwidth : SDWANController :=
  match update_link_metrics demo_controller "HQ" "Branch1"
          [("bandwidth"%string, 10%float); ("cost"%string, 7%float)] with
  | Ok c => c
  | Raise _ => demo_controller
  end.

Lemma tracked_metrics_noninterference_witness :
  same_tracked (topology demo_controller) (topology demo_other_bandwidth) /\
  nx.edge_data (topology demo_controller) "HQ"%string "Branch1"%string
  <> nx.edge_data (topology demo_other_bandwidth) "HQ"%string "Branch1"%string /\
  _capture_state demo_controller = _capture_state demo_other_bandwidth.
Proof.
  assert (S : same_tracked (topology demo_controller) (topology demo_other_bandwidth)).
  { split; [vm_compute; reflexivity|].
    vm_compute. repeat constructor. }
  split; [exact S|]. split.
  - intros E.
    apply (f_equal (fun r => match r with
                             | Ok d => match get d "bandwidth"%string with
                                       | Some b => (b =? 10)%float
                                       | None => false
                                       end
                             | Raise _ => false
                             end)) in E.
    vm_compute in E. discriminate.
  - exact (proj1 (tracked_metrics_noninterference demo_controller demo_other_bandwidth S)).
Defined.

(** ** Aggregated path metrics *)

(** The metrics of one link, as [_get_path_metrics] reads them:
    [(latency, jitter, packet_loss, bandwidth)]. *)
Definition link_metrics : Type := (float * float * float * float)%type.

Definition lm_latency (e : link_metrics) : float := fst (fst (fst e)).
Definition lm_jitter (e : link_metrics) : float := snd (fst (fst e)).
Definition lm_packet_loss (e : link_metrics) : float := snd (fst e).
Definition lm_bandwidth (e : link_metrics) : float := snd e.

(** [links_along g path es]: consecutive nodes of [path] are linked in [g],
    and [es] lists the metrics of those links in path order. *)
Inductive links_along (g : nx.Graph) : list string -> list link_metrics -> Prop :=
| la_nil : links_along g [] []
| la_one (u : string) : links_along g [u] []
| la_cons (u v : string) (rest : list string) (d : nx.attrs) (l j p b : float)
    (es : list link_metrics) :
    nx.edge_data g u v = Ok d ->
    get d "latency"%string = Some l ->
    get d "jitter"%string = Some j ->
    get d "packet_loss"%string = Some p ->
    get d "bandwidth"%string = Some b ->
    links_along g (v :: rest) es ->
    links_along g (u :: v :: rest) ((l, j, p, b) :: es).

(** The aggregates, written as the spec states them: sums, the product of
    the delivery ratios, and the minimum, all taken in path order. *)
Definition sum_of (xs : list float) : float := fold_left PrimFloat.add xs 0%float.
Definition delivery_of (losses : list float) : float :=
  fold_left (fun acc p => acc * (1 - p / 100))%float losses 1%float.
Definition min_of (xs : list float) : float := fold_left py_min xs infinity.

Definition aggregate (es : list link_metrics) : PathMetrics :=
  mkPathMetrics (sum_of (map lm_latency es)) (sum_of (map lm_jitter es))
                ((1 - delivery_of (map lm_packet_loss es)) * 100)%float
                (min_of (map lm_bandwidth es)).

Definition path_step (acc : float * float * float * float) (e : link_metrics)
  : float * float * float * float :=
  let '(lat, jit, loss, bw) := acc in
  ((lat + lm_latency e)%float, (jit + lm_jitter e)%float,
   (loss * (1 - lm_packet_loss e / 100))%float, py_min bw (lm_bandwidth e)).

Lemma path_loop_cons (g : nx.Graph) (u v : string) (rest : list string)
  (acc : float * float * float * float) :
  path_loop g (u :: v :: rest) acc
  = (edge <- nx.edge_data g u v ;;
     el <- getitem edge "latency"%string ;;
     ej <- getitem edge "jitter"%string ;;
     ep <- getitem edge "packet_loss"%string ;;
     eb <- getitem edge "bandwidth"%string ;;
     path_loop g (v :: rest) (path_step acc (el, ej, ep, eb))).
Proof. destruct acc as [[[lat jit] loss] bw]. reflexivity. Qed.

Lemma path_loop_fold (g : nx.Graph) (p : list string) (es : list link_metrics) :
  links_along g p es ->
  forall acc, path_loop g p acc = Ok (fold_left path_step es acc).
Proof.
  induction 1 as [|u|u v rest d l j p b es Hd Hl Hj Hp Hb _ IH]; intros acc;
    try reflexivity.
  rewrite path_loop_cons, Hd. cbn [bind]. unfold getitem.
  rewrite Hl, Hj, Hp, Hb. cbn [bind]. rewrite IH. reflexivity.
Qed.

Lemma fold_path_step (es : list link_metrics) :
  forall lat jit loss bw,
    fold_left path_step es (lat, jit, loss, bw)
    = (fold_left PrimFloat.add (map lm_latency es) lat,
       fold_left PrimFloat.add (map lm_jitter es) jit,
       fold_left (fun acc p => acc * (1 - p / 100))%float (map lm_packet_loss es) loss,
       fold_left py_min (map lm_bandwidth es) bw).
Proof.
  induction es as [|e es IH]; intros; [reflexivity|].
  simpl. rewrite IH. reflexivity.
Qed.

Lemma get_path_metrics_aggregate (c : SDWANController) (p : list string)
  (es : list link_metrics) :
  links_along (topology c) p es -> _get_path_metrics c p = Ok (aggregate es).
Proof.
  intros L. unfold _get_path_metrics. rewrite (path_loop_fold _ _ _ L).
  rewrite fold_path_step. reflexivity.
Qed.

Lemma delivery_of_zero_loss (losses : list float) :
  Forall (fun p => (p =? 0)%float = true) losses -> delivery_of losses = 1%float.
Proof.
  unfold delivery_of. induction 1 as [|p losses Hp _ IH]; [reflexivity|].
  simpl. destruct (eqb_zero_cases p Hp) as [-> | ->]; exact IH.
Qed.

(** C8, as stated, fails on its last part: the link HQ--Branch1 of the
    scenario has loss 0.1, and the one-link path over it aggregates to
    0.10000000000000009, not to 0.1. *)
Lemma one_link_loss_not_exact :
  exists m,
    link_attr (topology demo_controller) "Branch1" "HQ" "packet_loss" = Ok 0.1%float /\
    _get_path_metrics demo_controller ["Branch1"%string; "HQ"%string] = Ok m /\
    pm_packet_loss m = 0.10000000000000009%float /\
    (pm_packet_loss m =? 0.1)%float = false.
Proof.
  destruct (_get_path_metrics demo_controller ["Branch1"%string; "HQ"%string])
    as [m|] eqn:E; vm_compute in E; [|discriminate].
  injection E as <-. eexists. split_compute.
Qed.

(** C8 (amended). Along a path of linked nodes the aggregated latency and
    jitter are the sums of the per-link values, the packet loss is
    (1 - prod (1 - loss/100)) * 100 and the bandwidth is the minimum of the
    per-link bandwidths, all computed in binary64 in path order.  Links
    that all have 0% loss aggregate to exactly 0.  A one-link path with loss
    L aggregates to the rounded value of (1 - 1 * (1 - L/100)) * 100, which is
    exactly L for L = 0, 50 and 100. *)
Theorem path_metrics_aggregate (c : SDWANController) (p : list string)
  (es : list link_metrics) :
  links_along (topology c) p es ->
  _get_path_metrics c p
  = Ok (mkPathMetrics (sum_of (map lm_latency es)) (sum_of (map lm_jitter es))
                      ((1 - delivery_of (map lm_packet_loss es)) * 100)%float
                      (min_of (map lm_bandwidth es))) /\
  (Forall (fun e => (lm_packet_loss e =? 0)%float = true) es ->
   exists m, _get_path_metrics c p = Ok m /\ pm_packet_loss m = 0%float) /\
  (forall l j L b, es = [(l, j, L, b)] ->
     exists m, _get_path_metrics c p = Ok m /\
               pm_packet_loss m = ((1 - 1 * (1 - L / 100)) * 100)%float) /\
  ((1 - 1 * (1 - 0 / 100)) * 100 = 0)%float /\
  ((1 - 1 * (1 - 50 / 100)) * 100 = 50)%float /\
  ((1 - 1 * (1 - 100 / 100)) * 100 = 100)%float.
Proof.
  intros L. pose proof (get_path_metrics_aggregate c p es L) as E.
  split; [exact E|]. split; [|split].
  - intros Z. eexists; split; [exact E|]. simpl.
    rewrite delivery_of_zero_loss; [reflexivity|].
    apply Forall_map. exact Z.
  - intros l j L0 b ->. eexists; split; [exact E|]. reflexivity.
  - split_compute.
Qed.

Lemma path_metrics_aggregate_witness :
  links_along (topology demo_controller)
    ["Branch2"%string; "Branch1"%string; "HQ"%string]
    [(20, 3, 0.05, 20)%float; (30, 5, 0.1, 50)%float] /\
  _get_path_metrics demo_controller ["Branch2"%string; "Branch1"%string; "HQ"%string]
  = Ok (mkPathMetrics 50 8 0.1499499999999987 20).
Proof.
  assert (L : links_along (topology demo_controller)
                ["Branch2"%string; "Branch1"%string; "HQ"%string]
                [(20, 3, 0.05, 20)%float; (30, 5, 0.1, 50)%float]).
  { eapply la_cons; [vm_compute; reflexivity|reflexivity..|].
    eapply la_cons; [vm_compute; reflexivity|reflexivity..|].
    apply la_one. }
  split; [exact L|].
  exact (proj1 (path_metrics_aggregate demo_controller _ _ L)).
Defined.

(** ** Well-formed graphs *)

(** The invariant of a [networkx.Graph]: keys are unique, every node has
    an adjacency dictionary and conversely, every neighbour entry holds a
    valid reference, and the reverse entry holds the same reference. *)
Fixpoint nodupb (l : list string) : bool :=
  match l with
  | [] => true
  | x :: t => negb (existsb (String.eqb x) t) && nodupb t
  end.

Definition wf_nbr (g : nx.Graph) (v : string) (wr : string * nat) : bool :=
  (snd wr <? List.length (nx._data g)) &&
  match get (nx._adj g) (fst wr) with
  | Some nb =>
      match get nb v with
      | Some r' => snd wr =? r'
      | None => false
      end
  | None => false
  end.

Definition wf_graph (g : nx.Graph) : bool :=
  nodupb (keys (nx._adj g)) &&
  forallb (fun vn => nodupb (keys (snd vn)) && forallb (wf_nbr g (fst vn)) (snd vn))
          (nx._adj g) &&
  forallb (mem (nx._adj g)) (keys (nx._node g)) &&
  forallb (mem (nx._node g)) (keys (nx._adj g)).

Lemma nodupb_NoDup (l : list string) : nodupb l = true -> NoDup l.
Proof.
  induction l as [|x t IH]; simpl; intros E; constructor.
  - apply andb_true_iff in E as [E _]. intros I.
    apply negb_true_iff in E.
    assert (existsb (String.eqb x) t = true); [|congruence].
    apply existsb_exists. exists x; split; auto. apply String.eqb_refl.
  - apply andb_true_iff in E as [_ E]. auto.
Qed.

Lemma NoDup_nodupb (l : list string) : NoDup l -> nodupb l = true.
Proof.
  induction 1 as [|x t NI _ IH]; simpl; auto.
  rewrite IH, andb_true_r. apply negb_true_iff.
  destruct (existsb (String.eqb x) t) eqn:E; auto.
  apply existsb_exists in E as (y & I & E). apply String.eqb_eq in E; subst.
  contradiction.
Qed.

Section WfFacts.
Variable g : nx.Graph.
Hypothesis WF : wf_graph g = true.

Lemma wf_adj_NoDup : NoDup (keys (nx._adj g)).
Proof.
  unfold wf_graph in WF. rewrite !andb_true_iff in WF.
  apply nodupb_NoDup. tauto.
Qed.

Lemma wf_has_node (n : string) : nx.has_node g n = mem (nx._adj g) n.
Proof.
  unfold wf_graph in WF. rewrite !andb_true_iff in WF.
  destruct WF as [[_ N1] N2]. rewrite forallb_forall in N1, N2.
  unfold nx.has_node.
  destruct (mem (nx._node g) n) eqn:E1, (mem (nx._adj g) n) eqn:E2; auto.
  - apply mem_In_keys in E1. apply N1 in E1. congruence.
  - apply mem_In_keys in E2. apply N2 in E2. congruence.
Qed.

Lemma wf_nbrs (v : string) (nbrs : dict string nat) :
  get (nx._adj g) v = Some nbrs ->
  NoDup (keys nbrs) /\
  forall w r, In (w, r) nbrs ->
    r < List.length (nx._data g) /\
    exists nb, get (nx._adj g) w = Some nb /\ get nb v = Some r.
Proof.
  intros G. unfold wf_graph in WF. rewrite !andb_true_iff in WF.
  destruct WF as [[[_ A] _] _]. rewrite forallb_forall in A.
  specialize (A (v, nbrs) (get_In _ _ _ G)). simpl in A.
  apply andb_true_iff in A as [A1 A2]. split; [apply nodupb_NoDup; exact A1|].
  intros w r I. rewrite forallb_forall in A2. specialize (A2 _ I).
  unfold wf_nbr in A2. simpl in A2. apply andb_true_iff in A2 as [L S].
  apply Nat.ltb_lt in L. split; [exact L|].
  destruct (get (nx._adj g) w) as [nb|] eqn:G1; [|discriminate].
  destruct (get nb v) as [r'|] eqn:G2; [|discriminate].
  apply Nat.eqb_eq in S; subst. eauto.
Qed.

(** Adjacency is symmetric and both directions share the attributes. *)
Lemma wf_edge_sym (u v : string) (nbrs : dict string nat) (r : nat) :
  get (nx._adj g) u = Some nbrs -> get nbrs v = Some r ->
  r < List.length (nx._data g) /\
  exists nb, get (nx._adj g) v = Some nb /\ get nb u = Some r.
Proof.
  intros G1 G2. destruct (wf_nbrs u nbrs G1) as [_ A].
  apply A. apply get_In. exact G2.
Qed.

Lemma wf_edge_data_sym (u v : string) (d : nx.attrs) :
  nx.edge_data g u v = Ok d -> nx.edge_data g v u = Ok d.
Proof.
  unfold nx.edge_data, nx.adj, getitem.
  destruct (get (nx._adj g) u) as [nbrs|] eqn:G1; [simpl|discriminate].
  destruct (get nbrs v) as [r|] eqn:G2; [simpl|discriminate].
  intros E. destruct (wf_edge_sym u v nbrs r G1 G2) as [_ (nb & G3 & G4)].
  rewrite G3. simpl. rewrite G4. simpl. exact E.
Qed.

End WfFacts.

(** ** Topology mutation *)

Lemma length_write {A : Type} (l : list A) (i : nat) (x : A) :
  List.length (write l i x) = List.length l.
Proof.
  revert i; induction l as [|h t IH]; intros [|i]; simpl; auto.
Qed.

Lemma nth_write_same {A : Type} (l : list A) (i : nat) (x dflt : A) :
  i < List.length l -> nth i (write l i x) dflt = x.
Proof.
  revert i; induction l as [|h t IH]; intros [|i]; simpl; intros L; auto; try lia.
  apply IH; lia.
Qed.

Lemma nth_write_other {A : Type} (l : list A) (i j : nat) (x dflt : A) :
  i <> j -> nth j (write l i x) dflt = nth j l dflt.
Proof.
  revert i j; induction l as [|h t IH]; intros [|i] [|j] N; simpl; auto; try lia.
Qed.

Lemma write_write {A : Type} (l : list A) (i : nat) (x y : A) :
  write (write l i x) i y = write l i y.
Proof.
  revert i; induction l as [|h t IH]; intros [|i]; simpl; auto.
  rewrite IH; reflexivity.
Qed.

Lemma update_cons {K V : Type} `{EqKey K} (d : dict K V) (k : K) (v : V)
  (kvs : list (K * V)) :
  update d ((k, v) :: kvs) = update (set d k v) kvs.
Proof. reflexivity. Qed.

Lemma get_update_other {K V : Type} `{EqKeyLaws K} (kvs : list (K * V)) :
  forall (d : dict K V) (k : K),
    ~ In k (keys kvs) -> get (update d kvs) k = get d k.
Proof.
  induction kvs as [|[k0 v0] kvs IH]; intros d k NI; [reflexivity|].
  rewrite update_cons, IH by (intros I; apply NI; right; exact I).
  apply get_set_other. intros ->. apply NI. left; reflexivity.
Qed.

Lemma get_update_In {K V : Type} `{EqKeyLaws K} (kvs : list (K * V)) :
  forall (d : dict K V) (k : K) (v : V),
    NoDup (keys kvs) -> In (k, v) kvs -> get (update d kvs) k = Some v.
Proof.
  induction kvs as [|[k0 v0] kvs IH]; intros d k v ND I; [destruct I|].
  simpl in ND. inversion ND as [|? ? NI ND']; subst. rewrite update_cons.
  destruct I as [E|I].
  - inversion E; subst. rewrite get_update_other by exact NI.
    apply get_set_same.
  - apply IH; assumption.
Qed.

(** Writing the metrics of a call one by one amounts to one [update] of
    the link's attribute dictionary; nothing else of the graph changes. *)
Lemma set_metrics_ok (metrics : list (string * float)) :
  forall (g : nx.Graph) (u v : string) (nbrs : dict string nat) (r : nat),
    get (nx._adj g) u = Some nbrs -> get nbrs v = Some r ->
    r < List.length (nx._data g) ->
    set_metrics g u v metrics
    = Ok (nx.mkGraph (nx._node g) (nx._adj g)
            (write (nx._data g) r (update (nx.deref g r) metrics))).
Proof.
  induction metrics as [|[k x] metrics IH]; intros g u v nbrs r G1 G2 L.
  - simpl. unfold nx.deref.
    replace (write (nx._data g) r (nth r (nx._data g) [])) with (nx._data g).
    + destruct g; reflexivity.
    + clear -L. revert r L. induction (nx._data g) as [|h t IHt]; intros [|r] L;
        simpl in *; try lia; auto. rewrite <- IHt by lia. reflexivity.
  - simpl. unfold nx.set_edge_attr, nx.adj, getitem. rewrite G1. simpl.
    rewrite G2. simpl.
    rewrite (IH _ u v nbrs r); simpl; auto.
    + unfold nx.deref; simpl. rewrite nth_write_same by exact L.
      rewrite write_write. reflexivity.
    + rewrite length_write. exact L.
Qed.

(** C3, as stated, fails on its first part: the scenario has no link
    between HQ and CloudGW, and [update_link_metrics] on that pair raises
    nothing; it returns with the controller unchanged. *)
Lemma update_missing_link_no_error :
  nx.has_edge (topology demo_controller) "HQ" "CloudGW" = false /\
  update_link_metrics demo_controller "HQ" "CloudGW" [("latency"%string, 5%float)]
  = Ok demo_controller.
Proof. split_compute. Qed.

(** C3 (amended). When there is no link between [a] and [b],
    [update_link_metrics] changes nothing and raises nothing.  When there
    is one, the call succeeds, and in the link's attributes (read in either
    direction) every supplied field holds the supplied value and every
    other field holds its previous value. *)
Theorem update_link_metrics_merges (c : SDWANController) (a b : string)
  (new_metrics : list (string * float)) :
  wf_graph (topology c) = true ->
  NoDup (keys new_metrics) ->
  (nx.has_edge (topology c) a b = false ->
   update_link_metrics c a b new_metrics = Ok c) /\
  (forall d, nx.edge_data (topology c) a b = Ok d ->
     exists c' d',
       update_link_metrics c a b new_metrics = Ok c' /\
       flows c' = flows c /\
       nx.edge_data (topology c') a b = Ok d' /\
       nx.edge_data (topology c') b a = Ok d' /\
       (forall k x, In (k, x) new_metrics -> get d' k = Some x) /\
       (forall k, ~ In k (keys new_metrics) -> get d' k = get d k)).
Proof.
  intros WF ND. split.
  - intros E. unfold update_link_metrics. rewrite E. reflexivity.
  - intros d E. unfold nx.edge_data, nx.adj, getitem in E.
    destruct (get (nx._adj (topology c)) a) as [nbrs|] eqn:G1; [simpl in E|discriminate].
    destruct (get nbrs b) as [r|] eqn:G2; [simpl in E|discriminate].
    injection E as <-.
    destruct (wf_edge_sym _ WF a b nbrs r G1 G2) as [L (nb & G3 & G4)].
    unfold update_link_metrics, nx.has_edge, mem. rewrite G1, G2.
    rewrite (set_metrics_ok new_metrics _ a b nbrs r G1 G2 L). simpl.
    eexists; eexists. split; [reflexivity|]. split; [reflexivity|].
    unfold nx.edge_data, nx.adj, getitem; simpl. rewrite G1, G3; simpl.
    rewrite G2, G4; simpl. unfold nx.deref at 1 3; simpl.
    rewrite nth_write_same by exact L.
    split; [reflexivity|]. split; [reflexivity|]. split.
    + intros k x I. apply get_update_In; assumption.
    + intros k NI. apply get_update_other; assumption.
Qed.

Lemma update_link_metrics_merges_witness :
  exists c',
    update_link_metrics demo_controller "Branch1" "HQ"
      [("latency"%string, 45%float); ("jitter"%string, 6%float)] = Ok c' /\
    link_attr (topology c') "HQ" "Branch1" "latency" = Ok 45%float /\
    link_attr (topology c') "HQ" "Branch1" "packet_loss" = Ok 0.1%float.
Proof.
  assert (WF : wf_graph (topology demo_controller) = true) by (vm_compute; reflexivity).
  assert (ND : NoDup (keys [("latency"%string, 45%float); ("jitter"%string, 6%float)])).
  { apply nodupb_NoDup. vm_compute; reflexivity. }
  destruct (nx.edge_data (topology demo_controller) "Branch1" "HQ") as [d|] eqn:E.
  - destruct (proj2 (update_link_metrics_merges demo_controller "Branch1" "HQ" _ WF ND) d E)
      as (c' & d' & U & _ & E1 & E2 & S & K).
    exists c'. split; [exact U|]. unfold link_attr. rewrite E2. simpl.
    unfold getitem. rewrite (S "latency"%string 45%float) by (left; reflexivity).
    rewrite (K "packet_loss"%string).
    + split; [reflexivity|]. vm_compute in E. injection E as <-. reflexivity.
    + simpl. intros [H|[H|[]]]; discriminate.
  - vm_compute in E. discriminate.
Defined.

Lemma ensure_node_has (g : nx.Graph) (u x : string) :
  nx.has_node g x = true \/ x = u -> nx.has_node (nx.ensure_node g u) x = true.
Proof.
  unfold nx.ensure_node, nx.has_node. destruct (mem (nx._node g) u) eqn:M; simpl.
  - intros [E| ->]; auto.
  - rewrite mem_set. intros [E| ->]; [rewrite E; apply orb_true_r|].
    rewrite keqb_refl; reflexivity.
Qed.

Lemma ensure_node_data (g : nx.Graph) (u : string) :
  nx._data (nx.ensure_node g u) = nx._data g.
Proof. unfold nx.ensure_node. destruct (mem (nx._node g) u); reflexivity. Qed.

(** Creating a missing endpoint keeps every reference valid. *)
Lemma ensure_node_refs (g : nx.Graph) (u : string) :
  (forall x nb w r, get (nx._adj g) x = Some nb -> get nb w = Some r ->
                    r < List.length (nx._data g)) ->
  forall x nb w r,
    get (nx._adj (nx.ensure_node g u)) x = Some nb -> get nb w = Some r ->
    r < List.length (nx._data (nx.ensure_node g u)).
Proof.
  intros V x nb w r. rewrite ensure_node_data. unfold nx.ensure_node.
  destruct (mem (nx._node g) u); simpl; [apply V|].
  rewrite get_set. destruct (keqb u x).
  - intros [= <-]. discriminate.
  - apply V.
Qed.

Lemma wf_refs_valid (g : nx.Graph) :
  wf_graph g = true ->
  forall x nb w r, get (nx._adj g) x = Some nb -> get nb w = Some r ->
                   r < List.length (nx._data g).
Proof. intros WF x nb w r G1 G2. apply (wf_edge_sym g WF x w nb r G1 G2). Qed.

(** The two adjacency writes of [add_edge] leave the reference [r] under
    both directions. *)
Lemma add_edge_adj (A : dict string (dict string nat)) (u v : string)
  (nbrs : dict string nat) (r : nat) :
  let adj1 := set A u (set nbrs v r) in
  let adj2 := set adj1 v (set (get_default adj1 v []) u r) in
  (exists nu, get adj2 u = Some nu /\ get nu v = Some r) /\
  (exists nv, get adj2 v = Some nv /\ get nv u = Some r).
Proof.
  intros adj1 adj2. split.
  - destruct (keqb_dec v u) as [->|N].
    + eexists. split; [apply get_set_same|apply get_set_same].
    + exists (set nbrs v r). split; [|apply get_set_same].
      unfold adj2. rewrite get_set_other by exact N. apply get_set_same.
  - eexists. split; [apply get_set_same|apply get_set_same].
Qed.

(** What [add_edge] establishes, given that the references of the graph
    are valid: both endpoints are nodes, and the link carries, in both
    directions, its previous attributes (none for a new link) updated
    with [attr]. *)
Lemma add_edge_link (g : nx.Graph) (u v : string) (attr : list (string * float)) :
  (forall x nb w r, get (nx._adj g) x = Some nb -> get nb w = Some r ->
                    r < List.length (nx._data g)) ->
  nx.has_node (nx.add_edge g u v attr) u = true /\
  nx.has_node (nx.add_edge g u v attr) v = true /\
  nx.edge_data (nx.add_edge g u v attr) u v
  = Ok (update match get (get_default (nx._adj (nx.ensure_node (nx.ensure_node g u) v)) u []) v
               with
               | Some r => nx.deref g r
               | None => []
               end attr) /\
  nx.edge_data (nx.add_edge g u v attr) v u = nx.edge_data (nx.add_edge g u v attr) u v.
Proof.
  intros V.
  pose proof (ensure_node_refs _ v (ensure_node_refs g u V)) as V1.
  unfold nx.add_edge.
  set (g1 := nx.ensure_node (nx.ensure_node g u) v) in *.
  assert (D1 : nx._data g1 = nx._data g).
  { unfold g1. rewrite !ensure_node_data. reflexivity. }
  assert (N : nx.has_node g1 u = true /\ nx.has_node g1 v = true).
  { unfold g1. split; apply ensure_node_has; auto.
    left. apply ensure_node_has; auto. }
  set (nbrs := get_default (nx._adj g1) u []) in *.
  assert (R : exists r data,
             match get nbrs v with
             | Some r => (r, nx._data g1)
             | None => (List.length (nx._data g1), nx._data g1 ++ [[]])
             end = (r, data) /\
             r < List.length data /\
             nth r data [] = match get nbrs v with
                             | Some r => nx.deref g r
                             | None => []
                             end).
  { destruct (get nbrs v) as [r|] eqn:G.
    - exists r, (nx._data g1). split; [reflexivity|]. split.
      + unfold nbrs, get_default in G.
        destruct (get (nx._adj g1) u) as [nb|] eqn:G1; [|discriminate].
        eapply V1; eauto.
      + unfold nx.deref. rewrite D1. reflexivity.
    - exists (List.length (nx._data g1)), (nx._data g1 ++ [[]]).
      split; [reflexivity|]. split; [rewrite length_app; simpl; lia|].
      rewrite app_nth2, Nat.sub_diag by lia. reflexivity. }
  destruct R as (r & data & -> & L & D).
  destruct (add_edge_adj (nx._adj g1) u v nbrs r) as [(nu & Gu & Gnu) (nv & Gv & Gnv)].
  split; [apply N|]. split; [apply N|].
  unfold nx.edge_data, nx.adj, getitem, nx.deref. cbn [nx._adj nx._data].
  rewrite Gu, Gv. cbn [bind]. rewrite Gnu, Gnv. cbn [bind].
  rewrite nth_write_same by exact L. rewrite D. auto.
Qed.

Lemma ensure_node_present (g : nx.Graph) (u : string) :
  nx.has_node g u = true -> nx.ensure_node g u = g.
Proof. unfold nx.ensure_node, nx.has_node. intros ->. reflexivity. Qed.

Lemma NetworkLink_dict_NoDup (link : NetworkLink) : NoDup (keys (NetworkLink_dict link)).
Proof. apply nodupb_NoDup. reflexivity. Qed.

(** C4, as stated, fails on both of its error cases: on the empty
    controller [add_link] with two unknown endpoints raises nothing and
    creates both nodes and the link; a second [add_link] on the same pair
    raises nothing either and overwrites the link's metrics. *)
Lemma add_link_raises_nothing :
  nx.has_node (topology SDWANController_init) "A" = false /\
  nx.has_node (topology SDWANController_init) "B" = false /\
  nx.has_node (topology (add_link SDWANController_init "A" "B"
                           (mkNetworkLink 30 5 0.1 50 1))) "A" = true /\
  nx.has_edge (topology (add_link SDWANController_init "A" "B"
                           (mkNetworkLink 30 5 0.1 50 1))) "A" "B" = true /\
  link_attr (topology (add_link (add_link SDWANController_init "A" "B"
                                   (mkNetworkLink 30 5 0.1 50 1))
                                "B" "A" (mkNetworkLink 1 2 3 4 5)))
            "A" "B" "latency" = Ok 1%float /\
  nx.edges (topology (add_link (add_link SDWANController_init "A" "B"
                                  (mkNetworkLink 30 5 0.1 50 1))
                               "B" "A" (mkNetworkLink 1 2 3 4 5)))
  = [("A"%string, "B"%string)].
Proof. split_compute. Qed.

(** C4 (amended). [add_link] never fails.  After [add_link(a, b, link)]
    both endpoints are nodes (a missing one is created), the flows are
    untouched, and there is a link between [a] and [b] whose five metric
    fields, read in either direction, hold [link]'s values; the other
    attributes of a link that existed before are kept. *)
Theorem add_link_creates_or_overwrites (c : SDWANController) (a b : string)
  (link : NetworkLink) :
  wf_graph (topology c) = true ->
  flows (add_link c a b link) = flows c /\
  nx.has_node (topology (add_link c a b link)) a = true /\
  nx.has_node (topology (add_link c a b link)) b = true /\
  (exists d,
      nx.edge_data (topology (add_link c a b link)) a b = Ok d /\
      nx.edge_data (topology (add_link c a b link)) b a = Ok d /\
      get d "latency"%string = Some (latency link) /\
      get d "jitter"%string = Some (jitter link) /\
      get d "packet_loss"%string = Some (packet_loss link) /\
      get d "bandwidth"%string = Some (bandwidth link) /\
      get d "cost"%string = Some (cost link) /\
      (forall old k, nx.edge_data (topology c) a b = Ok old ->
                     ~ In k (keys (NetworkLink_dict link)) -> get d k = get old k)).
Proof.
  intros WF. unfold add_link; cbn [flows topology].
  destruct (add_edge_link (topology c) a b (NetworkLink_dict link) (wf_refs_valid _ WF))
    as (Na & Nb & E1 & E2).
  split; [reflexivity|]. split; [exact Na|]. split; [exact Nb|].
  eexists. split; [exact E1|]. split; [rewrite E2; exact E1|].
  pose proof (NetworkLink_dict_NoDup link) as ND.
  repeat (split; [apply get_update_In; [exact ND|simpl; tauto]|]).
  intros old k E NI. rewrite get_update_other by exact NI.
  unfold nx.edge_data, nx.adj, getitem in E.
  destruct (get (nx._adj (topology c)) a) as [nbrs|] eqn:G1; [simpl in E|discriminate].
  destruct (get nbrs b) as [r|] eqn:G2; [simpl in E|discriminate].
  injection E as <-.
  destruct (wf_edge_sym _ WF a b nbrs r G1 G2) as [_ (nb & G3 & _)].
  assert (Ha : nx.has_node (topology c) a = true).
  { rewrite (wf_has_node _ WF). unfold mem. rewrite G1. reflexivity. }
  assert (Hb : nx.has_node (topology c) b = true).
  { rewrite (wf_has_node _ WF). unfold mem. rewrite G3. reflexivity. }
  rewrite (ensure_node_present _ a Ha), (ensure_node_present _ b Hb).
  unfold get_default. rewrite G1, G2. reflexivity.
Qed.

Lemma add_link_creates_or_overwrites_witness :
  nx.has_node (topology (add_link demo_controller "HQ" "Edge9"
                           (mkNetworkLink 11 2 0.5 75 4))) "Edge9" = true /\
  nx.has_node (topology demo_controller) "Edge9" = false.
Proof.
  assert (WF : wf_graph (topology demo_controller) = true) by (vm_compute; reflexivity).
  split; [|vm_compute; reflexivity].
  exact (proj1 (proj2 (proj2 (add_link_creates_or_overwrites demo_controller "HQ" "Edge9"
                                (mkNetworkLink 11 2 0.5 75 4) WF)))).
Defined.

(** ** Evaluating all flows *)

(** The body of the loop of [simulate_traffic], for one flow. *)
Definition evaluate_flow (c : SDWANController) (flow_id : string) (flow : TrafficFlow)
  : result PathResult :=
  p <- calculate_best_path c flow_id ;;
  path_metrics <- _get_path_metrics c p ;;
  s <- _calculate_path_score path_metrics flow ;;
  Ok (mkPathResult p path_metrics s).

Lemma simulate_loop_cons (c : SDWANController) (flow_id : string) (flow : TrafficFlow)
  (rest : list (string * TrafficFlow)) (acc : dict string PathResult) :
  simulate_loop c ((flow_id, flow) :: rest) acc
  = (r <- evaluate_flow c flow_id flow ;; simulate_loop c rest (set acc flow_id r)).
Proof.
  unfold evaluate_flow. simpl.
  destruct (calculate_best_path c flow_id) as [p|]; simpl; auto.
  destruct (_get_path_metrics c p) as [m|]; simpl; auto.
  destruct (_calculate_path_score m flow); reflexivity.
Qed.

Lemma simulate_loop_ok (c : SDWANController) (items : list (string * TrafficFlow)) :
  forall acc results,
    NoDup (keys items) ->
    simulate_loop c items acc = Ok results ->
    (forall flow_id flow, In (flow_id, flow) items ->
       exists r, evaluate_flow c flow_id flow = Ok r /\ get results flow_id = Some r) /\
    (forall k, ~ In k (keys items) -> get results k = get acc k).
Proof.
  induction items as [|[i f] items IH]; intros acc results ND E.
  - injection E as <-. split; [intros ? ? []|reflexivity].
  - rewrite simulate_loop_cons in E.
    destruct (evaluate_flow c i f) as [r|] eqn:Ev; [simpl in E|discriminate].
    simpl in ND. inversion ND as [|? ? NI ND']; subst.
    destruct (IH _ _ ND' E) as [A B]. split.
    + intros flow_id flow [X|I].
      * inversion X; subst. exists r. split; [exact Ev|].
        rewrite B by exact NI. apply get_set_same.
      * apply A; exact I.
    + intros k NK. rewrite B by (intros I; apply NK; right; exact I).
      apply get_set_other. intros ->. apply NK. left; reflexivity.
Qed.

Lemma simulate_loop_fail (c : SDWANController) (pre : list (string * TrafficFlow)) :
  forall flow_id flow post e acc,
    Forall (fun kv => exists r, evaluate_flow c (fst kv) (snd kv) = Ok r) pre ->
    evaluate_flow c flow_id flow = Raise e ->
    simulate_loop c (pre ++ (flow_id, flow) :: post) acc = Raise e.
Proof.
  induction pre as [|[i f] pre IH]; intros flow_id flow post e acc F Ev.
  - simpl app. rewrite simulate_loop_cons, Ev. reflexivity.
  - inversion F as [|? ? [r Hr] F']; subst. simpl in Hr.
    simpl app. rewrite simulate_loop_cons, Hr. simpl. apply IH; assumption.
Qed.

Lemma simulate_loop_total (c : SDWANController) (items : list (string * TrafficFlow)) :
  Forall (fun kv => exists r, evaluate_flow c (fst kv) (snd kv) = Ok r) items ->
  forall acc, exists results, simulate_loop c items acc = Ok results.
Proof.
  induction 1 as [|[i f] items [r Hr] _ IH]; intros acc.
  - exists acc; reflexivity.
  - rewrite simulate_loop_cons. simpl in Hr. rewrite Hr. simpl. apply IH.
Qed.

(** The scenario with an isolated site and a flow towards it, registered
    after the three flows of the scenario. *)
Definition demo_with_island : SDWANController :=
  add_traffic_flow (add_node demo_controller "Island" "cpe")
                   "iso" (mkTrafficFlow "Branch1" "Island" 1 3 "latency").

(** C1, as stated, fails: with one flow whose destination is unreachable
    registered beside the three flows of the scenario, each of the three
    still has a path of its own, but [simulate_traffic] raises the failure
    of the fourth and returns no mapping at all. *)
Lemma one_unreachable_flow_aborts_all :
  calculate_best_path demo_with_island "iso" = Raise NetworkXNoPath /\
  (exists r, evaluate_flow demo_with_island "voip1"
               (mkTrafficFlow "Branch1" "HQ" 0.5 1 "latency") = Ok r) /\
  (exists r, evaluate_flow demo_with_island "backup1"
               (mkTrafficFlow "Branch1" "CloudGW" 20 4 "throughput") = Ok r) /\
  (exists r, evaluate_flow demo_with_island "video1"
               (mkTrafficFlow "Branch2" "HQ" 5 2 "reliability") = Ok r) /\
  simulate_traffic demo_with_island = Raise NetworkXNoPath.
Proof.
  split; [vm_compute; reflexivity|].
  split; [eexists; vm_compute; reflexivity|].
  split; [eexists; vm_compute; reflexivity|].
  split; [eexists; vm_compute; reflexivity|].
  vm_compute; reflexivity.
Qed.

(** C1 (amended). [simulate_traffic] returns a mapping exactly when the
    evaluation of every registered flow succeeds, and the mapping then
    holds each flow's result.  A flow whose evaluation fails is not
    reported as an entry: the first such flow, in registration order, makes
    the whole call raise that flow's exception, and no result of any other
    flow is returned. *)
Theorem simulate_traffic_all_or_nothing (c : SDWANController) :
  NoDup (keys (flows c)) ->
  (forall results, simulate_traffic c = Ok results ->
     forall flow_id flow, In (flow_id, flow) (flows c) ->
       exists r, evaluate_flow c flow_id flow = Ok r /\ get results flow_id = Some r) /\
  (Forall (fun kv => exists r, evaluate_flow c (fst kv) (snd kv) = Ok r) (flows c) ->
   exists results, simulate_traffic c = Ok results) /\
  (forall pre flow_id flow post e,
     flows c = pre ++ (flow_id, flow) :: post ->
     Forall (fun kv => exists r, evaluate_flow c (fst kv) (snd kv) = Ok r) pre ->
     evaluate_flow c flow_id flow = Raise e ->
     simulate_traffic c = Raise e).
Proof.
  intros ND. unfold simulate_traffic. split; [|split].
  - intros results E. apply (simulate_loop_ok c (flows c) [] results ND E).
  - intros F. apply simulate_loop_total; exact F.
  - intros pre flow_id flow post e -> F Ev. apply simulate_loop_fail; assumption.
Qed.

Lemma simulate_traffic_all_or_nothing_witness :
  NoDup (keys (flows demo_controller)) /\
  exists results, simulate_traffic demo_controller = Ok results.
Proof.
  assert (ND : NoDup (keys (flows demo_controller))).
  { apply nodupb_NoDup. vm_compute; reflexivity. }
  split; [exact ND|].
  apply (proj1 (proj2 (simulate_traffic_all_or_nothing demo_controller ND))).
  repeat constructor; eexists; vm_compute; reflexivity.
Defined.

(** ** The order of binary64 floats, and addition on non-negative floats *)

Section SFOrder.

(** Non-negative specification floats (no NaN). *)
Definition SFnn (x : spec_float) : Prop :=
  match x with
  | S754_zero _ => True
  | S754_infinity s => s = false
  | S754_nan => False
  | S754_finite s _ _ => s = false
  end.

Lemma SFnn_leb_zero (x : spec_float) : SFleb (S754_zero false) x = true <-> SFnn x.
Proof.
  destruct x as [s|[]| |[] m e]; simpl; unfold SFleb; simpl; intuition congruence.
Qed.

Lemma fin_cmp_le (e1 e2 : Z) (m1 m2 : positive) :
  match (match (e1 ?= e2)%Z with Lt => Lt | Gt => Gt | Eq => Pos.compare_cont Eq m1 m2 end) with
  | Lt | Eq => true | Gt => false end = true
  <-> (e1 < e2 \/ (e1 = e2 /\ (m1 <= m2)%positive))%Z.
Proof.
  change (Pos.compare_cont Eq m1 m2) with (m1 ?= m2)%positive.
  destruct (Z.compare_spec e1 e2); destruct (Pos.compare_spec m1 m2); split; intros; try lia; try reflexivity; try discriminate.
Qed.

Lemma SFleb_nn_trans (x y z : spec_float) :
  SFnn x -> SFnn y -> SFnn z -> SFleb x y = true -> SFleb y z = true -> SFleb x z = true.
Proof.
  destruct x as [sx|sx| |sx mx ex], y as [sy|sy| |sy my ey], z as [sz|sz| |sz mz ez];
    simpl; intros; subst; try contradiction; try reflexivity; try discriminate.
  unfold SFleb, SFcompare in *.
  rewrite fin_cmp_le in *. lia.
Qed.

Lemma SFleb_nn_refl (x : spec_float) : SFnn x -> SFleb x x = true.
Proof.
  destruct x as [sx|sx| |sx mx ex]; simpl; intros; subst; try contradiction; try reflexivity.
  unfold SFleb, SFcompare. rewrite fin_cmp_le. lia.
Qed.

Lemma SFltb_false_leb (x y : spec_float) :
  SFnn x -> SFnn y -> SFltb x y = false -> SFleb y x = true.
Proof.
  destruct x as [sx|sx| |sx mx ex], y as [sy|sy| |sy my ey];
    simpl; intros; subst; try contradiction; try reflexivity; try discriminate.
  unfold SFleb, SFltb, SFcompare in *.
  rewrite fin_cmp_le.
  change (Pos.compare_cont Eq mx my) with (mx ?= my)%positive in *.
  destruct (Z.compare_spec ex ey); destruct (Pos.compare_spec mx my); try discriminate; lia.
Qed.

Lemma SFleb_not_ltb (x y : spec_float) : SFleb x y = true -> SFltb y x = false.
Proof.
  destruct x as [sx|sx| |sx mx ex], y as [sy|sy| |sy my ey];
    unfold SFleb, SFltb; simpl; try destruct sx; try destruct sy; simpl;
      intros; try reflexivity; try discriminate.
  - change (Pos.compare_cont Eq mx my) with (mx ?= my)%positive in *.
    change (Pos.compare_cont Eq my mx) with (my ?= mx)%positive in *.
    rewrite (Z.compare_antisym ex ey), (Pos.compare_antisym mx my).
    destruct (ex ?= ey)%Z; simpl in *; try discriminate; auto.
    destruct (mx ?= my)%positive; simpl in *; try discriminate; auto.
  - change (Pos.compare_cont Eq mx my) with (mx ?= my)%positive in *.
    change (Pos.compare_cont Eq my mx) with (my ?= mx)%positive in *.
    rewrite (Z.compare_antisym ex ey), (Pos.compare_antisym mx my).
    destruct (ex ?= ey)%Z; simpl in *; try discriminate; auto.
    destruct (mx ?= my)%positive; simpl in *; try discriminate; auto.
Qed.

Lemma SFeqb_leb (x y : spec_float) : SFeqb x y = true -> SFleb x y = true.
Proof. unfold SFeqb, SFleb. destruct (SFcompare x y) as [[]|]; auto. Qed.

End SFOrder.

Section Rounding.
Local Open Scope Z_scope.

Lemma digits2_pos_size (p : positive) : digits2_pos p = Pos.size p.
Proof. induction p; simpl; congruence. Qed.

Lemma digits2_bounds (p : positive) :
  2 ^ (Zpos (digits2_pos p) - 1) <= Zpos p < 2 ^ Zpos (digits2_pos p).
Proof.
  rewrite digits2_pos_size. split.
  - pose proof (Pos.size_le p) as H.
    assert (2 ^ Zpos (Pos.size p) <= 2 * Zpos p).
    { rewrite <- Pos2Z.inj_pow. change (2 * Zpos p) with (Zpos p~0). exact H. }
    replace (Zpos (Pos.size p)) with (Z.succ (Zpos (Pos.size p) - 1)) in H0 by lia.
    rewrite Z.pow_succ_r in H0 by lia. lia.
  - pose proof (Pos.size_gt p) as H. rewrite <- Pos2Z.inj_pow. exact H.
Qed.

Lemma shr_1_m (mrs : shr_record) :
  0 <= shr_m mrs -> shr_m (shr_1 mrs) = shr_m mrs / 2.
Proof.
  destruct mrs as [m r s]. cbn [shr_m shr_1].
  destruct m as [|[p|p|]|p]; cbn [shr_m]; intros H; try lia; try reflexivity.
  - apply Z.div_unique with 1; lia.
  - apply Z.div_unique with 0; lia.
Qed.

Lemma shr_m_iter (p : positive) :
  forall mrs, 0 <= shr_m mrs ->
    shr_m (iter_pos shr_1 p mrs) = shr_m mrs / 2 ^ Zpos p.
Proof.
  induction p as [p IH|p IH|]; intros mrs H; simpl iter_pos.
  - assert (H1 : 0 <= shr_m (shr_1 mrs)).
    { rewrite shr_1_m by exact H. apply Z.div_pos; lia. }
    assert (H2 : 0 <= shr_m (iter_pos shr_1 p (shr_1 mrs))).
    { rewrite IH by exact H1. apply Z.div_pos; [exact H1|]. apply Z.pow_pos_nonneg; lia. }
    rewrite IH, IH, shr_1_m by assumption.
    rewrite !Z.div_div by (try apply Z.pow_pos_nonneg; lia).
    f_equal.
    replace (Zpos p~1) with (1 + Zpos p + Zpos p) by lia.
    rewrite !Z.pow_add_r by lia. lia.
  - assert (H2 : 0 <= shr_m (iter_pos shr_1 p mrs)).
    { rewrite IH by exact H. apply Z.div_pos; [exact H|]. apply Z.pow_pos_nonneg; lia. }
    rewrite IH, IH by assumption.
    rewrite !Z.div_div by (try apply Z.pow_pos_nonneg; lia).
    f_equal.
    replace (Zpos p~0) with (Zpos p + Zpos p) by lia.
    rewrite !Z.pow_add_r by lia. lia.
  - rewrite shr_1_m by exact H. reflexivity.
Qed.

Lemma shr_spec (mrs : shr_record) (e n : Z) :
  0 <= shr_m mrs ->
  snd (shr mrs e n) = e + Z.max 0 n /\
  shr_m (fst (shr mrs e n)) = shr_m mrs / 2 ^ Z.max 0 n.
Proof.
  intros H. destruct n as [|p|p]; simpl.
  - rewrite Z.add_0_r, Z.div_1_r. auto.
  - split; [reflexivity|]. apply shr_m_iter; exact H.
  - rewrite Z.add_0_r, Z.div_1_r. auto.
Qed.

Lemma round_nearest_even_ge (m : Z) (l : location) : m <= round_nearest_even m l.
Proof.
  unfold round_nearest_even. destruct l as [|[]]; try lia.
  destruct (Z.even m); lia.
Qed.

Lemma iter_double (z : Z) (p : positive) :
  Pos.iter (fun y => 2 * y) z p = z * 2 ^ Zpos p.
Proof.
  induction p using Pos.peano_ind.
  - cbn [Pos.iter]. rewrite Z.pow_1_r. lia.
  - rewrite Pos.iter_succ, Pos2Z.inj_succ, Z.pow_succ_r, IHp by lia. lia.
Qed.

Lemma shl_align_val (mx : positive) (ex ez : Z) :
  ez <= ex -> Zpos (fst (shl_align mx ex ez)) = Zpos mx * 2 ^ (ex - ez).
Proof.
  intros H. unfold shl_align. destruct (ez - ex) as [|p|p] eqn:E; cbn [fst].
  - replace (ex - ez) with 0 by lia. rewrite Z.pow_0_r. lia.
  - lia.
  - replace (ex - ez) with (Zpos p) by lia.
    rewrite Pos.iter_swap_gen with (f := Zpos) (h := fun z => 2 * z) by reflexivity.
    apply iter_double.
Qed.

Lemma pow2_div_pos (m n : Z) : 0 <= n -> 2 ^ n <= m -> 1 <= m / 2 ^ n.
Proof.
  intros Hn H. apply Z.div_le_lower_bound; [apply Z.pow_pos_nonneg; lia|lia].
Qed.

Lemma pow2_le (a b : Z) : 0 <= a <= b -> 2 ^ a <= 2 ^ b.
Proof. intros H. apply Z.pow_le_mono_r; lia. Qed.

Lemma Zdigits2_bounds (m : Z) :
  1 <= m -> 1 <= Zdigits2 m /\ 2 ^ (Zdigits2 m - 1) <= m < 2 ^ Zdigits2 m.
Proof.
  destruct m as [|p|p]; try lia. intros _. simpl Zdigits2.
  split; [lia|apply digits2_bounds].
Qed.

(** Rounding a positive integer mantissa [M] at exponent [ez] does not
    go below a canonical float that [M * 2^ez] dominates. *)
Lemma binary_round_ge (M mx : positive) (ez ex : Z) :
  bounded prec emax mx ex = true ->
  emin <= ez <= ex ->
  Zpos mx * 2 ^ (ex - ez) <= Zpos M ->
  SFleb (S754_finite false mx ex) (binary_round prec emax false M ez) = true.
Proof.
  unfold bounded, canonical_mantissa. intros B Hez HM.
  apply andb_true_iff in B as [Hc Hb]. apply Z.eqb_eq in Hc. apply Z.leb_le in Hb.
  pose proof (digits2_bounds M) as [BM1 BM2].
  pose proof (digits2_bounds mx) as [Bx1 Bx2].
  set (dM := Zpos (digits2_pos M)) in *. set (dx := Zpos (digits2_pos mx)) in *.
  assert (HdM : 1 <= dM) by (unfold dM; lia).
  assert (Hdx : 1 <= dx) by (unfold dx; lia).
  assert (Hd : dx + ex <= dM + ez).
  { assert (P : 2 ^ (dx - 1 + (ex - ez)) < 2 ^ dM).
    { rewrite Z.pow_add_r by lia.
      apply Z.le_lt_trans with (Zpos M); [|exact BM2].
      apply Z.le_trans with (Zpos mx * 2 ^ (ex - ez)); [|exact HM].
      apply Z.mul_le_mono_nonneg_r; [apply Z.pow_nonneg; lia|exact Bx1]. }
    apply Z.pow_lt_mono_r_iff in P; lia. }
  unfold binary_round.
  fold dM. set (E := fexp prec emax (dM + ez)).
  assert (HE : ex <= E /\ emin <= E /\ (E = dM + ez - prec \/ E = emin)).
  { unfold E, fexp in *. unfold prec, emax, SpecFloat.emin in *. lia. }
  destruct HE as (HE1 & HE2 & HE3).
  assert (SA : shl_align M ez E = (M, ez)).
  { unfold shl_align. destruct (E - ez) eqn:X; try reflexivity. lia. }
  rewrite SA. unfold binary_round_aux, shr_fexp.
  simpl (Zdigits2 (Zpos M)). fold dM. fold E.
  pose proof (shr_spec (shr_record_of_loc (Zpos M) loc_Exact) ez (E - ez)) as S1.
  destruct (shr (shr_record_of_loc (Zpos M) loc_Exact) ez (E - ez)) as [mrs1 e1].
  cbn [fst snd shr_record_of_loc shr_m] in S1.
  destruct S1 as [-> S1]; [lia|].
  assert (He1 : ez + Z.max 0 (E - ez) = E) by lia. rewrite He1.
  set (m1 := shr_m mrs1) in *.
  assert (Hm1 : 1 <= m1).
  { rewrite S1. apply pow2_div_pos; [lia|].
    apply Z.le_trans with (2 ^ (dM - 1)); [|exact BM1].
    apply pow2_le. unfold prec, emax, SpecFloat.emin in *. lia. }
  set (m2 := round_nearest_even m1 (loc_of_shr_record mrs1)).
  assert (Hm2 : m1 <= m2) by apply round_nearest_even_ge.
  pose proof (Zdigits2_bounds m2 ltac:(lia)) as (Hd2 & B21 & B22).
  set (n2 := fexp prec emax (Zdigits2 m2 + E) - E) in *.
  assert (Hn2 : Z.max 0 n2 <= Zdigits2 m2 - 1).
  { unfold n2, fexp. unfold prec, emax, SpecFloat.emin in *. lia. }
  pose proof (shr_spec (shr_record_of_loc m2 loc_Exact) E n2) as S2.
  destruct (shr (shr_record_of_loc m2 loc_Exact) E n2) as [mrs2 e2].
  cbn [fst snd shr_record_of_loc shr_m] in S2.
  destruct S2 as [-> S2]; [lia|].
  assert (Hm3 : 1 <= shr_m mrs2).
  { rewrite S2. apply pow2_div_pos; [lia|].
    apply Z.le_trans with (2 ^ (Zdigits2 m2 - 1)); [|exact B21].
    apply pow2_le. lia. }
  destruct (shr_m mrs2) as [|q3|q3] eqn:Q; try lia.
  destruct (E + Z.max 0 n2 <=? emax - prec); [|reflexivity].
  unfold SFleb, SFcompare. rewrite fin_cmp_le.
  destruct (Z.eq_dec (E + Z.max 0 n2) ex) as [X|X]; [right|left; lia].
  split; [lia|].
  assert (Z.max 0 n2 = 0 /\ E = ex) as [Z1 Z2] by lia.
  rewrite Z1, Z.pow_0_r, Z.div_1_r in S2.
  assert (Zpos mx <= m1); [|lia].
  rewrite S1. apply Z.div_le_lower_bound; [apply Z.pow_pos_nonneg; lia|].
  replace (Z.max 0 (E - ez)) with (ex - ez) by lia. lia.
Qed.

End Rounding.

Section SFArith.
Local Open Scope Z_scope.

Lemma valid_emin (m : positive) (e : Z) : bounded prec emax m e = true -> emin <= e.
Proof.
  unfold bounded, canonical_mantissa, fexp. intros B.
  apply andb_true_iff in B as [Hc _]. apply Z.eqb_eq in Hc.
  unfold prec, emax, SpecFloat.emin in *. lia.
Qed.

Lemma SFleb_fin_nn (m : positive) (e : Z) (r : spec_float) :
  SFleb (S754_finite false m e) r = true -> SFnn r.
Proof. destruct r as [s|[]| |[] m' e']; simpl; auto; discriminate. Qed.

(** Adding a non-negative float never decreases a non-negative float. *)
Lemma SFadd_nn_ge (x y : spec_float) :
  valid_binary x = true -> valid_binary y = true -> SFnn x -> SFnn y ->
  SFleb x (SF64add x y) = true /\ SFnn (SF64add x y).
Proof.
  destruct x as [sx|sx| |sx mx ex], y as [sy|sy| |sy my ey]; simpl;
    intros Vx Vy Nx Ny; subst; try contradiction;
    try (split; [reflexivity|exact I]); try (split; reflexivity).
  - destruct sx, sy; split; reflexivity || exact I.
  - split; [|reflexivity]. unfold SFleb, SFcompare. rewrite fin_cmp_le. lia.
  - assert (G : SFleb (S754_finite false mx ex)
                      (SF64add (S754_finite false mx ex) (S754_finite false my ey)) = true).
    { unfold SF64add, SFadd. cbn [cond_Zopp]. rewrite <- Pos2Z.inj_add.
      cbn [binary_normalize]. apply binary_round_ge; auto.
      - pose proof (valid_emin _ _ Vx). pose proof (valid_emin _ _ Vy). lia.
      - rewrite Pos2Z.inj_add, <- shl_align_val by lia. lia. }
    split; [exact G|]. eapply SFleb_fin_nn; exact G.
Qed.

Lemma binary_round_aux_nn (m e : Z) (l : location) :
  0 <= m -> SFnn (binary_round_aux prec emax false m e l).
Proof.
  intros Hm. unfold binary_round_aux, shr_fexp.
  pose proof (shr_spec (shr_record_of_loc m l) e
                (fexp prec emax (Zdigits2 m + e) - e)) as S1.
  destruct (shr (shr_record_of_loc m l) e (fexp prec emax (Zdigits2 m + e) - e))
    as [mrs1 e1].
  assert (M0 : shr_m (shr_record_of_loc m l) = m) by (destruct l as [|[]]; reflexivity).
  rewrite M0 in S1. destruct S1 as [_ S1]; [exact Hm|]. cbn [fst] in S1.
  assert (H1 : 0 <= shr_m mrs1).
  { rewrite S1. apply Z.div_pos; [exact Hm|apply Z.pow_pos_nonneg; lia]. }
  pose proof (round_nearest_even_ge (shr_m mrs1) (loc_of_shr_record mrs1)) as H2.
  set (m2 := round_nearest_even (shr_m mrs1) (loc_of_shr_record mrs1)) in *.
  pose proof (shr_spec (shr_record_of_loc m2 loc_Exact) e1
                (fexp prec emax (Zdigits2 m2 + e1) - e1)) as S2.
  destruct (shr (shr_record_of_loc m2 loc_Exact) e1
                (fexp prec emax (Zdigits2 m2 + e1) - e1)) as [mrs2 e2].
  cbn [fst snd shr_record_of_loc shr_m] in S2. destruct S2 as [_ S2]; [lia|].
  assert (H3 : 0 <= shr_m mrs2).
  { rewrite S2. apply Z.div_pos; [lia|apply Z.pow_pos_nonneg; lia]. }
  destruct (shr_m mrs2); try lia; [exact I|].
  destruct (e2 <=? emax - prec); reflexivity.
Qed.

Lemma SFmul_nn_fin (x : spec_float) (m : positive) (e : Z) :
  SFnn x -> SFnn (SF64mul x (S754_finite false m e)).
Proof.
  destruct x as [sx|sx| |sx mx ex]; simpl; intros N; subst; try contradiction; auto.
  apply binary_round_aux_nn. lia.
Qed.

Lemma SFdiv_fin_pos (m : positive) (e : Z) (y : spec_float) :
  SFltb (S754_zero false) y = true -> SFnn (SF64div (S754_finite false m e) y).
Proof.
  destruct y as [sy|[]| |[] my ey]; simpl; try discriminate; intros _; auto.
  unfold SFdiv_core_binary.
  set (m' := match _ with Z0 => _ | Zpos _ => _ | Zneg _ => _ end).
  assert (Hm' : 0 <= m').
  { unfold m'. destruct (_ - _ - _); try lia. apply Z.shiftl_nonneg. lia. }
  pose proof (Z_div_mod m' (Zpos my) ltac:(lia)) as D.
  destruct (Z.div_eucl m' (Zpos my)) as [q r]. destruct D as [D1 D2].
  apply binary_round_aux_nn. nia.
Qed.

End SFArith.

Section FloatOrder.
Local Open Scope float_scope.

(** A non-negative float: not a NaN and not below zero. *)
Definition nonneg (x : float) : Prop := (0 <=? x) = true.

Lemma nonneg_SF (x : float) : nonneg x <-> SFnn (Prim2SF x).
Proof. unfold nonneg. rewrite leb_spec. apply SFnn_leb_zero. Qed.

Lemma nonneg_zero : nonneg 0.
Proof. reflexivity. Qed.

Lemma leb_refl (x : float) : nonneg x -> (x <=? x) = true.
Proof. rewrite nonneg_SF, leb_spec. apply SFleb_nn_refl. Qed.

Lemma leb_trans (x y z : float) :
  nonneg x -> nonneg y -> nonneg z ->
  (x <=? y) = true -> (y <=? z) = true -> (x <=? z) = true.
Proof. rewrite !nonneg_SF, !leb_spec. apply SFleb_nn_trans. Qed.

Lemma ltb_false_leb (x y : float) :
  nonneg x -> nonneg y -> (x <? y) = false -> (y <=? x) = true.
Proof. rewrite !nonneg_SF, leb_spec, ltb_spec. apply SFltb_false_leb. Qed.

Lemma leb_not_ltb (x y : float) : (x <=? y) = true -> (y <? x) = false.
Proof. rewrite leb_spec, ltb_spec. apply SFleb_not_ltb. Qed.

Lemma eqb_leb (x y : float) : (x =? y) = true -> (x <=? y) = true.
Proof. rewrite eqb_spec, leb_spec. apply SFeqb_leb. Qed.

Lemma add_nonneg_ge (x y : float) :
  nonneg x -> nonneg y -> (x <=? x + y) = true /\ nonneg (x + y).
Proof.
  rewrite !nonneg_SF, leb_spec, add_spec. intros Nx Ny.
  apply SFadd_nn_ge; auto using Prim2SF_valid.
Qed.

Lemma mul_tenth_nonneg (x : float) : nonneg x -> nonneg (x * 0.1).
Proof.
  rewrite !nonneg_SF, mul_spec. intros N.
  change (Prim2SF 0.1) with (S754_finite false 7205759403792794 (-56)).
  apply SFmul_nn_fin; exact N.
Qed.

Lemma one_div_pos_nonneg (b : float) : (0 <? b) = true -> nonneg (1 / b).
Proof.
  rewrite nonneg_SF, ltb_spec, div_spec.
  change (Prim2SF 0) with (S754_zero false).
  change (Prim2SF 1) with (S754_finite false 4503599627370496 (-52)).
  apply SFdiv_fin_pos.
Qed.

Lemma pos_not_zero (b : float) : (0 <? b) = true -> (b =? 0) = false.
Proof.
  rewrite ltb_spec, eqb_spec. change (Prim2SF 0) with (S754_zero false).
  destruct (Prim2SF b) as [s|[]| |[] m e]; simpl; auto; discriminate.
Qed.

End FloatOrder.

(** ** Connectivity *)

(** [reach g s t]: [t] is connected to [s] by links of [g]. *)
Inductive reach (g : nx.Graph) (s : string) : string -> Prop :=
| reach_refl : reach g s s
| reach_step (u v : string) :
    reach g s u -> nx.has_edge g u v = true -> reach g s v.

(** [walk g s t p]: the node list [p] leads from [s] to [t] along links. *)
Inductive walk (g : nx.Graph) (s : string) : string -> list string -> Prop :=
| walk_start : walk g s s [s]
| walk_snoc (v w : string) (p : list string) :
    walk g s v p -> nx.has_edge g v w = true -> walk g s w (p ++ [w]).

Lemma walk_reach (g : nx.Graph) (s t : string) (p : list string) :
  walk g s t p -> reach g s t.
Proof. induction 1; [constructor|econstructor; eauto]. Qed.

Lemma walk_hd (g : nx.Graph) (s t : string) (p : list string) :
  walk g s t p -> hd_error p = Some s.
Proof.
  induction 1 as [|v w p W IH E]; [reflexivity|].
  destruct p; [discriminate|exact IH].
Qed.

Lemma last_item_snoc {A : Type} (l : list A) (x : A) : last_item (l ++ [x]) = Ok x.
Proof. unfold last_item. rewrite rev_app_distr. reflexivity. Qed.

Lemma walk_last (g : nx.Graph) (s t : string) (p : list string) :
  walk g s t p -> last_item p = Ok t.
Proof. destruct 1; [reflexivity|apply last_item_snoc]. Qed.

Lemma walk_rev_hd (g : nx.Graph) (s t : string) (p : list string) :
  walk g s t p -> rev p = t :: tl (rev p).
Proof. destruct 1; [reflexivity|]. rewrite rev_app_distr. reflexivity. Qed.

Lemma reach_trans (g : nx.Graph) (a b c : string) :
  reach g a b -> reach g b c -> reach g a c.
Proof. intros R1 R2. induction R2; [exact R1|econstructor; eauto]. Qed.

(** A set that holds [s] and is closed under links holds all that [s] reaches. *)
Lemma reach_closed (g : nx.Graph) (S : string -> Prop) (s t : string) :
  S s -> (forall u v, S u -> nx.has_edge g u v = true -> S v) ->
  reach g s t -> S t.
Proof. intros H0 HC R. induction R; eauto. Qed.

Section Undirected.
Variable g : nx.Graph.
Hypothesis WF : wf_graph g = true.

Lemma has_edge_sym (u v : string) : nx.has_edge g u v = true -> nx.has_edge g v u = true.
Proof.
  unfold nx.has_edge, mem.
  destruct (get (nx._adj g) u) as [nbrs|] eqn:G1; [|discriminate].
  destruct (get nbrs v) as [r|] eqn:G2; [|discriminate]. intros _.
  destruct (wf_edge_sym g WF u v nbrs r G1 G2) as [_ (nb & G3 & G4)].
  rewrite G3, G4. reflexivity.
Qed.

Lemma has_edge_node (u v : string) :
  nx.has_edge g u v = true -> mem (nx._adj g) u = true /\ mem (nx._adj g) v = true.
Proof.
  intros E. pose proof (has_edge_sym u v E) as E'.
  unfold nx.has_edge in E, E'. unfold mem.
  destruct (get (nx._adj g) u); [|discriminate].
  destruct (get (nx._adj g) v); [|discriminate]. auto.
Qed.

Lemma reach_sym (s t : string) : reach g s t -> reach g t s.
Proof.
  induction 1 as [|u v R IH E]; [constructor|].
  eapply reach_trans; [|exact IH].
  econstructor; [constructor|]. apply has_edge_sym; exact E.
Qed.

Lemma walk_node (s t : string) (p : list string) :
  mem (nx._adj g) s = true -> walk g s t p -> mem (nx._adj g) t = true.
Proof. intros N W. destruct W; [exact N|]. eapply has_edge_node; eauto. Qed.

(** Two walks that meet at [w], one from each end, join into a walk from
    end to end: [paths[0][w] + reversed(paths[1][w])[1:]]. *)
Lemma walk_join (s t w : string) (p1 : list string) :
  walk g t w p1 ->
  forall p0, walk g s w p0 -> walk g s t (p0 ++ tl (rev p1)).
Proof.
  induction 1 as [|v w p W IH E]; intros p0 W0.
  - simpl. rewrite app_nil_r. exact W0.
  - rewrite rev_app_distr. simpl. rewrite (walk_rev_hd _ _ _ _ W).
    change (p0 ++ v :: tl (rev p)) with (p0 ++ [v] ++ tl (rev p)).
    rewrite app_assoc. apply IH. econstructor; [exact W0|].
    apply has_edge_sym; exact E.
Qed.

End Undirected.

(** ** Breadth-first search from both ends *)

(** [pchain m root w l]: following the links of [m] from [w] ends at
    [root]; [l] lists the nodes met, from [root] to [w]. *)
Inductive pchain (m : nx.links) (root : string) : string -> list string -> Prop :=
| pchain_root : get m root = Some None -> pchain m root root [root]
| pchain_step (w v : string) (l : list string) :
    get m w = Some (Some v) -> pchain m root v l -> pchain m root w (l ++ [w]).

Lemma pchain_mem (m : nx.links) (root w : string) (l : list string) :
  pchain m root w l -> mem m w = true.
Proof. unfold mem. destruct 1 as [E|? ? ? E _]; rewrite E; reflexivity. Qed.

Lemma pchain_set (m : nx.links) (root w x : string) (l : list string) (o : option string) :
  mem m x = false -> pchain m root w l -> pchain (set m x o) root w l.
Proof.
  intros N. induction 1 as [E|w v l E C IH].
  - apply pchain_root. rewrite get_set_other; [exact E|].
    intros ->. unfold mem in N. rewrite E in N. discriminate.
  - eapply pchain_step; [|exact IH]. rewrite get_set_other; [exact E|].
    intros ->. unfold mem in N. rewrite E in N. discriminate.
Qed.

(** The loop [while w is not None] walks a chain back to its root. *)
Lemma follow_pchain (m : nx.links) (root w : string) (l : list string) :
  pchain m root w l ->
  forall fuel acc, List.length l <= fuel ->
    nx.follow fuel m (Some w) acc = Ok (acc ++ rev l).
Proof.
  induction 1 as [E|w v l E C IH]; intros fuel acc L.
  - destruct fuel as [|fuel]; [simpl in L; lia|].
    simpl. unfold getitem. rewrite E. simpl. destruct fuel; reflexivity.
  - rewrite length_app in L. simpl in L.
    destruct fuel as [|fuel]; [lia|].
    simpl. unfold getitem. rewrite E. simpl.
    rewrite IH by lia. rewrite rev_app_distr, <- app_assoc. reflexivity.
Qed.

Section BFS.
Variable g : nx.Graph.
Hypothesis WF : wf_graph g = true.

(** Nodes of the graph that a search has not recorded yet. *)
Definition unseen (m : nx.links) : nat :=
  List.length (filter (fun n => negb (mem m n)) (keys (nx._adj g))).

Lemma unseen_set_le (m : nx.links) (w : string) (o : option string) :
  unseen (set m w o) <= unseen m.
Proof.
  unfold unseen. induction (keys (nx._adj g)) as [|n L IH]; simpl; [lia|].
  rewrite mem_set. destruct (keqb w n); simpl.
  - destruct (negb (mem m n)); simpl; lia.
  - destruct (negb (mem m n)); simpl; lia.
Qed.

Lemma unseen_set_lt (m : nx.links) (w : string) (o : option string) :
  mem (nx._adj g) w = true -> mem m w = false -> unseen (set m w o) < unseen m.
Proof.
  intros N M. apply mem_In_keys in N. unfold unseen.
  induction (keys (nx._adj g)) as [|n L IH]; simpl; [destruct N|].
  rewrite mem_set. destruct N as [->|N].
  - rewrite keqb_refl, M. simpl.
    pose proof (unseen_set_le m w o) as LE. unfold unseen in LE.
    clear IH. assert (List.length (filter (fun n => negb (mem (set m w o) n)) L)
                      <= List.length (filter (fun n => negb (mem m n)) L)); [|lia].
    clear. induction L as [|n L IH]; simpl; [lia|].
    rewrite mem_set. destruct (keqb w n); simpl; destruct (negb (mem m n)); simpl; lia.
  - specialize (IH N). destruct (keqb w n); simpl; destruct (negb (mem m n)); simpl; lia.
Qed.

(** The search tree of one direction: every recorded node has a chain
    back to the root, which is a walk of the graph and no longer than the
    number of recorded nodes. *)
Definition tree_ok (root : string) (m : nx.links) : Prop :=
  forall w, mem m w = true ->
    exists l, pchain m root w l /\ walk g root w l /\ List.length l <= List.length m.

(** The two searches have not met. *)
Definition apart (m1 m2 : nx.links) : Prop :=
  forall w, mem m1 w = true -> mem m2 w = true -> False.

(** How a scan changes the map and the next fringe. *)
Record grows (m : nx.links) (f : list string) (m' : nx.links) (f' : list string) : Prop :=
  { grows_mem : forall x, mem m x = true -> mem m' x = true;
    grows_new : forall x, mem m' x = true -> mem m x = true \/ In x f';
    grows_fringe : forall x, In x f -> In x f';
    grows_in : (forall x, In x f -> mem m x = true) -> forall x, In x f' -> mem m' x = true;
    grows_count : unseen m' + List.length f' <= unseen m + List.length f }.

Lemma grows_refl (m : nx.links) (f : list string) : grows m f m f.
Proof. constructor; auto. Qed.

Lemma grows_trans (m1 m2 m3 : nx.links) (f1 f2 f3 : list string) :
  grows m1 f1 m2 f2 -> grows m2 f2 m3 f3 -> grows m1 f1 m3 f3.
Proof.
  intros [A1 A2 A3 A4 A5] [B1 B2 B3 B4 B5]. constructor; auto.
  - intros x H. destruct (B2 x H) as [H'|H']; auto.
    destruct (A2 x H') as [H''|H'']; auto.
  - lia.
Qed.

Lemma tree_ok_set (root : string) (m : nx.links) (v w : string) :
  tree_ok root m -> mem m v = true -> mem m w = false ->
  nx.has_edge g v w = true -> tree_ok root (set m w (Some v)).
Proof.
  intros T Mv Mw E x Mx. rewrite length_set, Mw.
  rewrite mem_set in Mx. destruct (keqb_dec w x) as [<-|N].
  - destruct (T v Mv) as (l & C & W & L).
    exists (l ++ [w]). split; [|split].
    + eapply pchain_step; [apply get_set_same|]. apply pchain_set; assumption.
    + econstructor; eauto.
    + rewrite length_app; simpl; lia.
  - rewrite keqb_neq in Mx by exact N. simpl in Mx.
    destruct (T x Mx) as (l & C & W & L).
    exists l. split; [|split]; auto. apply pchain_set; assumption.
Qed.

End BFS.

Section BFSScan.
Variable g : nx.Graph.
Hypothesis WF : wf_graph g = true.
Variables (root : string) (other : nx.links).
Hypothesis ROOT : mem (nx._adj g) root = true.

Lemma tree_ok_node (m : nx.links) (v : string) :
  tree_ok g root m -> mem m v = true -> mem (nx._adj g) v = true.
Proof.
  intros T M. destruct (T v M) as (l & _ & W & _).
  eapply walk_node; eauto.
Qed.

Lemma scan_nbrs_spec (v : string) (ws : list string) :
  forall (mine : nx.links) (fringe : list string),
    tree_ok g root mine -> mem mine v = true ->
    (forall w, In w ws -> nx.has_edge g v w = true) ->
    apart mine other ->
    match nx.scan_nbrs v ws mine other fringe with
    | nx.Next mine' fringe' =>
        tree_ok g root mine' /\ apart mine' other /\
        grows g mine fringe mine' fringe' /\
        (forall w, In w ws -> mem mine' w = true)
    | nx.Found mine' w =>
        tree_ok g root mine' /\ mem mine' w = true /\ mem other w = true
    end.
Proof.
  induction ws as [|w ws IH]; intros mine fringe T Mv E A.
  - simpl. split; [exact T|]. split; [exact A|]. split; [apply grows_refl|].
    intros ? [].
  - simpl. destruct (mem mine w) eqn:Mw.
    + destruct (mem other w) eqn:Ow; [exfalso; eapply A; eauto|].
      specialize (IH mine fringe T Mv (fun x I => E x (or_intror I)) A).
      destruct (nx.scan_nbrs v ws mine other fringe) as [mine' fringe'|mine' x]; auto.
      destruct IH as (T' & A' & G & C).
      split; [exact T'|]. split; [exact A'|]. split; [exact G|].
      intros x [<-|I]; [apply (grows_mem _ _ _ _ _ G); exact Mw|auto].
    + assert (Ev : nx.has_edge g v w = true) by (apply E; left; reflexivity).
      assert (T1 : tree_ok g root (set mine w (Some v))) by (apply tree_ok_set; auto).
      assert (M1 : mem (set mine w (Some v)) w = true).
      { rewrite mem_set, keqb_refl. reflexivity. }
      destruct (mem other w) eqn:Ow; [auto|].
      assert (A1 : apart (set mine w (Some v)) other).
      { intros x Hx Ox. rewrite mem_set in Hx. destruct (keqb_dec w x) as [<-|N].
        - congruence.
        - rewrite keqb_neq in Hx by exact N. eapply A; eauto. }
      assert (G1 : grows g mine fringe (set mine w (Some v)) (fringe ++ [w])).
      { constructor.
        - intros x Hx. rewrite mem_set, Hx. apply orb_true_r.
        - intros x Hx. rewrite mem_set in Hx. destruct (keqb_dec w x) as [<-|N].
          + right. apply in_or_app. right. left. reflexivity.
          + rewrite keqb_neq in Hx by exact N. left. exact Hx.
        - intros x I. apply in_or_app. left; exact I.
        - intros F x I. apply in_app_or in I. destruct I as [I|[<-|[]]]; [|exact M1].
          rewrite mem_set, (F x I). apply orb_true_r.
        - rewrite length_app. simpl.
          pose proof (unseen_set_lt g mine w (Some v)
                        (proj2 (has_edge_node g WF v w Ev)) Mw). lia. }
      assert (Mv1 : mem (set mine w (Some v)) v = true).
      { rewrite mem_set, Mv. apply orb_true_r. }
      specialize (IH _ (fringe ++ [w]) T1 Mv1 (fun x I => E x (or_intror I)) A1).
      destruct (nx.scan_nbrs v ws (set mine w (Some v)) other (fringe ++ [w]))
        as [mine' fringe'|mine' x]; auto.
      destruct IH as (T' & A' & G & C).
      split; [exact T'|]. split; [exact A'|].
      split; [eapply grows_trans; eauto|].
      intros x [<-|I]; [apply (grows_mem _ _ _ _ _ G); exact M1|auto].
Qed.

Lemma scan_level_spec (level : list string) :
  forall (mine : nx.links) (fringe : list string),
    tree_ok g root mine ->
    (forall v, In v level -> mem mine v = true) ->
    apart mine other ->
    match nx.scan_level g level mine other fringe with
    | Ok (nx.Next mine' fringe') =>
        tree_ok g root mine' /\ apart mine' other /\
        grows g mine fringe mine' fringe' /\
        (forall v, In v level ->
           forall w, nx.has_edge g v w = true -> mem mine' w = true)
    | Ok (nx.Found mine' w) =>
        tree_ok g root mine' /\ mem mine' w = true /\ mem other w = true
    | Raise _ => False
    end.
Proof.
  induction level as [|v level IH]; intros mine fringe T L A.
  - simpl. split; [exact T|]. split; [exact A|]. split; [apply grows_refl|].
    intros ? [].
  - simpl. unfold nx.adj, getitem.
    assert (Mv : mem mine v = true) by (apply L; left; reflexivity).
    pose proof (tree_ok_node mine v T Mv) as Nv. unfold mem in Nv.
    destruct (get (nx._adj g) v) as [nbrs|] eqn:Gv; [|discriminate]. simpl.
    assert (E : forall w, In w (keys nbrs) -> nx.has_edge g v w = true).
    { intros w I. unfold nx.has_edge. rewrite Gv. apply mem_In_keys; exact I. }
    pose proof (scan_nbrs_spec v (keys nbrs) mine fringe T Mv E A) as S.
    destruct (nx.scan_nbrs v (keys nbrs) mine other fringe) as [mine1 fringe1|mine1 x];
      [|exact S].
    destruct S as (T1 & A1 & G1 & C1).
    assert (L1 : forall x, In x level -> mem mine1 x = true).
    { intros x I. apply (grows_mem _ _ _ _ _ G1). apply L. right; exact I. }
    specialize (IH mine1 fringe1 T1 L1 A1).
    destruct (nx.scan_level g level mine1 other fringe1) as [[mine' fringe'|mine' x]|e];
      auto.
    destruct IH as (T' & A' & G' & C').
    split; [exact T'|]. split; [exact A'|].
    split; [eapply grows_trans; eauto|].
    intros x [<-|I] w Ew; [|eapply C'; eauto].
      apply (grows_mem _ _ _ _ _ G'). apply C1.
      unfold nx.has_edge in Ew. rewrite Gv in Ew. apply mem_In_keys; exact Ew.
Qed.

End BFSScan.

Section BFSLoop.
Variable g : nx.Graph.
Hypothesis WF : wf_graph g = true.
Variables source target : string.
Hypothesis SRC : mem (nx._adj g) source = true.
Hypothesis TGT : mem (nx._adj g) target = true.

(** The invariant of [while forward_fringe and reverse_fringe]: both
    trees are sound, the searches have not met, and a recorded node that
    is not waiting in a fringe has all its neighbours recorded. *)
Record bfs_inv (pred succ : nx.links) (ff rf : list string) : Prop :=
  { bi_pred : tree_ok g source pred;
    bi_succ : tree_ok g target succ;
    bi_src : mem pred source = true;
    bi_tgt : mem succ target = true;
    bi_apart : apart pred succ;
    bi_ff : forall v, In v ff -> mem pred v = true;
    bi_rf : forall v, In v rf -> mem succ v = true;
    bi_pclosed : forall v, mem pred v = true ->
        In v ff \/ forall w, nx.has_edge g v w = true -> mem pred w = true;
    bi_sclosed : forall v, mem succ v = true ->
        In v rf \/ forall w, nx.has_edge g v w = true -> mem succ w = true }.

Lemma apart_sym (m1 m2 : nx.links) : apart m1 m2 -> apart m2 m1.
Proof. intros A w H1 H2. eapply A; eauto. Qed.

Lemma closed_no_path_fwd (pred succ : nx.links) (rf : list string) :
  bfs_inv pred succ [] rf -> ~ reach g source target.
Proof.
  intros I R.
  assert (M : mem pred target = true).
  { apply (reach_closed g (fun x => mem pred x = true) source target); auto.
    - apply (bi_src _ _ _ _ I).
    - intros u v Mu E. destruct (bi_pclosed _ _ _ _ I u Mu) as [[]|C]. auto. }
  exact (bi_apart _ _ _ _ I target M (bi_tgt _ _ _ _ I)).
Qed.

Lemma closed_no_path_bwd (pred succ : nx.links) (ff : list string) :
  bfs_inv pred succ ff [] -> ~ reach g source target.
Proof.
  intros I R. apply (reach_sym g WF) in R.
  assert (M : mem succ source = true).
  { apply (reach_closed g (fun x => mem succ x = true) target source); auto.
    - apply (bi_tgt _ _ _ _ I).
    - intros u v Mu E. destruct (bi_sclosed _ _ _ _ I u Mu) as [[]|C]. auto. }
  exact (bi_apart _ _ _ _ I source (bi_src _ _ _ _ I) M).
Qed.

Lemma pred_succ_loop_spec (fuel : nat) :
  forall pred succ ff rf,
    bfs_inv pred succ ff rf ->
    (ff <> [] -> rf <> [] -> unseen g pred + unseen g succ + 2 <= fuel) ->
    1 <= fuel ->
    match nx.pred_succ_loop fuel g pred succ ff rf with
    | Ok (pred', succ', w) =>
        tree_ok g source pred' /\ tree_ok g target succ' /\
        mem pred' w = true /\ mem succ' w = true
    | Raise e => e = NetworkXNoPath /\ ~ reach g source target
    end.
Proof.
  induction fuel as [|fuel IH]; intros pred succ ff rf I F F1; [lia|].
  simpl. destruct ff as [|f0 ff].
  { split; [reflexivity|]. eapply closed_no_path_fwd; eauto. }
  destruct rf as [|r0 rf].
  { split; [reflexivity|]. eapply closed_no_path_bwd; eauto. }
  specialize (F ltac:(discriminate) ltac:(discriminate)).
  destruct (List.length (f0 :: ff) <=? List.length (r0 :: rf)).
  - pose proof (scan_level_spec g WF source succ SRC (f0 :: ff) pred []
                  (bi_pred _ _ _ _ I) (bi_ff _ _ _ _ I) (bi_apart _ _ _ _ I)) as S.
    destruct (nx.scan_level g (f0 :: ff) pred succ []) as [[pred' f'|pred' w]|e];
      simpl; [| |destruct S].
    + destruct S as (T' & A' & G & C).
      apply IH.
      * constructor; try apply I; auto.
        -- apply (grows_mem _ _ _ _ _ G). apply I.
        -- apply (grows_in _ _ _ _ _ G). intros ? [].
        -- intros v Mv. destruct (grows_new _ _ _ _ _ G v Mv) as [Mo|Fo]; [|auto].
           destruct (bi_pclosed _ _ _ _ I v Mo) as [Iv|Cv].
           ++ right. intros w E. eapply C; eauto.
           ++ right. intros w E. apply (grows_mem _ _ _ _ _ G). auto.
      * intros N _. pose proof (grows_count _ _ _ _ _ G) as Cn. simpl in Cn.
        destruct f'; [congruence|]. simpl in Cn. lia.
      * lia.
    + destruct S as (T' & M1 & M2). repeat split; auto. apply I.
  - pose proof (scan_level_spec g WF target pred TGT (r0 :: rf) succ []
                  (bi_succ _ _ _ _ I) (bi_rf _ _ _ _ I)
                  (apart_sym _ _ (bi_apart _ _ _ _ I))) as S.
    destruct (nx.scan_level g (r0 :: rf) succ pred []) as [[succ' f'|succ' w]|e];
      simpl; [| |destruct S].
    + destruct S as (T' & A' & G & C).
      apply IH.
      * constructor; try apply I; auto.
        -- apply (grows_mem _ _ _ _ _ G). apply I.
        -- apply apart_sym; exact A'.
        -- apply (grows_in _ _ _ _ _ G). intros ? [].
        -- intros v Mv. destruct (grows_new _ _ _ _ _ G v Mv) as [Mo|Fo]; [|auto].
           destruct (bi_sclosed _ _ _ _ I v Mo) as [Iv|Cv].
           ++ right. intros w E. eapply C; eauto.
           ++ right. intros w E. apply (grows_mem _ _ _ _ _ G). auto.
      * intros _ N. pose proof (grows_count _ _ _ _ _ G) as Cn. simpl in Cn.
        destruct f'; [congruence|]. simpl in Cn. lia.
      * lia.
    + destruct S as (T' & M1 & M2). repeat split; auto. apply I.
Qed.

End BFSLoop.

Section BFSResult.
Variable g : nx.Graph.
Hypothesis WF : wf_graph g = true.
Variables source target : string.
Hypothesis SRC : nx.has_node g source = true.
Hypothesis TGT : nx.has_node g target = true.

Lemma unseen_le (m : nx.links) : unseen g m <= List.length (nx._adj g).
Proof.
  unfold unseen, keys. rewrite <- (length_map fst (nx._adj g)).
  apply filter_length_le.
Qed.

Lemma tree_ok_single (root : string) : tree_ok g root [(root, None)].
Proof.
  intros w M. unfold mem in M. simpl in M.
  destruct (String.eqb root w) eqn:E; [|discriminate].
  apply String.eqb_eq in E; subst w.
  exists [root]. split; [|split]; [|constructor|simpl; lia].
  apply pchain_root. simpl. rewrite String.eqb_refl. reflexivity.
Qed.

Lemma mem_single (root w : string) (o : option string) :
  mem [(root, o)] w = true -> w = root.
Proof.
  unfold mem. simpl. destruct (String.eqb root w) eqn:E; [|discriminate].
  apply String.eqb_eq in E; auto.
Qed.

Lemma bidirectional_pred_succ_spec :
  match nx._bidirectional_pred_succ g source target with
  | Ok (pred, succ, w) =>
      tree_ok g source pred /\ tree_ok g target succ /\
      mem pred w = true /\ mem succ w = true
  | Raise e => e = NetworkXNoPath /\ ~ reach g source target
  end.
Proof.
  unfold nx._bidirectional_pred_succ.
  rewrite (wf_has_node g WF) in SRC, TGT.
  destruct (String.eqb target source) eqn:E.
  - apply String.eqb_eq in E; subst target.
    repeat split; try apply tree_ok_single;
      unfold mem; simpl; rewrite String.eqb_refl; reflexivity.
  - assert (N : target <> source).
    { intros ->. rewrite String.eqb_refl in E. discriminate. }
    apply pred_succ_loop_spec; auto.
    + constructor; try apply tree_ok_single;
        try (unfold mem; simpl; rewrite String.eqb_refl; reflexivity).
      * intros w M1 M2. apply mem_single in M1, M2. congruence.
      * intros v [<-|[]]. unfold mem; simpl; rewrite String.eqb_refl; reflexivity.
      * intros v [<-|[]]. unfold mem; simpl; rewrite String.eqb_refl; reflexivity.
      * intros v M. apply mem_single in M. subst. left. left. reflexivity.
      * intros v M. apply mem_single in M. subst. left. left. reflexivity.
    + intros _ _. unfold nx.bfs_fuel.
      pose proof (unseen_le [(source, None)]). pose proof (unseen_le [(target, None)]).
      lia.
    + unfold nx.bfs_fuel. lia.
Qed.

(** The unweighted search returns a walk from [source] to [target] when
    there is one, and raises [NetworkXNoPath] otherwise. *)
Lemma bidirectional_shortest_path_spec :
  match nx.bidirectional_shortest_path g source target with
  | Ok p => walk g source target p
  | Raise e => e = NetworkXNoPath /\ ~ reach g source target
  end.
Proof.
  unfold nx.bidirectional_shortest_path. rewrite SRC, TGT. cbn [negb orb].
  pose proof bidirectional_pred_succ_spec as S.
  destruct (nx._bidirectional_pred_succ g source target) as [[[pred succ] w]|e];
    [|exact S].
  destruct S as (T0 & T1 & M0 & M1). cbn [bind].
  destruct (T0 w M0) as (l0 & C0 & W0 & L0).
  destruct (T1 w M1) as (l1 & C1 & W1 & L1).
  rewrite (follow_pchain _ _ _ _ C0) by lia. cbn [bind app].
  rewrite rev_involutive, (walk_last _ _ _ _ W0). cbn [bind].
  unfold getitem. destruct C1 as [E|w v l' E C'].
  - rewrite E. cbn [bind nx.follow]. exact W0.
  - rewrite E. cbn [bind].
    rewrite length_app in L1. simpl in L1.
    rewrite (follow_pchain _ _ _ _ C') by lia.
    pose proof (walk_join g WF source target w _ W1 l0 W0) as J.
    rewrite rev_app_distr in J. exact J.
Qed.

End BFSResult.

(** ** Dijkstra's search from both ends *)

Definition entry_dist (e : nx.entry) : float := fst (fst e).
Definition entry_node (e : nx.entry) : string := snd e.

(** [heappop] returns some entry of the heap, keeps the others, and on
    comparable distances the returned one is the least. *)
Lemma pop_min_perm (h : list nx.entry) :
  forall e m rest, nx.pop_min e h = (m, rest) -> Permutation (m :: rest) (e :: h).
Proof.
  induction h as [|e' h IH]; intros e m rest E; simpl in E.
  - injection E as <- <-. apply Permutation_refl.
  - destruct (nx.pop_min e' h) as [m' rest'] eqn:P. specialize (IH _ _ _ P).
    destruct (nx.entry_lt m' e); injection E as <- <-.
    + eapply Permutation_trans; [apply perm_swap|]. apply perm_skip.
      eapply Permutation_trans; [|exact IH]. apply Permutation_refl.
    + apply perm_skip. exact IH.
Qed.

Lemma entry_lt_leb (a b : nx.entry) :
  nx.entry_lt a b = true -> (entry_dist a <=? entry_dist b)%float = true.
Proof.
  destruct a as [[da ca] na], b as [[db cb] nb]. unfold nx.entry_lt, entry_dist. simpl.
  destruct (da =? db)%float eqn:E; intros H.
  - apply eqb_leb; exact E.
  - apply ltb_leb; exact H.
Qed.

Lemma SFeqb_sym (x y : spec_float) : SFeqb x y = SFeqb y x.
Proof.
  unfold SFeqb.
  destruct x as [sx|sx| |sx mx ex], y as [sy|sy| |sy my ey]; simpl;
    try destruct sx; try destruct sy; simpl; try reflexivity.
  - change (Pos.compare_cont Eq mx my) with (mx ?= my)%positive.
    change (Pos.compare_cont Eq my mx) with (my ?= mx)%positive.
    rewrite (Z.compare_antisym ex ey), (Pos.compare_antisym mx my).
    destruct (ex ?= ey)%Z; simpl; try reflexivity.
    destruct (mx ?= my)%positive; reflexivity.
  - change (Pos.compare_cont Eq mx my) with (mx ?= my)%positive.
    change (Pos.compare_cont Eq my mx) with (my ?= mx)%positive.
    rewrite (Z.compare_antisym ex ey), (Pos.compare_antisym mx my).
    destruct (ex ?= ey)%Z; simpl; try reflexivity.
    destruct (mx ?= my)%positive; reflexivity.
Qed.

Lemma entry_not_lt_leb (a b : nx.entry) :
  nonneg (entry_dist a) -> nonneg (entry_dist b) ->
  nx.entry_lt a b = false -> (entry_dist b <=? entry_dist a)%float = true.
Proof.
  destruct a as [[da ca] na], b as [[db cb] nb]. unfold nx.entry_lt, entry_dist. simpl.
  intros Na Nb. destruct (da =? db)%float eqn:E; intros H.
  - apply eqb_leb. rewrite eqb_spec, SFeqb_sym, <- eqb_spec. exact E.
  - apply ltb_false_leb; assumption.
Qed.

Lemma pop_min_least (h : list nx.entry) :
  forall e m rest,
    nx.pop_min e h = (m, rest) ->
    (forall x, In x (e :: h) -> nonneg (entry_dist x)) ->
    forall x, In x (e :: h) -> (entry_dist m <=? entry_dist x)%float = true.
Proof.
  induction h as [|e' h IH]; intros e m rest E N x I; simpl in E.
  - injection E as <- <-. destruct I as [<-|[]]. apply leb_refl. apply N. left; reflexivity.
  - destruct (nx.pop_min e' h) as [m' rest'] eqn:P.
    assert (N' : forall y, In y (e' :: h) -> nonneg (entry_dist y)).
    { intros y Iy. apply N. right; exact Iy. }
    pose proof (IH _ _ _ P N') as L.
    assert (Im' : In m' (e' :: h)).
    { eapply Permutation_in; [apply (pop_min_perm _ _ _ _ P)|]. left; reflexivity. }
    destruct (nx.entry_lt m' e) eqn:C; injection E as <- <-.
    + destruct I as [<-|I]; [apply entry_lt_leb; exact C|apply L; exact I].
    + destruct I as [<-|I].
      * apply leb_refl. apply N. left; reflexivity.
      * eapply leb_trans; [| | |apply entry_not_lt_leb; [| |exact C]|apply L; exact I].
        -- apply N. left; reflexivity.
        -- apply N'. exact Im'.
        -- apply N. right; exact I.
        -- apply N'. exact Im'.
        -- apply N. left; reflexivity.
Qed.

(** A weight callable that, on a given attribute dictionary, returns a
    non-negative number whatever nodes it is given. *)
Definition weight_ok (weight : nx.weightfn) (d : nx.attrs) : Prop :=
  forall a b, exists c, weight a b d = Ok c /\ nonneg c.

Section Dijkstra.
Variable g : nx.Graph.
Hypothesis WF : wf_graph g = true.
Variable weight : nx.weightfn.
Hypothesis WOK : forall u nbrs v r,
    get (nx._adj g) u = Some nbrs -> get nbrs v = Some r -> weight_ok weight (nx.deref g r).
Variables source target : string.
Hypothesis SRC : mem (nx._adj g) source = true.
Hypothesis TGT : mem (nx._adj g) target = true.
Hypothesis NEQ : source <> target.

(** The start of the search in direction [d]. *)
Definition start (d : bool) : string := if d then target else source.

(** The invariant of one direction of the search. *)
Record side_inv (d : bool) (s : nx.side) : Prop :=
  { si_paths : forall w pw, get (nx.paths s) w = Some pw -> walk g (start d) w pw;
    si_seen_paths : forall w, mem (nx.seen s) w = true -> mem (nx.paths s) w = true;
    si_dists_seen : forall w, mem (nx.dists s) w = true -> mem (nx.seen s) w = true;
    si_fringe_seen : forall e, In e (nx.fringe s) -> mem (nx.seen s) (entry_node e) = true;
    si_pending : forall w, mem (nx.seen s) w = true ->
        mem (nx.dists s) w = true \/ exists e, In e (nx.fringe s) /\ entry_node e = w;
    si_nonneg_f : forall e, In e (nx.fringe s) -> nonneg (entry_dist e);
    si_nonneg_d : forall w dw, get (nx.dists s) w = Some dw -> nonneg dw;
    si_order : forall w dw e, get (nx.dists s) w = Some dw -> In e (nx.fringe s) ->
        (dw <=? entry_dist e)%float = true;
    si_start : mem (nx.seen s) (start d) = true }.

(** Every neighbour of a finalised node has been seen. *)
Definition closed (s : nx.side) : Prop :=
  forall v, mem (nx.dists s) v = true ->
    forall w, nx.has_edge g v w = true -> mem (nx.seen s) w = true.

(** As soon as a node has been seen from both ends, [finalpath] is a walk
    from end to end and [finaldist] is bound. *)
Record meet_inv (st : nx.bidi) : Prop :=
  { mi_met : forall w, mem (nx.seen (nx.fwd st)) w = true ->
                       mem (nx.seen (nx.bwd st)) w = true -> nx.finalpath st <> [];
    mi_path : nx.finalpath st <> [] ->
              walk g source target (nx.finalpath st) /\ nx.finaldist st <> None }.

Lemma start_node (d : bool) : mem (nx._adj g) (start d) = true.
Proof. destruct d; assumption. Qed.

Lemma side_seen_node (d : bool) (s : nx.side) (w : string) :
  side_inv d s -> mem (nx.seen s) w = true -> mem (nx._adj g) w = true.
Proof.
  intros I M. apply (si_seen_paths _ _ I) in M. unfold mem in M.
  destruct (get (nx.paths s) w) as [pw|] eqn:E; [|discriminate].
  eapply walk_node; [exact WF|apply (start_node d)|]. eapply si_paths; eauto.
Qed.

(** Relaxing [w] from [v]: the new entry keeps the invariant of the side. *)
Lemma side_inv_push (d : bool) (s : nx.side) (v w : string) (pv : list string)
  (x : float) (c : nat) :
  side_inv d s ->
  get (nx.paths s) v = Some pv ->
  nx.has_edge g v w = true ->
  nonneg x ->
  (forall u du, get (nx.dists s) u = Some du -> (du <=? x)%float = true) ->
  side_inv d (nx.mkSide (nx.dists s) (set (nx.paths s) w (pv ++ [w]))
                        ((x, c, w) :: nx.fringe s) (set (nx.seen s) w x)).
Proof.
  intros I Pv E Nx Ox. constructor; cbn [nx.dists nx.paths nx.fringe nx.seen].
  - intros u pu. rewrite get_set. destruct (keqb w u) eqn:K.
    + apply keqb_eq in K; subst u. intros [= <-].
      econstructor; [eapply si_paths; eauto|exact E].
    + apply (si_paths _ _ I).
  - intros u. rewrite !mem_set. destruct (keqb w u); simpl; [reflexivity|].
    apply (si_seen_paths _ _ I).
  - intros u M. rewrite mem_set. rewrite (si_dists_seen _ _ I u M). apply orb_true_r.
  - intros e [<-|Ie]; rewrite mem_set.
    + unfold entry_node; cbn [snd]. rewrite keqb_refl. reflexivity.
    + rewrite (si_fringe_seen _ _ I e Ie). apply orb_true_r.
  - intros u. rewrite mem_set. destruct (keqb w u) eqn:K; simpl.
    + apply keqb_eq in K; subst u. intros _. right.
      exists (x, c, w). split; [left; reflexivity|reflexivity].
    + intros M. destruct (si_pending _ _ I u M) as [D|(e & Ie & Ne)]; [left; exact D|].
      right. exists e. split; [right; exact Ie|exact Ne].
  - intros e [<-|Ie]; [exact Nx|apply (si_nonneg_f _ _ I e Ie)].
  - apply (si_nonneg_d _ _ I).
  - intros u du e G [<-|Ie]; [apply (Ox u du G)|apply (si_order _ _ I u du e G Ie)].
  - rewrite mem_set, (si_start _ _ I). apply orb_true_r.
Qed.

Lemma mem_get_some {K V : Type} `{EqKey K} (d : dict K V) (k : K) :
  mem d k = true -> exists v, get d k = Some v.
Proof. unfold mem. destruct (get d k); [eauto|discriminate]. Qed.

(** The body of the relaxation: the entry is pushed on the side of the
    search, and [finalpath] is kept or replaced by a walk through [w]. *)
Lemma relax_one_spec (d : bool) (v w : string) (x : float) (st : nx.bidi)
  (pv : list string) :
  side_inv false (nx.fwd st) -> side_inv true (nx.bwd st) -> meet_inv st ->
  get (nx.paths (nx.this_side st d)) v = Some pv ->
  nx.has_edge g v w = true ->
  exists st',
    nx.relax_one d v w x st = Ok st' /\
    nx.this_side st' d
    = nx.mkSide (nx.dists (nx.this_side st d))
                (set (nx.paths (nx.this_side st d)) w (pv ++ [w]))
                ((x, nx.count st, w) :: nx.fringe (nx.this_side st d))
                (set (nx.seen (nx.this_side st d)) w x) /\
    nx.other_side st' d = nx.other_side st d /\
    nx.dir st' = nx.dir st /\
    meet_inv st'.
Proof.
  intros I0 I1 M Pv E. unfold nx.relax_one, getitem. rewrite Pv. cbn [bind].
  assert (Wv : walk g (start d) w (pv ++ [w])).
  { econstructor; [|exact E]. destruct d; [eapply (si_paths _ _ I1)|eapply (si_paths _ _ I0)];
      exact Pv. }
  destruct d; cbn [nx.this_side nx.other_side nx.with_side nx.fwd nx.bwd nx.count
                   nx.finaldist nx.finalpath nx.dir nx.seen nx.paths start] in *.
  - (* backward *)
    rewrite get_set_same.
    destruct (get (nx.seen (nx.fwd st)) w) as [d0|] eqn:S0.
    + assert (M0 : mem (nx.seen (nx.fwd st)) w = true) by (unfold mem; rewrite S0; reflexivity).
      destruct (mem_get_some _ _ (si_seen_paths _ _ I0 w M0)) as [p0 P0].
      pose proof (si_paths _ _ I0 w p0 P0) as W0.
      assert (J : walk g source target (p0 ++ tl (rev (pv ++ [w])))).
      { eapply walk_join; eauto. }
      assert (JN : p0 ++ tl (rev (pv ++ [w])) <> []).
      { pose proof (walk_hd _ _ _ _ J) as H. intros Z. rewrite Z in H. discriminate. }
      unfold nx.improves; cbn [nx.finalpath nx.finaldist].
      destruct (nx.finalpath st) as [|a fp] eqn:FP.
      * cbn [bind]. unfold getitem. rewrite P0, get_set_same. cbn [bind].
        eexists. split; [reflexivity|]. cbn [nx.this_side nx.other_side nx.bwd nx.fwd nx.dir].
        repeat split; auto; cbn [nx.finalpath nx.finaldist]; congruence.
      * destruct (mi_path _ M) as [WP FD]; [rewrite FP; discriminate|].
        destruct (nx.finaldist st) as [fd|] eqn:FDe; [|congruence]. cbn [bind].
        destruct (d0 + x <? fd)%float.
        -- unfold getitem. rewrite P0, get_set_same. cbn [bind].
           eexists. split; [reflexivity|].
           cbn [nx.this_side nx.other_side nx.bwd nx.fwd nx.dir].
           repeat split; auto; cbn [nx.finalpath nx.finaldist]; congruence.
        -- eexists. split; [reflexivity|].
           cbn [nx.this_side nx.other_side nx.bwd nx.fwd nx.dir].
           repeat split; auto; cbn [nx.finalpath nx.finaldist nx.seen nx.fwd nx.bwd];
             rewrite ?FP in *; try congruence; try discriminate.
    + eexists. split; [reflexivity|].
      cbn [nx.this_side nx.other_side nx.bwd nx.fwd nx.dir].
      repeat split; auto; cbn [nx.finalpath nx.finaldist nx.seen nx.fwd nx.bwd].
      * intros u M0 M1. rewrite mem_set in M1. destruct (keqb_dec w u) as [<-|N].
        -- unfold mem in M0. rewrite S0 in M0. discriminate.
        -- rewrite keqb_neq in M1 by exact N. eapply mi_met; eauto.
      * apply (mi_path _ M H).
      * apply (mi_path _ M H).
  - (* forward *)
    rewrite get_set_same.
    destruct (get (nx.seen (nx.bwd st)) w) as [d1|] eqn:S1.
    + assert (M1 : mem (nx.seen (nx.bwd st)) w = true) by (unfold mem; rewrite S1; reflexivity).
      destruct (mem_get_some _ _ (si_seen_paths _ _ I1 w M1)) as [p1 P1].
      pose proof (si_paths _ _ I1 w p1 P1) as W1.
      assert (J : walk g source target ((pv ++ [w]) ++ tl (rev p1))).
      { eapply walk_join; eauto. }
      assert (JN : (pv ++ [w]) ++ tl (rev p1) <> []).
      { pose proof (walk_hd _ _ _ _ J) as H. intros Z. rewrite Z in H. discriminate. }
      unfold nx.improves; cbn [nx.finalpath nx.finaldist].
      destruct (nx.finalpath st) as [|a fp] eqn:FP.
      * cbn [bind]. unfold getitem. rewrite P1, get_set_same. cbn [bind].
        eexists. split; [reflexivity|]. cbn [nx.this_side nx.other_side nx.bwd nx.fwd nx.dir].
        repeat split; auto; cbn [nx.finalpath nx.finaldist]; congruence.
      * destruct (mi_path _ M) as [WP FD]; [rewrite FP; discriminate|].
        destruct (nx.finaldist st) as [fd|] eqn:FDe; [|congruence]. cbn [bind].
        destruct (x + d1 <? fd)%float.
        -- unfold getitem. rewrite P1, get_set_same. cbn [bind].
           eexists. split; [reflexivity|].
           cbn [nx.this_side nx.other_side nx.bwd nx.fwd nx.dir].
           repeat split; auto; cbn [nx.finalpath nx.finaldist]; congruence.
        -- eexists. split; [reflexivity|].
           cbn [nx.this_side nx.other_side nx.bwd nx.fwd nx.dir].
           repeat split; auto; cbn [nx.finalpath nx.finaldist nx.seen nx.fwd nx.bwd];
             rewrite ?FP in *; try congruence; try discriminate.
    + eexists. split; [reflexivity|].
      cbn [nx.this_side nx.other_side nx.bwd nx.fwd nx.dir].
      repeat split; auto; cbn [nx.finalpath nx.finaldist nx.seen nx.fwd nx.bwd].
      * intros u M0 M1. rewrite mem_set in M0. destruct (keqb_dec w u) as [<-|N].
        -- unfold mem in M1. rewrite S1 in M1. discriminate.
        -- rewrite keqb_neq in M0 by exact N. eapply mi_met; eauto.
      * apply (mi_path _ M H).
      * apply (mi_path _ M H).
Qed.

Lemma sides_split (d : bool) (st : nx.bidi) :
  side_inv false (nx.fwd st) -> side_inv true (nx.bwd st) ->
  side_inv d (nx.this_side st d) /\ side_inv (negb d) (nx.other_side st d).
Proof. destruct d; simpl; auto. Qed.

Lemma sides_join (d : bool) (st : nx.bidi) :
  side_inv d (nx.this_side st d) -> side_inv (negb d) (nx.other_side st d) ->
  side_inv false (nx.fwd st) /\ side_inv true (nx.bwd st).
Proof. destruct d; simpl; auto. Qed.

(** The relaxation loop over (the rest of) the neighbours of [v]. *)
Lemma relax_spec (d : bool) (v : string) (dv : float) (nbrs : dict string nat) :
  get (nx._adj g) v = Some nbrs ->
  nonneg dv ->
  forall (rest : list (string * nat)) (st : nx.bidi),
    (forall wr, In wr rest -> In wr nbrs) ->
    side_inv false (nx.fwd st) -> side_inv true (nx.bwd st) -> meet_inv st ->
    mem (nx.seen (nx.this_side st d)) v = true ->
    (forall u du, get (nx.dists (nx.this_side st d)) u = Some du ->
                  (du <=? dv)%float = true) ->
    exists st',
      nx.relax g weight d v dv rest st = Ok st' /\
      side_inv false (nx.fwd st') /\ side_inv true (nx.bwd st') /\ meet_inv st' /\
      nx.dists (nx.this_side st' d) = nx.dists (nx.this_side st d) /\
      nx.other_side st' d = nx.other_side st d /\
      nx.dir st' = nx.dir st /\
      (forall x, mem (nx.seen (nx.this_side st d)) x = true ->
                 mem (nx.seen (nx.this_side st' d)) x = true) /\
      (forall wr, In wr rest -> mem (nx.seen (nx.this_side st' d)) (fst wr) = true) /\
      List.length (nx.fringe (nx.this_side st' d))
      <= List.length (nx.fringe (nx.this_side st d)) + List.length rest.
Proof.
  intros Gv Ndv. destruct (wf_nbrs g WF v nbrs Gv) as [ND _].
  induction rest as [|[w r] rest IH]; intros st Sub I0 I1 M Sv Od.
  - exists st. cbn [nx.relax]. split_conj; auto; try (intros ? []); simpl; lia.
  - assert (Gw : get nbrs w = Some r).
    { apply In_get_NoDup; [exact ND|]. apply Sub. left; reflexivity. }
    assert (E : nx.has_edge g v w = true).
    { unfold nx.has_edge, mem. rewrite Gv, Gw. reflexivity. }
    assert (C : exists c, (if d then weight w v (nx.deref g r)
                           else weight v w (nx.deref g r)) = Ok c /\ nonneg c).
    { destruct d; apply (WOK v nbrs w r Gv Gw). }
    destruct C as (c & Ec & Nc).
    destruct (add_nonneg_ge dv c Ndv Nc) as [Lvw Nvw].
    destruct (sides_split d st I0 I1) as [It Io].
    cbn [nx.relax]. rewrite Ec. cbn [bind].
    assert (Sub' : forall wr, In wr rest -> In wr nbrs).
    { intros wr Iw. apply Sub. right; exact Iw. }
    destruct (get (nx.dists (nx.this_side st d)) w) as [dw|] eqn:Dw.
    + assert (Lw : (dw <=? dv + c)%float = true).
      { apply (leb_trans dw dv (dv + c)%float);
          [apply (si_nonneg_d _ _ It w dw Dw)|exact Ndv|exact Nvw
          |apply (Od w dw Dw)|exact Lvw]. }
      rewrite (leb_not_ltb _ _ Lw).
      destruct (IH st Sub' I0 I1 M Sv Od)
        as (st' & R & J0 & J1 & M' & D' & O' & Dr & Mono & Cov & Len).
      exists st'. split; [exact R|]. split_conj; auto.
      * intros wr [<-|Iw]; [|apply Cov; exact Iw]. cbn [fst]. apply Mono.
        apply (si_dists_seen _ _ It). unfold mem. rewrite Dw. reflexivity.
      * simpl. lia.
    + destruct (match get (nx.seen (nx.this_side st d)) w with
                | Some sw => (dv + c <? sw)%float
                | None => true
                end) eqn:B.
      * destruct (mem_get_some _ _ (si_seen_paths _ _ It v Sv)) as [pv Pv].
        destruct (relax_one_spec d v w (dv + c)%float st pv I0 I1 M Pv E)
          as (st1 & R1 & T1 & O1 & Dr1 & M1).
        rewrite R1. cbn [bind].
        assert (It1 : side_inv d (nx.this_side st1 d)).
        { rewrite T1. apply (side_inv_push d _ v w pv); auto.
          intros u du Du. apply (leb_trans du dv (dv + c)%float);
            [apply (si_nonneg_d _ _ It u du Du)|exact Ndv|exact Nvw
            |apply (Od u du Du)|exact Lvw]. }
        assert (Io1 : side_inv (negb d) (nx.other_side st1 d)) by (rewrite O1; exact Io).
        destruct (sides_join d st1 It1 Io1) as [K0 K1].
        assert (Sv1 : mem (nx.seen (nx.this_side st1 d)) v = true).
        { rewrite T1. cbn [nx.seen]. rewrite mem_set, Sv. apply orb_true_r. }
        assert (Od1 : forall u du, get (nx.dists (nx.this_side st1 d)) u = Some du ->
                                   (du <=? dv)%float = true).
        { rewrite T1. cbn [nx.dists]. exact Od. }
        destruct (IH st1 Sub' K0 K1 M1 Sv1 Od1)
          as (st' & R & J0 & J1 & M' & D' & O' & Dr & Mono & Cov & Len).
        exists st'. split; [exact R|].
        split; [exact J0|]. split; [exact J1|]. split; [exact M'|].
        split; [rewrite D', T1; reflexivity|].
        split; [rewrite O', O1; reflexivity|].
        split; [rewrite Dr, Dr1; reflexivity|].
        split; [|split].
        -- intros y My. apply Mono. rewrite T1. cbn [nx.seen].
           rewrite mem_set, My. apply orb_true_r.
        -- intros wr [<-|Iw]; [|apply Cov; exact Iw]. cbn [fst]. apply Mono.
           rewrite T1. cbn [nx.seen]. rewrite mem_set, keqb_refl. reflexivity.
        -- rewrite T1 in Len. cbn [nx.fringe] in Len. simpl in *. lia.
      * destruct (IH st Sub' I0 I1 M Sv Od)
          as (st' & R & J0 & J1 & M' & D' & O' & Dr & Mono & Cov & Len).
        exists st'. split; [exact R|]. split_conj; auto.
        -- intros wr [<-|Iw]; [|apply Cov; exact Iw]. cbn [fst]. apply Mono.
           unfold mem. destruct (get (nx.seen (nx.this_side st d)) w); [reflexivity|discriminate].
        -- simpl. lia.
Qed.

(** The degrees of the nodes not yet finalised in a direction: a bound on
    the entries that direction can still push. *)
Definition pending_over (L : dict string (dict string nat)) (ds : dict string float) : nat :=
  fold_right (fun kv acc => (if mem ds (fst kv) then 0 else List.length (snd kv)) + acc) 0 L.

Definition measure (st : nx.bidi) : nat :=
  List.length (nx.fringe (nx.fwd st)) + List.length (nx.fringe (nx.bwd st)) +
  pending_over (nx._adj g) (nx.dists (nx.fwd st)) +
  pending_over (nx._adj g) (nx.dists (nx.bwd st)).

Lemma pending_over_set_le (L : dict string (dict string nat)) (ds : dict string float)
  (v : string) (x : float) :
  pending_over L (set ds v x) <= pending_over L ds.
Proof.
  induction L as [|[k nb] L IH]; simpl; [lia|].
  rewrite mem_set. destruct (keqb v k); simpl; destruct (mem ds k); lia.
Qed.

Lemma pending_over_set (L : dict string (dict string nat)) (ds : dict string float)
  (v : string) (x : float) (nbrs : dict string nat) :
  get L v = Some nbrs -> mem ds v = false ->
  pending_over L (set ds v x) + List.length nbrs <= pending_over L ds.
Proof.
  unfold pending_over.
  induction L as [|[k nb] L IH]; cbn [get fold_right fst snd]; [discriminate|].
  intros G M. rewrite mem_set. destruct (keqb k v) eqn:K.
  - apply keqb_eq in K; subst k. injection G as ->.
    rewrite keqb_refl, M. cbn [orb].
    pose proof (pending_over_set_le L ds v x) as Le. unfold pending_over in Le. lia.
  - specialize (IH G M). rewrite keqb_neq.
    + cbn [orb]. destruct (mem ds k); lia.
    + intros ->. rewrite keqb_refl in K. discriminate.
Qed.

Lemma measure_sides (d : bool) (st : nx.bidi) :
  measure st
  = List.length (nx.fringe (nx.this_side st d)) +
    List.length (nx.fringe (nx.other_side st d)) +
    pending_over (nx._adj g) (nx.dists (nx.this_side st d)) +
    pending_over (nx._adj g) (nx.dists (nx.other_side st d)).
Proof. unfold measure. destruct d; simpl; lia. Qed.

(** Where the search stands: before the first pop, between the first pop
    of each direction, or after both starts have been finalised. *)
Definition phase (st : nx.bidi) : Prop :=
  (nx.dir st = true /\
   nx.dists (nx.fwd st) = [] /\ nx.dists (nx.bwd st) = [] /\
   nx.fringe (nx.fwd st) = [(0%float, 0, source)] /\
   nx.fringe (nx.bwd st) = [(0%float, 1, target)])
  \/ (nx.dir st = false /\
      mem (nx.dists (nx.fwd st)) source = true /\
      mem (nx.dists (nx.fwd st)) target = false /\
      nx.dists (nx.bwd st) = [] /\
      nx.fringe (nx.bwd st) = [(0%float, 1, target)])
  \/ (mem (nx.dists (nx.fwd st)) source = true /\
      mem (nx.dists (nx.bwd st)) target = true).

Record loop_inv (st : nx.bidi) : Prop :=
  { li_fwd : side_inv false (nx.fwd st);
    li_bwd : side_inv true (nx.bwd st);
    li_cf : closed (nx.fwd st);
    li_cb : closed (nx.bwd st);
    li_meet : meet_inv st;
    li_common : forall v, mem (nx.dists (nx.fwd st)) v = true ->
                          mem (nx.dists (nx.bwd st)) v = true -> False;
    li_phase : phase st }.

(** With an empty fringe, the finalised nodes of a direction are all that
    its start reaches. *)
Lemma exhausted_reach (d : bool) (s : nx.side) (t : string) :
  side_inv d s -> closed s -> nx.fringe s = [] ->
  reach g (start d) t -> mem (nx.dists s) t = true.
Proof.
  intros I C F R.
  assert (P : forall w, mem (nx.seen s) w = true -> mem (nx.dists s) w = true).
  { intros w M. destruct (si_pending _ _ I w M) as [D|(e & Ie & _)]; [exact D|].
    rewrite F in Ie. destruct Ie. }
  apply (reach_closed g (fun x => mem (nx.dists s) x = true) (start d) t); auto.
  - apply P. apply (si_start _ _ I).
  - intros u v Mu E. apply P. eapply C; eauto.
Qed.

Lemma no_path_fwd (st : nx.bidi) :
  loop_inv st -> nx.fringe (nx.fwd st) = [] -> ~ reach g source target.
Proof.
  intros I F R.
  pose proof (exhausted_reach false _ target (li_fwd _ I) (li_cf _ I) F R) as M.
  destruct (li_phase _ I) as [P|[P|P]].
  - destruct P as (_ & _ & _ & Ff & _). rewrite F in Ff. discriminate.
  - destruct P as (_ & _ & Mt & _). congruence.
  - destruct P as (_ & Mt). exact (li_common _ I target M Mt).
Qed.

Lemma no_path_bwd (st : nx.bidi) :
  loop_inv st -> nx.fringe (nx.bwd st) = [] -> ~ reach g source target.
Proof.
  intros I F R. apply (reach_sym g WF) in R.
  pose proof (exhausted_reach true _ source (li_bwd _ I) (li_cb _ I) F R) as M.
  destruct (li_phase _ I) as [P|[P|P]].
  - destruct P as (_ & _ & _ & _ & Fb). rewrite F in Fb. discriminate.
  - destruct P as (_ & _ & _ & _ & Fb). rewrite F in Fb. discriminate.
  - destruct P as (Ms & _). exact (li_common _ I source Ms M).
Qed.

(** Popping an entry whose node is already finalised. *)
Lemma side_inv_stale (d : bool) (s : nx.side) (e : nx.entry) (rest : list nx.entry) :
  side_inv d s -> Permutation (e :: rest) (nx.fringe s) ->
  mem (nx.dists s) (entry_node e) = true ->
  side_inv d (nx.mkSide (nx.dists s) (nx.paths s) rest (nx.seen s)).
Proof.
  intros I P St.
  assert (Sub : forall x, In x rest -> In x (nx.fringe s)).
  { intros x Ix. eapply Permutation_in; [exact P|]. right; exact Ix. }
  constructor; cbn [nx.dists nx.paths nx.fringe nx.seen].
  - apply (si_paths _ _ I).
  - apply (si_seen_paths _ _ I).
  - apply (si_dists_seen _ _ I).
  - intros x Ix. apply (si_fringe_seen _ _ I). auto.
  - intros w M. destruct (si_pending _ _ I w M) as [D|(x & Ix & Nx)]; [left; exact D|].
    apply (Permutation_in _ (Permutation_sym P)) in Ix. destruct Ix as [<-|Ix].
    + left. rewrite <- Nx. exact St.
    + right. eauto.
  - intros x Ix. apply (si_nonneg_f _ _ I). auto.
  - apply (si_nonneg_d _ _ I).
  - intros w dw x G Ix. apply (si_order _ _ I w dw x G). auto.
  - apply (si_start _ _ I).
Qed.

(** Popping the least entry and finalising its node. *)
Lemma side_inv_finalize (d : bool) (s : nx.side) (e : nx.entry) (rest : list nx.entry) :
  side_inv d s -> Permutation (e :: rest) (nx.fringe s) ->
  (forall x, In x rest -> (entry_dist e <=? entry_dist x)%float = true) ->
  side_inv d (nx.mkSide (set (nx.dists s) (entry_node e) (entry_dist e))
                        (nx.paths s) rest (nx.seen s)) /\
  (forall u du, get (set (nx.dists s) (entry_node e) (entry_dist e)) u = Some du ->
                (du <=? entry_dist e)%float = true).
Proof.
  intros I P Min.
  assert (Sub : forall x, In x rest -> In x (nx.fringe s)).
  { intros x Ix. eapply Permutation_in; [exact P|]. right; exact Ix. }
  assert (Ie : In e (nx.fringe s)).
  { eapply Permutation_in; [exact P|]. left; reflexivity. }
  pose proof (si_nonneg_f _ _ I e Ie) as Ne.
  split.
  - constructor; cbn [nx.dists nx.paths nx.fringe nx.seen];
      [apply (si_paths _ _ I)|apply (si_seen_paths _ _ I)| | | | | | |apply (si_start _ _ I)].
    + intros w. rewrite mem_set. destruct (keqb (entry_node e) w) eqn:K; cbn [orb].
      * apply keqb_eq in K; subst w. intros _. apply (si_fringe_seen _ _ I e Ie).
      * apply (si_dists_seen _ _ I).
    + intros x Ix. apply (si_fringe_seen _ _ I). auto.
    + intros w M. rewrite mem_set.
      destruct (si_pending _ _ I w M) as [D|(x & Ix & Nx)].
      * left. rewrite D. apply orb_true_r.
      * apply (Permutation_in _ (Permutation_sym P)) in Ix. destruct Ix as [<-|Ix].
        -- left. rewrite Nx, keqb_refl. reflexivity.
        -- right. eauto.
    + intros x Ix. apply (si_nonneg_f _ _ I). auto.
    + intros w dw. rewrite get_set. destruct (keqb (entry_node e) w).
      * intros [= <-]. exact Ne.
      * apply (si_nonneg_d _ _ I).
    + intros w dw x. rewrite get_set. destruct (keqb (entry_node e) w).
      * intros [= <-] Ix. apply Min; exact Ix.
      * intros G Ix. apply (si_order _ _ I w dw x G). auto.
  - intros u du. rewrite get_set. destruct (keqb (entry_node e) u).
    + intros [= <-]. apply leb_refl; exact Ne.
    + intros G. apply (si_order _ _ I u du e G Ie).
Qed.

(** The state after the pop in direction [d], and after finalising [v]. *)
Definition popped (st : nx.bidi) (d : bool) (rest : list nx.entry) : nx.bidi :=
  let s := nx.this_side st d in
  let st1 := nx.with_side st d (nx.mkSide (nx.dists s) (nx.paths s) rest (nx.seen s)) in
  nx.mkBidi (nx.fwd st1) (nx.bwd st1) (nx.count st1) (nx.finaldist st1)
            (nx.finalpath st1) d.

Definition finalised (st : nx.bidi) (d : bool) (rest : list nx.entry) (v : string)
  (dist : float) : nx.bidi :=
  let st1 := popped st d rest in
  let s1 := nx.this_side st1 d in
  nx.with_side st1 d (nx.mkSide (set (nx.dists s1) v dist) (nx.paths s1)
                                (nx.fringe s1) (nx.seen s1)).

(** One pass of [while fringe[0] and fringe[1]]: the loop goes on with a
    new state, or returns. *)
Definition dijkstra_step (st : nx.bidi) : result (nx.bidi + float * list string) :=
  let d := negb (nx.dir st) in
  match nx.heappop (nx.fringe (nx.this_side st d)) with
  | None => Raise IndexError
  | Some ((dist, _, v), rest) =>
      if mem (nx.dists (nx.this_side st d)) v then Ok (inl (popped st d rest))
      else
        let st2 := finalised st d rest v dist in
        if mem (nx.dists (nx.other_side st2 d)) v then
          match nx.finaldist st2 with
          | None => Raise UnboundLocalError
          | Some fd => Ok (inr (fd, nx.finalpath st2))
          end
        else
          nbrs <- nx.adj g v ;;
          st3 <- nx.relax g weight d v dist nbrs st2 ;;
          Ok (inl st3)
  end.

Lemma dijkstra_loop_unfold (fuel : nat) (st : nx.bidi) :
  nx.dijkstra_loop (S fuel) g weight st
  = match nx.fringe (nx.fwd st), nx.fringe (nx.bwd st) with
    | [], _ => Raise NetworkXNoPath
    | _ :: _, [] => Raise NetworkXNoPath
    | _ :: _, _ :: _ =>
        r <- dijkstra_step st ;;
        match r with
        | inl st' => nx.dijkstra_loop fuel g weight st'
        | inr res => Ok res
        end
    end.
Proof.
  cbn [nx.dijkstra_loop]. unfold dijkstra_step, finalised, popped.
  destruct (nx.fringe (nx.fwd st)); [reflexivity|].
  destruct (nx.fringe (nx.bwd st)); [reflexivity|].
  destruct (nx.heappop (nx.fringe (nx.this_side st (negb (nx.dir st)))))
    as [[[[dist c] v] rest]|]; [|reflexivity].
  cbv zeta.
  destruct (mem _ v); [reflexivity|].
  destruct (mem _ v); [destruct (nx.finaldist _); reflexivity|].
  destruct (nx.adj g v) as [nbrs|]; [|reflexivity]. cbn [bind].
  destruct (nx.relax _ _ _ _ _ _ _); reflexivity.
Qed.

Lemma loop_inv_build (d : bool) (st : nx.bidi) :
  side_inv d (nx.this_side st d) -> side_inv (negb d) (nx.other_side st d) ->
  closed (nx.this_side st d) -> closed (nx.other_side st d) ->
  meet_inv st ->
  (forall v, mem (nx.dists (nx.this_side st d)) v = true ->
             mem (nx.dists (nx.other_side st d)) v = true -> False) ->
  phase st -> loop_inv st.
Proof. destruct d; simpl; intros; constructor; eauto. Qed.

Lemma loop_inv_sides (d : bool) (st : nx.bidi) :
  loop_inv st ->
  closed (nx.this_side st d) /\ closed (nx.other_side st d) /\
  (forall v, mem (nx.dists (nx.this_side st d)) v = true ->
             mem (nx.dists (nx.other_side st d)) v = true -> False).
Proof.
  intros I. destruct d; simpl; split_conj;
    try apply (li_cf _ I); try apply (li_cb _ I).
  - intros v A B. exact (li_common _ I v B A).
  - apply (li_common _ I).
Qed.

Lemma meet_inv_ext (st st' : nx.bidi) :
  nx.seen (nx.fwd st') = nx.seen (nx.fwd st) ->
  nx.seen (nx.bwd st') = nx.seen (nx.bwd st) ->
  nx.finalpath st' = nx.finalpath st ->
  nx.finaldist st' = nx.finaldist st ->
  meet_inv st -> meet_inv st'.
Proof.
  intros E0 E1 E2 E3 [A B]. constructor; rewrite ?E0, ?E1, ?E2, ?E3; assumption.
Qed.

Lemma meet_seen (d : bool) (st : nx.bidi) (w : string) :
  meet_inv st ->
  mem (nx.seen (nx.this_side st d)) w = true ->
  mem (nx.seen (nx.other_side st d)) w = true ->
  nx.finalpath st <> [].
Proof. intros M. destruct d; simpl; intros A B; eapply mi_met; eauto. Qed.

Lemma popped_facts (st : nx.bidi) (d : bool) (rest : list nx.entry) :
  nx.this_side (popped st d rest) d
  = nx.mkSide (nx.dists (nx.this_side st d)) (nx.paths (nx.this_side st d)) rest
              (nx.seen (nx.this_side st d)) /\
  nx.other_side (popped st d rest) d = nx.other_side st d /\
  nx.seen (nx.fwd (popped st d rest)) = nx.seen (nx.fwd st) /\
  nx.seen (nx.bwd (popped st d rest)) = nx.seen (nx.bwd st) /\
  nx.finalpath (popped st d rest) = nx.finalpath st /\
  nx.finaldist (popped st d rest) = nx.finaldist st /\
  nx.dir (popped st d rest) = d.
Proof. destruct d; simpl; split_conj; reflexivity. Qed.

Lemma finalised_facts (st : nx.bidi) (d : bool) (rest : list nx.entry) (v : string)
  (dist : float) :
  nx.this_side (finalised st d rest v dist) d
  = nx.mkSide (set (nx.dists (nx.this_side st d)) v dist) (nx.paths (nx.this_side st d))
              rest (nx.seen (nx.this_side st d)) /\
  nx.other_side (finalised st d rest v dist) d = nx.other_side st d /\
  nx.seen (nx.fwd (finalised st d rest v dist)) = nx.seen (nx.fwd st) /\
  nx.seen (nx.bwd (finalised st d rest v dist)) = nx.seen (nx.bwd st) /\
  nx.finalpath (finalised st d rest v dist) = nx.finalpath st /\
  nx.finaldist (finalised st d rest v dist) = nx.finaldist st /\
  nx.dir (finalised st d rest v dist) = d.
Proof. destruct d; simpl; split_conj; reflexivity. Qed.

Lemma phase_popped (st : nx.bidi) (rest : list nx.entry) (v : string) :
  phase st ->
  mem (nx.dists (nx.this_side st (negb (nx.dir st)))) v = true ->
  phase (popped st (negb (nx.dir st)) rest).
Proof.
  intros [P|[P|P]] M.
  - destruct P as (Dir & D0 & _). rewrite Dir in M. simpl in M. rewrite D0 in M. discriminate.
  - destruct P as (Dir & _ & _ & D1 & _). rewrite Dir in M. simpl in M.
    rewrite D1 in M. discriminate.
  - right. right. destruct (nx.dir st); simpl; exact P.
Qed.

Lemma phase_finalised (st st3 : nx.bidi) (dist : float) (c : nat) (v : string) :
  phase st ->
  In (dist, c, v) (nx.fringe (nx.this_side st (negb (nx.dir st)))) ->
  nx.dists (nx.this_side st3 (negb (nx.dir st)))
  = set (nx.dists (nx.this_side st (negb (nx.dir st)))) v dist ->
  nx.other_side st3 (negb (nx.dir st)) = nx.other_side st (negb (nx.dir st)) ->
  nx.dir st3 = negb (nx.dir st) ->
  phase st3.
Proof.
  intros [P|[P|P]] Ie D O Dr.
  - destruct P as (Dir & D0 & D1 & F0 & F1). rewrite Dir in *. simpl in *.
    rewrite F0 in Ie. destruct Ie as [Ie|[]]. injection Ie as _ _ <-.
    right. left. rewrite D, D0, O. split_conj; auto.
    + rewrite mem_set, keqb_refl. reflexivity.
    + rewrite mem_set, keqb_neq by exact NEQ. reflexivity.
  - destruct P as (Dir & Ms & Mt & D1 & F1). rewrite Dir in *. simpl in *.
    rewrite F1 in Ie. destruct Ie as [Ie|[]]. injection Ie as _ _ <-.
    right. right. rewrite D, O. split; [exact Ms|].
    rewrite mem_set, keqb_refl. reflexivity.
  - destruct P as (Ms & Mt). right. right.
    destruct (nx.dir st); simpl in *; rewrite D, O; split; auto;
      rewrite mem_set; rewrite ?Ms, ?Mt; apply orb_true_r.
Qed.

Lemma step_spec (st : nx.bidi) :
  loop_inv st -> nx.fringe (nx.fwd st) <> [] -> nx.fringe (nx.bwd st) <> [] ->
  match dijkstra_step st with
  | Ok (inl st') => loop_inv st' /\ measure st' < measure st
  | Ok (inr (_, p)) => walk g source target p
  | Raise _ => False
  end.
Proof.
  intros I F0 F1. unfold dijkstra_step.
  pose proof (phase_popped st) as PhP. pose proof (phase_finalised st) as PhF.
  set (d := negb (nx.dir st)) in *.
  destruct (sides_split d st (li_fwd _ I) (li_bwd _ I)) as [It Io].
  destruct (loop_inv_sides d st I) as (Ct & Co & Cm).
  assert (Ft : nx.fringe (nx.this_side st d) <> []) by (destruct d; assumption).
  destruct (nx.fringe (nx.this_side st d)) as [|e0 h] eqn:Fr; [congruence|].
  cbn [nx.heappop].
  destruct (nx.pop_min e0 h) as [e rest] eqn:Pm.
  pose proof (pop_min_perm _ _ _ _ Pm) as P.
  assert (Nn : forall x, In x (e0 :: h) -> nonneg (entry_dist x)).
  { intros x Ix. apply (si_nonneg_f _ _ It). rewrite Fr. exact Ix. }
  pose proof (pop_min_least _ _ _ _ Pm Nn) as Least.
  assert (Min : forall x, In x rest -> (entry_dist e <=? entry_dist x)%float = true).
  { intros x Ix. apply Least. eapply Permutation_in; [exact P|]. right; exact Ix. }
  pose proof (Permutation_length P) as Len. simpl in Len.
  rewrite <- Fr in P.
  assert (Ie : In e (nx.fringe (nx.this_side st d))).
  { eapply Permutation_in; [exact P|]. left; reflexivity. }
  pose proof (si_fringe_seen _ _ It e Ie) as Sv.
  pose proof (si_nonneg_f _ _ It e Ie) as Ne.
  destruct e as [[dist c] v]. unfold entry_node, entry_dist in Sv, Ne, Min. cbn [fst snd] in *.
  pose proof (measure_sides d st) as Mst. rewrite Fr in Mst.
  destruct (mem (nx.dists (nx.this_side st d)) v) eqn:Stale.
  - (* the popped entry is stale *)
    destruct (popped_facts st d rest) as (T & O & S0 & S1 & Fp & Fd & Dr).
    split.
    + apply (loop_inv_build d).
      * rewrite T. apply (side_inv_stale d _ (dist, c, v)); auto.
      * rewrite O. exact Io.
      * rewrite T. exact Ct.
      * rewrite O. exact Co.
      * apply (meet_inv_ext st); auto. apply (li_meet _ I).
      * rewrite T, O. exact Cm.
      * apply (PhP rest v (li_phase _ I) Stale).
    + rewrite (measure_sides d (popped st d rest)), T, O. cbn [nx.fringe nx.dists].
      simpl in Mst. lia.
  - (* the node is finalised *)
    cbv zeta.
    destruct (finalised_facts st d rest v dist) as (T & O & S0 & S1 & Fp & Fd & Dr).
    destruct (side_inv_finalize d _ (dist, c, v) rest It P Min) as [It2 Od].
    unfold entry_node, entry_dist in It2, Od. cbn [fst snd] in It2, Od.
    assert (M2 : meet_inv (finalised st d rest v dist)).
    { apply (meet_inv_ext st); auto. apply (li_meet _ I). }
    rewrite O.
    destruct (mem (nx.dists (nx.other_side st d)) v) eqn:Other.
    + (* finalised from both ends: return *)
      pose proof (si_dists_seen _ _ Io v Other) as So.
      pose proof (meet_seen d st v (li_meet _ I) Sv So) as Nf.
      destruct (mi_path _ (li_meet _ I) Nf) as [W Nd].
      rewrite Fd, Fp. destruct (nx.finaldist st); [exact W|congruence].
    + (* relax the neighbours *)
      pose proof (side_seen_node d _ v It Sv) as Nv. unfold nx.adj, getitem.
      destruct (mem_get_some _ _ Nv) as [nbrs Gv]. rewrite Gv. cbn [bind].
      assert (It2' : side_inv d (nx.this_side (finalised st d rest v dist) d))
        by (rewrite T; exact It2).
      assert (Io2 : side_inv (negb d) (nx.other_side (finalised st d rest v dist) d))
        by (rewrite O; exact Io).
      destruct (sides_join d _ It2' Io2) as [K0 K1].
      assert (Sv2 : mem (nx.seen (nx.this_side (finalised st d rest v dist) d)) v = true)
        by (rewrite T; exact Sv).
      assert (Od2 : forall u du,
                 get (nx.dists (nx.this_side (finalised st d rest v dist) d)) u = Some du ->
                 (du <=? dist)%float = true) by (rewrite T; exact Od).
      destruct (relax_spec d v dist nbrs Gv Ne nbrs (finalised st d rest v dist)
                  (fun wr H => H) K0 K1 M2 Sv2 Od2)
        as (st3 & R & J0 & J1 & M3 & D3 & O3 & Dr3 & Mono & Cov & Len3).
      rewrite R. cbn [bind].
      rewrite T in D3, Mono, Len3. cbn [nx.dists nx.seen nx.fringe] in D3, Mono, Len3.
      rewrite O in O3.
      destruct (sides_split d st3 J0 J1) as [It3 Io3].
      split.
      * apply (loop_inv_build d); auto.
        -- intros u Mu w E. rewrite D3 in Mu. rewrite mem_set in Mu.
           destruct (keqb_dec v u) as [<-|N].
           ++ unfold nx.has_edge in E. rewrite Gv in E.
              unfold mem in E. destruct (get nbrs w) as [r|] eqn:Gw; [|discriminate].
              apply (Cov (w, r)). apply get_In. exact Gw.
           ++ rewrite keqb_neq in Mu by exact N. apply Mono. eapply Ct; eauto.
        -- rewrite O3. exact Co.
        -- intros u Mu Mo. rewrite D3 in Mu. rewrite O3 in Mo. rewrite mem_set in Mu.
           destruct (keqb_dec v u) as [<-|N]; [congruence|].
           rewrite keqb_neq in Mu by exact N. eapply Cm; eauto.
        -- assert (Ie' : In (dist, c, v) (e0 :: h)) by (rewrite <- Fr; exact Ie).
           apply (PhF st3 dist c v (li_phase _ I) Ie' D3 O3).
           rewrite Dr3. exact Dr.
      * rewrite (measure_sides d st3), D3, O3.
        pose proof (pending_over_set (nx._adj g) (nx.dists (nx.this_side st d)) v dist nbrs
                      Gv Stale).
        simpl in Mst. lia.
Qed.

Lemma dijkstra_loop_spec (fuel : nat) :
  forall st, loop_inv st -> measure st < fuel ->
    match nx.dijkstra_loop fuel g weight st with
    | Ok (_, p) => walk g source target p
    | Raise e => e = NetworkXNoPath /\ ~ reach g source target
    end.
Proof.
  induction fuel as [|fuel IH]; intros st I M; [lia|].
  rewrite dijkstra_loop_unfold.
  destruct (nx.fringe (nx.fwd st)) as [|e0 h0] eqn:F0.
  { split; [reflexivity|]. apply (no_path_fwd st I F0). }
  destruct (nx.fringe (nx.bwd st)) as [|e1 h1] eqn:F1.
  { split; [reflexivity|]. apply (no_path_bwd st I F1). }
  pose proof (step_spec st I) as S. rewrite F0, F1 in S.
  specialize (S ltac:(discriminate) ltac:(discriminate)).
  destruct (dijkstra_step st) as [[st'|[fd p]]|e]; cbn [bind].
  - destruct S as [I' M']. apply IH; [exact I'|lia].
  - exact S.
  - destruct S.
Qed.

Definition dijkstra_init : nx.bidi :=
  nx.mkBidi (nx.mkSide [] [(source, [source])] [(0%float, 0, source)] [(source, 0%float)])
            (nx.mkSide [] [(target, [target])] [(0%float, 1, target)] [(target, 0%float)])
            2 None [] true.

Lemma side_inv_init (d : bool) (c : nat) :
  side_inv d (nx.mkSide [] [(start d, [start d])] [(0%float, c, start d)]
                        [(start d, 0%float)]).
Proof.
  constructor; cbn [nx.dists nx.paths nx.fringe nx.seen].
  - intros w pw. cbn [get]. destruct (keqb (start d) w) eqn:K; [|discriminate].
    apply keqb_eq in K; subst w. intros [= <-]. constructor.
  - intros w. unfold mem. cbn [get]. destruct (keqb (start d) w); auto.
  - intros w. unfold mem. cbn [get]. discriminate.
  - intros e [<-|[]]. unfold entry_node, mem. cbn [snd get]. rewrite keqb_refl. reflexivity.
  - intros w. unfold mem. cbn [get]. destruct (keqb (start d) w) eqn:K; [|discriminate].
    apply keqb_eq in K; subst w. intros _. right.
    exists (0%float, c, start d). split; [left; reflexivity|reflexivity].
  - intros e [<-|[]]. exact nonneg_zero.
  - intros w dw. cbn [get]. discriminate.
  - intros w dw e. cbn [get]. discriminate.
  - unfold mem. cbn [get]. rewrite keqb_refl. reflexivity.
Qed.

Lemma pending_over_nil (L : dict string (dict string nat)) :
  pending_over L [] = fold_right (fun kv acc => List.length (snd kv) + acc) 0 L.
Proof. induction L as [|[k nb] L IH]; simpl; [reflexivity|]. rewrite IH. reflexivity. Qed.

Lemma loop_inv_init : loop_inv dijkstra_init /\ measure dijkstra_init < nx.dijkstra_fuel g.
Proof.
  split.
  - constructor; unfold dijkstra_init; cbn [nx.fwd nx.bwd].
    + apply (side_inv_init false 0).
    + apply (side_inv_init true 1).
    + intros v M. discriminate.
    + intros v M. discriminate.
    + constructor; cbn [nx.fwd nx.bwd nx.seen nx.finalpath nx.finaldist].
      * intros w M0 M1. exfalso. apply NEQ.
        unfold mem in M0, M1. cbn [get] in M0, M1.
        destruct (keqb source w) eqn:K0; [|discriminate].
        destruct (keqb target w) eqn:K1; [|discriminate].
        apply keqb_eq in K0, K1. congruence.
      * intros N. congruence.
    + intros v M. discriminate.
    + left. cbn. auto.
  - unfold measure, dijkstra_init, nx.dijkstra_fuel, nx.total_degree.
    cbn [nx.fwd nx.bwd nx.fringe nx.dists]. rewrite pending_over_nil. simpl. lia.
Qed.

End Dijkstra.

(** The weighted search returns a walk from [source] to [target] when
    there is one, and raises [NetworkXNoPath] otherwise, as long as the
    weight of every link is a non-negative number. *)
Lemma bidirectional_dijkstra_spec (g : nx.Graph) (weight : nx.weightfn)
  (source target : string) :
  wf_graph g = true ->
  (forall u nbrs v r, get (nx._adj g) u = Some nbrs -> get nbrs v = Some r ->
                      weight_ok weight (nx.deref g r)) ->
  nx.has_node g source = true -> nx.has_node g target = true ->
  match nx.bidirectional_dijkstra g source target weight with
  | Ok (_, p) => walk g source target p
  | Raise e => e = NetworkXNoPath /\ ~ reach g source target
  end.
Proof.
  intros WF WOK S T. unfold nx.bidirectional_dijkstra. rewrite S, T. cbn [negb].
  rewrite (wf_has_node g WF) in S, T.
  destruct (String.eqb source target) eqn:E.
  - apply String.eqb_eq in E; subst target. constructor.
  - assert (N : source <> target).
    { intros ->. rewrite String.eqb_refl in E. discriminate. }
    destruct (loop_inv_init g source target N) as [I M].
    apply (dijkstra_loop_spec g WF weight WOK source target S T N); assumption.
Qed.

(** ** The best path of a flow *)

(** The link invariants of the data model that the search relies on:
    latency, jitter and packet loss are present and not negative, the
    bandwidth is present and positive (so no NaN either). *)
Definition link_valid (d : nx.attrs) : bool :=
  match get d "latency"%string, get d "jitter"%string,
        get d "packet_loss"%string, get d "bandwidth"%string with
  | Some l, Some j, Some p, Some b =>
      ((0 <=? l) && (0 <=? j) && (0 <=? p) && (0 <? b))%float
  | _, _, _, _ => false
  end.

Definition links_valid (g : nx.Graph) : bool :=
  forallb (fun vn => forallb (fun wr => link_valid (nx.deref g (snd wr))) (snd vn))
          (nx._adj g).

Lemma links_valid_link (g : nx.Graph) (u v : string) (nbrs : dict string nat) (r : nat) :
  links_valid g = true ->
  get (nx._adj g) u = Some nbrs -> get nbrs v = Some r ->
  link_valid (nx.deref g r) = true.
Proof.
  unfold links_valid. intros V G1 G2. rewrite forallb_forall in V.
  specialize (V _ (get_In _ _ _ G1)). cbn [snd] in V. rewrite forallb_forall in V.
  exact (V _ (get_In _ _ _ G2)).
Qed.

Lemma link_valid_weights (d : nx.attrs) :
  link_valid d = true ->
  weight_ok (nx.attr_weight "latency") d /\
  weight_ok throughput_weight d /\
  weight_ok reliability_weight d.
Proof.
  unfold link_valid.
  destruct (get d "latency"%string) as [l|] eqn:Gl; [|discriminate].
  destruct (get d "jitter"%string) as [j|] eqn:Gj; [|discriminate].
  destruct (get d "packet_loss"%string) as [p|] eqn:Gp; [|discriminate].
  destruct (get d "bandwidth"%string) as [b|] eqn:Gb; [|discriminate].
  rewrite !andb_true_iff. intros [[[Hl Hj] Hp] Hb]. split; [|split]; intros x y.
  - exists l. unfold nx.attr_weight, get_default. rewrite Gl. auto.
  - exists (1 / b)%float. unfold throughput_weight, getitem, py_div. rewrite Gb. cbn [bind].
    rewrite (pos_not_zero b Hb). split; [reflexivity|]. apply one_div_pos_nonneg; exact Hb.
  - exists (p + j * 0.1)%float. unfold reliability_weight, getitem. rewrite Gp, Gj. cbn [bind].
    split; [reflexivity|]. apply add_nonneg_ge; [exact Hp|]. apply mul_tenth_nonneg; exact Hj.
Qed.

(** On a topology with valid links, the path of a registered flow whose
    endpoints are nodes is a walk from source to destination, and the only
    failure is [NetworkXNoPath], raised when the two are not connected. *)
Lemma calculate_best_path_spec (c : SDWANController) (flow_id : string) (flow : TrafficFlow) :
  wf_graph (topology c) = true ->
  links_valid (topology c) = true ->
  get (flows c) flow_id = Some flow ->
  nx.has_node (topology c) (source flow) = true ->
  nx.has_node (topology c) (destination flow) = true ->
  match calculate_best_path c flow_id with
  | Ok p => walk (topology c) (source flow) (destination flow) p
  | Raise e => e = NetworkXNoPath /\
               ~ reach (topology c) (source flow) (destination flow)
  end.
Proof.
  intros WF V F S T. unfold calculate_best_path, getitem. rewrite F. cbn [bind].
  assert (W : forall weight,
             (forall d, link_valid d = true -> weight_ok weight d) ->
             match nx.shortest_path (topology c) (source flow) (destination flow)
                                    (Some weight) with
             | Ok p => walk (topology c) (source flow) (destination flow) p
             | Raise e => e = NetworkXNoPath /\
                          ~ reach (topology c) (source flow) (destination flow)
             end).
  { intros weight Hw. unfold nx.shortest_path.
    pose proof (bidirectional_dijkstra_spec (topology c) weight (source flow)
                  (destination flow) WF) as D.
    destruct (nx.bidirectional_dijkstra (topology c) (source flow) (destination flow) weight)
      as [[dist p]|e]; cbn [bind]; apply D; auto;
      intros u nbrs v r G1 G2; apply Hw; eapply links_valid_link; eauto. }
  destruct (String.eqb (sensitivity flow) "latency").
  { apply W. intros d Hd. apply (link_valid_weights d Hd). }
  destruct (String.eqb (sensitivity flow) "throughput").
  { apply W. intros d Hd. apply (link_valid_weights d Hd). }
  destruct (String.eqb (sensitivity flow) "reliability").
  { apply W. intros d Hd. apply (link_valid_weights d Hd). }
  unfold nx.shortest_path. apply bidirectional_shortest_path_spec; assumption.
Qed.

(** Three sites in a row, the first link with bandwidth 0, and three
    sites in a row, the first link with latency -1; on each, one flow from
    end to end with a weighted sensitivity and one with none. *)
Definition demo_zero_bandwidth : SDWANController :=
  let c := SDWANController_init in
  let c := add_link c "A" "B" (mkNetworkLink 10 1 0 0 1) in
  let c := add_link c "B" "C" (mkNetworkLink 10 1 0 50 1) in
  let c := add_traffic_flow c "bulk" (mkTrafficFlow "A" "C" 5 3 "throughput") in
  add_traffic_flow c "any" (mkTrafficFlow "A" "C" 5 3 "unspecified").

Definition demo_negative_latency : SDWANController :=
  let c := SDWANController_init in
  let c := add_link c "A" "B" (mkNetworkLink (-1) 1 0 50 1) in
  let c := add_link c "B" "C" (mkNetworkLink 10 1 0 50 1) in
  let c := add_traffic_flow c "fast" (mkTrafficFlow "A" "C" 5 3 "latency") in
  add_traffic_flow c "any" (mkTrafficFlow "A" "C" 5 3 "unspecified").

(** C7, as stated, fails on topologies [add_link] accepts: with a link of
    bandwidth 0 between connected endpoints that are both nodes, the
    throughput flow gets no path and fails with [ZeroDivisionError], not
    with [NetworkXNoPath], while the flow without sensitivity between the
    same endpoints gets the path; with a link of latency -1 the latency
    flow fails with [ValueError] in the same way.  So the weight choice does
    change whether a path is found. *)
Lemma invalid_link_breaks_weighted_search :
  nx.has_node (topology demo_zero_bandwidth) "A" = true /\
  nx.has_node (topology demo_zero_bandwidth) "C" = true /\
  calculate_best_path demo_zero_bandwidth "any"
  = Ok ["A"%string; "B"%string; "C"%string] /\
  calculate_best_path demo_zero_bandwidth "bulk" = Raise ZeroDivisionError /\
  nx.has_node (topology demo_negative_latency) "A" = true /\
  nx.has_node (topology demo_negative_latency) "C" = true /\
  calculate_best_path demo_negative_latency "any"
  = Ok ["A"%string; "B"%string; "C"%string] /\
  calculate_best_path demo_negative_latency "fast" = Raise ValueError.
Proof. split_compute. Qed.

(** C7 (amended). On every topology whose links satisfy the link
    invariants of the data model (latency, jitter and packet loss not
    negative, bandwidth positive), for every registered flow whose source
    and destination are nodes, and for every sensitivity:
    [calculate_best_path] fails with [NetworkXNoPath] exactly when source
    and destination are not connected; when they are connected it returns
    a path; and every path it returns starts at the source, ends at the
    destination and follows links. *)
Theorem best_path_connects_endpoints (c : SDWANController) (flow_id : string)
  (flow : TrafficFlow) :
  wf_graph (topology c) = true ->
  links_valid (topology c) = true ->
  get (flows c) flow_id = Some flow ->
  nx.has_node (topology c) (source flow) = true ->
  nx.has_node (topology c) (destination flow) = true ->
  (calculate_best_path c flow_id = Raise NetworkXNoPath <->
   ~ reach (topology c) (source flow) (destination flow)) /\
  (reach (topology c) (source flow) (destination flow) ->
   exists p, calculate_best_path c flow_id = Ok p) /\
  (forall p, calculate_best_path c flow_id = Ok p ->
     hd_error p = Some (source flow) /\
     last_item p = Ok (destination flow) /\
     walk (topology c) (source flow) (destination flow) p).
Proof.
  intros WF V F S T.
  pose proof (calculate_best_path_spec c flow_id flow WF V F S T) as P.
  destruct (calculate_best_path c flow_id) as [p|e].
  - split; [|split].
    + split; [discriminate|]. intros N. exfalso. apply N. eapply walk_reach; eauto.
    + intros _. eauto.
    + intros p' [= <-]. split; [eapply walk_hd; eauto|].
      split; [eapply walk_last; eauto|exact P].
  - destruct P as [-> N]. split; [|split].
    + split; auto.
    + intros R. contradiction.
    + intros p' E. discriminate.
Qed.

Lemma best_path_connects_endpoints_witness :
  (exists p, calculate_best_path demo_controller "voip1" = Ok p /\
             hd_error p = Some "Branch1"%string /\ last_item p = Ok "HQ"%string) /\
  ~ reach (topology demo_with_island) "Branch1" "Island".
Proof.
  split.
  - exists ["Branch1"%string; "HQ"%string]. split; [vm_compute; reflexivity|].
    assert (E : calculate_best_path demo_controller "voip1"
                = Ok ["Branch1"%string; "HQ"%string]) by (vm_compute; reflexivity).
    destruct (best_path_connects_endpoints demo_controller "voip1"
                (mkTrafficFlow "Branch1" "HQ" 0.5 1 "latency")) as (_ & _ & H);
      try (vm_compute; reflexivity).
    destruct (H _ E) as (H1 & H2 & _). split; assumption.
  - destruct (best_path_connects_endpoints demo_with_island "iso"
                (mkTrafficFlow "Branch1" "Island" 1 3 "latency")) as (H & _ & _);
      try (vm_compute; reflexivity).
    apply H. vm_compute. reflexivity.
Defined.

(** ** Controllers built through the interface *)

(** The reference stored for the link from [x] to [w], if any. *)
Definition link_ref (g : nx.Graph) (x w : string) : option nat :=
  match get (nx._adj g) x with
  | Some nb => get nb w
  | None => None
  end.

(** The graph invariant, stated on lookups. *)
Definition wf_spec (g : nx.Graph) : Prop :=
  NoDup (keys (nx._adj g)) /\
  (forall v nbrs, get (nx._adj g) v = Some nbrs -> NoDup (keys nbrs)) /\
  (forall x w r, link_ref g x w = Some r ->
     r < List.length (nx._data g) /\ link_ref g w x = Some r) /\
  (forall n, mem (nx._node g) n = mem (nx._adj g) n).

Lemma wf_graph_spec (g : nx.Graph) : wf_graph g = true <-> wf_spec g.
Proof.
  split.
  - intros WF. split; [apply wf_adj_NoDup; exact WF|]. split; [|split].
    + intros v nbrs G. apply (wf_nbrs g WF v nbrs G).
    + intros x w r. unfold link_ref.
      destruct (get (nx._adj g) x) as [nb|] eqn:G1; [|discriminate].
      intros G2. destruct (wf_edge_sym g WF x w nb r G1 G2) as [L (nb' & G3 & G4)].
      rewrite G3. auto.
    + intros n. apply (wf_has_node g WF).
  - intros (ND & NB & SY & NM). unfold wf_graph. rewrite !andb_true_iff.
    split; [split; [split|]|].
    + apply NoDup_nodupb. exact ND.
    + apply forallb_forall. intros [v nbrs] I. cbn [fst snd].
      pose proof (In_get_NoDup _ _ _ ND I) as G1.
      apply andb_true_iff. split; [apply NoDup_nodupb; eapply NB; eauto|].
      apply forallb_forall. intros [w r] I2.
      pose proof (In_get_NoDup _ _ _ (NB _ _ G1) I2) as G2.
      destruct (SY v w r) as [L S]; [unfold link_ref; rewrite G1; exact G2|].
      unfold wf_nbr. cbn [fst snd]. apply andb_true_iff. split; [apply Nat.ltb_lt; exact L|].
      unfold link_ref in S. destruct (get (nx._adj g) w) as [nb|]; [|discriminate].
      rewrite S. apply Nat.eqb_refl.
    + apply forallb_forall. intros n I. rewrite <- NM. apply mem_In_keys. exact I.
    + apply forallb_forall. intros n I. rewrite NM. apply mem_In_keys. exact I.
Qed.

Lemma link_ref_mem (g : nx.Graph) (x w : string) (r : nat) :
  link_ref g x w = Some r -> mem (nx._adj g) x = true.
Proof.
  unfold link_ref, mem. destruct (get (nx._adj g) x); [reflexivity|discriminate].
Qed.

Lemma wf_spec_empty : wf_spec nx.empty.
Proof.
  split; [constructor|]. split; [|split].
  - intros v nbrs G. discriminate.
  - intros x w r G. discriminate.
  - reflexivity.
Qed.

(** A node created with an empty adjacency dictionary. *)
Lemma wf_spec_new_node (g : nx.Graph) (u : string) (a : dict string string) :
  wf_spec g -> mem (nx._node g) u = false ->
  wf_spec (nx.mkGraph (set (nx._node g) u a) (set (nx._adj g) u []) (nx._data g)).
Proof.
  intros (ND & NB & SY & NM) M.
  assert (MA : mem (nx._adj g) u = false) by (rewrite <- NM; exact M).
  assert (LR : forall x w r,
             link_ref (nx.mkGraph (set (nx._node g) u a) (set (nx._adj g) u []) (nx._data g))
                      x w = Some r -> link_ref g x w = Some r).
  { intros x w r. unfold link_ref. cbn [nx._adj]. rewrite get_set.
    destruct (keqb u x); [discriminate|auto]. }
  split; [apply NoDup_keys_set; exact ND|]. split; [|split].
  - intros v nbrs. cbn [nx._adj]. rewrite get_set. destruct (keqb u v).
    + intros [= <-]. constructor.
    + apply NB.
  - intros x w r G. apply LR in G. destruct (SY x w r G) as [L S].
    split; [exact L|]. unfold link_ref in *. cbn [nx._adj]. rewrite get_set.
    destruct (keqb u w) eqn:E; [|exact S].
    apply keqb_eq in E; subst w. unfold mem in MA.
    destruct (get (nx._adj g) u); discriminate.
  - intros n. cbn [nx._node nx._adj]. rewrite !mem_set, NM. reflexivity.
Qed.

Lemma wf_spec_ensure_node (g : nx.Graph) (u : string) :
  wf_spec g -> wf_spec (nx.ensure_node g u).
Proof.
  intros W. unfold nx.ensure_node. destruct (mem (nx._node g) u) eqn:M; [exact W|].
  apply wf_spec_new_node; assumption.
Qed.

Lemma wf_spec_add_node (g : nx.Graph) (n : string) (attr : list (string * string)) :
  wf_spec g -> wf_spec (nx.add_node g n attr).
Proof.
  intros W. unfold nx.add_node. destruct (get (nx._node g) n) as [a|] eqn:G.
  - destruct W as (ND & NB & SY & NM). split; [exact ND|]. split; [exact NB|].
    split; [exact SY|]. intros x. cbn [nx._node nx._adj]. rewrite mem_set, <- NM.
    destruct (keqb n x) eqn:E; [|reflexivity].
    apply keqb_eq in E; subst x. unfold mem. rewrite G. reflexivity.
  - apply wf_spec_new_node; [exact W|]. unfold mem. rewrite G. reflexivity.
Qed.

(** The adjacency after the two writes of [add_edge], on lookups. *)
Definition link_adj (A : dict string (dict string nat)) (u v : string)
  (nu : dict string nat) (r : nat) : dict string (dict string nat) :=
  let adj1 := set A u (set nu v r) in
  set adj1 v (set (get_default adj1 v []) u r).

Lemma keqb_sym_string (a b : string) : keqb a b = keqb b a.
Proof. apply String.eqb_sym. Qed.

Lemma link_adj_get (A : dict string (dict string nat)) (u v : string)
  (nu nv : dict string nat) (r : nat) (x w : string) :
  get A u = Some nu -> get A v = Some nv ->
  match get (link_adj A u v nu r) x with
  | Some nb => get nb w
  | None => None
  end
  = if (keqb x u && keqb w v) || (keqb x v && keqb w u) then Some r
    else match get A x with
         | Some nb => get nb w
         | None => None
         end.
Proof.
  intros Gu Gv. unfold link_adj, get_default. rewrite !get_set.
  rewrite (keqb_sym_string x u), (keqb_sym_string x v),
          (keqb_sym_string w u), (keqb_sym_string w v).
  destruct (keqb v x) eqn:Evx.
  - apply keqb_eq in Evx; subst x. rewrite Gv. destruct (keqb u v) eqn:Euv.
    + apply keqb_eq in Euv; subst v. rewrite !get_set.
      assert (nv = nu) by congruence; subst nv.
      destruct (keqb u w); reflexivity.
    + rewrite get_set. cbn [andb orb]. destruct (keqb u w); reflexivity.
  - destruct (keqb u x) eqn:Eux.
    + apply keqb_eq in Eux; subst x. rewrite Gu, get_set. cbn [andb orb].
      destruct (keqb v w); reflexivity.
    + reflexivity.
Qed.

Lemma link_adj_mem (A : dict string (dict string nat)) (u v : string)
  (nu nv : dict string nat) (r : nat) (x : string) :
  get A u = Some nu -> get A v = Some nv ->
  mem (link_adj A u v nu r) x = mem A x.
Proof.
  intros Gu Gv. unfold link_adj. rewrite !mem_set.
  destruct (keqb v x) eqn:Evx.
  - apply keqb_eq in Evx; subst x. unfold mem. rewrite Gv. reflexivity.
  - destruct (keqb u x) eqn:Eux; [|reflexivity].
    apply keqb_eq in Eux; subst x. unfold mem. rewrite Gu. reflexivity.
Qed.

Lemma link_adj_NoDup (A : dict string (dict string nat)) (u v : string)
  (nu : dict string nat) (r : nat) :
  NoDup (keys A) ->
  (forall x nb, get A x = Some nb -> NoDup (keys nb)) ->
  get A u = Some nu ->
  NoDup (keys (link_adj A u v nu r)) /\
  forall x nb, get (link_adj A u v nu r) x = Some nb -> NoDup (keys nb).
Proof.
  intros ND NB Gu.
  assert (N1 : forall x nb, get (set A u (set nu v r)) x = Some nb -> NoDup (keys nb)).
  { intros x nb. rewrite get_set. destruct (keqb u x).
    - intros [= <-]. apply NoDup_keys_set. eapply NB; eauto.
    - apply NB. }
  split; [unfold link_adj; repeat apply NoDup_keys_set; exact ND|].
  intros x nb. unfold link_adj. rewrite get_set. destruct (keqb v x); [|apply N1].
  intros [= <-]. apply NoDup_keys_set. unfold get_default.
  destruct (get (set A u (set nu v r)) v) as [nv|] eqn:G; [eapply N1; eauto|constructor].
Qed.

(** Linking two existing nodes under a valid reference keeps the invariant. *)
Lemma wf_spec_link (g : nx.Graph) (u v : string) (nu nv : dict string nat) (r : nat)
  (data' : list nx.attrs) :
  wf_spec g ->
  get (nx._adj g) u = Some nu -> get (nx._adj g) v = Some nv ->
  List.length (nx._data g) <= List.length data' -> r < List.length data' ->
  wf_spec (nx.mkGraph (nx._node g) (link_adj (nx._adj g) u v nu r) data').
Proof.
  intros (ND & NB & SY & NM) Gu Gv LE L.
  destruct (link_adj_NoDup (nx._adj g) u v nu r ND NB Gu) as [ND' NB'].
  split; [exact ND'|]. split; [exact NB'|]. split.
  - intros x w r0. unfold link_ref. cbn [nx._adj nx._data].
    rewrite (link_adj_get _ u v nu nv r x w Gu Gv), (link_adj_get _ u v nu nv r w x Gu Gv).
    replace ((keqb w u && keqb x v) || (keqb w v && keqb x u))
      with ((keqb x u && keqb w v) || (keqb x v && keqb w u))
      by (destruct (keqb x u), (keqb w v), (keqb x v), (keqb w u); reflexivity).
    destruct ((keqb x u && keqb w v) || (keqb x v && keqb w u)).
    + intros [= <-]. auto.
    + intros G. destruct (SY x w r0 G) as [L0 S]. split; [lia|exact S].
  - intros n. cbn [nx._node nx._adj]. rewrite (link_adj_mem _ u v nu nv r n Gu Gv). apply NM.
Qed.

(** [add_edge] in terms of [link_adj]: the endpoints exist after the first
    half, the reference is the link's own or a fresh one. *)
Lemma add_edge_unfold (g : nx.Graph) (u v : string) (attr : list (string * float)) :
  wf_spec g ->
  exists g1 nu nv r data',
    wf_spec g1 /\
    get (nx._adj g1) u = Some nu /\ get (nx._adj g1) v = Some nv /\
    List.length (nx._data g1) <= List.length data' /\ r < List.length data' /\
    (forall x w, link_ref g1 x w = link_ref g x w) /\
    nx._data g1 = nx._data g /\
    (forall r0, r0 <> r -> r0 < List.length (nx._data g1) ->
                nth r0 data' [] = nth r0 (nx._data g1) []) /\
    nth r data' [] = update match get nu v with
                            | Some r => nx.deref g r
                            | None => []
                            end attr /\
    (get nu v = Some r \/ r = List.length (nx._data g1)) /\
    nx.add_edge g u v attr
    = nx.mkGraph (nx._node g1) (link_adj (nx._adj g1) u v nu r) data'.
Proof.
  intros W.
  pose proof (wf_spec_ensure_node _ v (wf_spec_ensure_node g u W)) as W1.
  unfold nx.add_edge.
  set (g1 := nx.ensure_node (nx.ensure_node g u) v) in *.
  assert (D1 : nx._data g1 = nx._data g).
  { unfold g1. rewrite !ensure_node_data. reflexivity. }
  assert (N : nx.has_node g1 u = true /\ nx.has_node g1 v = true).
  { unfold g1. split; apply ensure_node_has; auto.
    left. apply ensure_node_has; auto. }
  destruct N as [Nu Nv]. unfold nx.has_node in Nu, Nv.
  destruct W1 as (ND & NB & SY & NM). rewrite NM in Nu, Nv. unfold mem in Nu, Nv.
  destruct (get (nx._adj g1) u) as [nu|] eqn:Gu; [|discriminate].
  destruct (get (nx._adj g1) v) as [nv|] eqn:Gv; [|discriminate].
  assert (LR : forall x w, link_ref g1 x w = link_ref g x w).
  { intros x w. unfold g1, link_ref, nx.ensure_node.
    destruct (mem (nx._node g) u) eqn:M1; cbn [nx._node nx._adj].
    - destruct (mem (nx._node g) v) eqn:M2; cbn [nx._adj]; [reflexivity|].
      rewrite get_set. destruct (keqb v x) eqn:E; [|reflexivity].
      apply keqb_eq in E; subst x. destruct W as (_ & _ & _ & NM0).
      rewrite NM0 in M2. unfold mem in M2.
      destruct (get (nx._adj g) v); [discriminate|reflexivity].
    - assert (Au : get (nx._adj g) u = None).
      { destruct W as (_ & _ & _ & NM0). rewrite NM0 in M1. unfold mem in M1.
        destruct (get (nx._adj g) u); [discriminate|reflexivity]. }
      destruct (mem (set (nx._node g) u []) v) eqn:M2; cbn [nx._adj].
      + rewrite get_set. destruct (keqb u x) eqn:E; [|reflexivity].
        apply keqb_eq in E; subst x. rewrite Au. reflexivity.
      + rewrite !get_set. rewrite mem_set in M2. apply orb_false_iff in M2 as [_ M2].
        destruct W as (_ & _ & _ & NM0). rewrite NM0 in M2. unfold mem in M2.
        destruct (keqb v x) eqn:E1.
        * apply keqb_eq in E1; subst x.
          destruct (get (nx._adj g) v); [discriminate|reflexivity].
        * destruct (keqb u x) eqn:E2; [|reflexivity].
          apply keqb_eq in E2; subst x. rewrite Au. reflexivity. }
  exists g1, nu, nv. unfold link_adj, get_default. rewrite Gu.
  destruct (get nu v) as [r|] eqn:G.
  - assert (L : r < List.length (nx._data g1)).
    { apply (SY u v r). unfold link_ref. rewrite Gu. exact G. }
    exists r, (write (nx._data g1) r (update (nth r (nx._data g1) []) attr)).
    rewrite length_write. split; [split; [exact ND|split; [exact NB|split; [exact SY|exact NM]]]|].
    split; [reflexivity|]. split; [exact Gv|]. split; [apply le_n|]. split; [exact L|].
    split; [exact LR|]. split; [exact D1|]. split.
    + intros r0 N0 _. apply nth_write_other. auto.
    + split; [|split; [left; reflexivity|reflexivity]]. rewrite nth_write_same by exact L.
      unfold nx.deref. rewrite D1. reflexivity.
  - exists (List.length (nx._data g1)),
           (write (nx._data g1 ++ [[]]) (List.length (nx._data g1))
                  (update (nth (List.length (nx._data g1)) (nx._data g1 ++ [[]]) []) attr)).
    rewrite length_write, length_app. cbn [List.length]. rewrite Nat.add_1_r.
    split; [split; [exact ND|split; [exact NB|split; [exact SY|exact NM]]]|].
    split; [reflexivity|]. split; [exact Gv|]. split; [apply Nat.le_succ_diag_r|]. split; [apply Nat.lt_succ_diag_r|].
    split; [exact LR|]. split; [exact D1|]. split.
    + intros r0 N0 L0. rewrite nth_write_other by auto. apply app_nth1. exact L0.
    + split; [|split; [right; reflexivity|reflexivity]].
      rewrite nth_write_same by (rewrite length_app; simpl; lia).
      rewrite app_nth2, Nat.sub_diag by lia. reflexivity.
Qed.

Lemma wf_spec_add_edge (g : nx.Graph) (u v : string) (attr : list (string * float)) :
  wf_spec g -> wf_spec (nx.add_edge g u v attr).
Proof.
  intros W.
  destruct (add_edge_unfold g u v attr W)
    as (g1 & nu & nv & r & data' & W1 & Gu & Gv & LE & L & _ & _ & _ & _ & _ & ->).
  eapply wf_spec_link; eauto.
Qed.

(** The link invariants, stated on lookups. *)
Definition links_valid_spec (g : nx.Graph) : Prop :=
  forall x w r, link_ref g x w = Some r -> link_valid (nx.deref g r) = true.

Lemma links_valid_iff (g : nx.Graph) :
  wf_spec g -> (links_valid g = true <-> links_valid_spec g).
Proof.
  intros (ND & NB & _ & _). split.
  - intros V x w r. unfold link_ref.
    destruct (get (nx._adj g) x) as [nb|] eqn:G1; [|discriminate].
    intros G2. eapply links_valid_link; eauto.
  - intros V. unfold links_valid. apply forallb_forall. intros [x nb] I.
    pose proof (In_get_NoDup _ _ _ ND I) as G1.
    apply forallb_forall. intros [w r] I2. cbn [snd] in *.
    pose proof (In_get_NoDup _ _ _ (NB _ _ G1) I2) as G2.
    apply (V x w r). unfold link_ref. rewrite G1. exact G2.
Qed.

(** The metrics a [NetworkLink] may carry, and a metric update may set. *)
Definition NetworkLink_valid (link : NetworkLink) : bool :=
  ((0 <=? latency link) && (0 <=? jitter link) && (0 <=? packet_loss link)
   && (0 <? bandwidth link))%float.

Definition metric_valid (kv : string * float) : bool :=
  if String.eqb (fst kv) "bandwidth" then (0 <? snd kv)%float
  else if String.eqb (fst kv) "latency" then (0 <=? snd kv)%float
  else if String.eqb (fst kv) "jitter" then (0 <=? snd kv)%float
  else if String.eqb (fst kv) "packet_loss" then (0 <=? snd kv)%float
  else true.

Lemma link_valid_NetworkLink (d : nx.attrs) (link : NetworkLink) :
  NetworkLink_valid link = true ->
  link_valid (update d (NetworkLink_dict link)) = true.
Proof.
  intros V. unfold link_valid. pose proof (NetworkLink_dict_NoDup link) as ND.
  rewrite (get_update_In _ d "latency"%string (latency link) ND) by (simpl; tauto).
  rewrite (get_update_In _ d "jitter"%string (jitter link) ND) by (simpl; tauto).
  rewrite (get_update_In _ d "packet_loss"%string (packet_loss link) ND) by (simpl; tauto).
  rewrite (get_update_In _ d "bandwidth"%string (bandwidth link) ND) by (simpl; tauto).
  exact V.
Qed.

Lemma link_valid_set (d : nx.attrs) (k : string) (x : float) :
  link_valid d = true -> metric_valid (k, x) = true -> link_valid (set d k x) = true.
Proof.
  unfold link_valid, metric_valid. cbn [fst snd]. rewrite !get_set.
  change (@keqb string EqKey_string) with String.eqb.
  destruct (get d "latency"%string) as [l|]; [|discriminate].
  destruct (get d "jitter"%string) as [j|]; [|discriminate].
  destruct (get d "packet_loss"%string) as [p|]; [|discriminate].
  destruct (get d "bandwidth"%string) as [b|]; [|discriminate].
  rewrite !andb_true_iff. intros [[[Hl Hj] Hp] Hb].
  destruct (String.eqb k "bandwidth") eqn:E1.
  { apply String.eqb_eq in E1; subst k. cbn [String.eqb Ascii.eqb Bool.eqb].
    intros Hx. rewrite !andb_true_iff. auto. }
  destruct (String.eqb k "latency") eqn:E2.
  { apply String.eqb_eq in E2; subst k. cbn [String.eqb Ascii.eqb Bool.eqb].
    intros Hx. rewrite !andb_true_iff. auto. }
  destruct (String.eqb k "jitter") eqn:E3.
  { apply String.eqb_eq in E3; subst k. cbn [String.eqb Ascii.eqb Bool.eqb].
    intros Hx. rewrite !andb_true_iff. auto. }
  destruct (String.eqb k "packet_loss") eqn:E4.
  { apply String.eqb_eq in E4; subst k. cbn [String.eqb Ascii.eqb Bool.eqb].
    intros Hx. rewrite !andb_true_iff. auto. }
  intros _. rewrite !andb_true_iff. auto.
Qed.

Lemma link_valid_update (metrics : list (string * float)) :
  forall d : nx.attrs,
    link_valid d = true -> forallb metric_valid metrics = true ->
    link_valid (update d metrics) = true.
Proof.
  induction metrics as [|[k x] metrics IH]; intros d V M; [exact V|].
  cbn [forallb] in M. apply andb_true_iff in M as [M1 M2].
  rewrite update_cons. apply IH; [|exact M2]. apply link_valid_set; assumption.
Qed.

(** Distinct links have distinct attribute dictionaries. *)
Definition refs_distinct (g : nx.Graph) : Prop :=
  forall x w x' w' r,
    link_ref g x w = Some r -> link_ref g x' w' = Some r ->
    (x = x' /\ w = w') \/ (x = w' /\ w = x').

(** What every graph built through the interface satisfies. *)
Definition graph_inv (g : nx.Graph) : Prop :=
  wf_spec g /\ refs_distinct g /\ links_valid_spec g.

Lemma graph_inv_empty : graph_inv nx.empty.
Proof.
  split; [exact wf_spec_empty|]. split.
  - intros x w x' w' r G. discriminate.
  - intros x w r G. discriminate.
Qed.

Lemma link_ref_new_node (g : nx.Graph) (u : string) (a : dict string string) (x w : string) :
  wf_spec g -> mem (nx._node g) u = false ->
  link_ref (nx.mkGraph (set (nx._node g) u a) (set (nx._adj g) u []) (nx._data g)) x w
  = link_ref g x w.
Proof.
  intros (_ & _ & _ & NM) M. unfold link_ref. cbn [nx._adj]. rewrite get_set.
  destruct (keqb u x) eqn:E; [|reflexivity].
  apply keqb_eq in E; subst x. rewrite NM in M. unfold mem in M.
  destruct (get (nx._adj g) u); [discriminate|reflexivity].
Qed.

Lemma link_ref_add_node (g : nx.Graph) (n : string) (attr : list (string * string))
  (x w : string) :
  wf_spec g -> link_ref (nx.add_node g n attr) x w = link_ref g x w.
Proof.
  intros W. unfold nx.add_node. destruct (get (nx._node g) n) as [a|] eqn:G; [reflexivity|].
  apply link_ref_new_node; [exact W|]. unfold mem. rewrite G. reflexivity.
Qed.

Lemma data_add_node (g : nx.Graph) (n : string) (attr : list (string * string)) :
  nx._data (nx.add_node g n attr) = nx._data g.
Proof. unfold nx.add_node. destruct (get (nx._node g) n); reflexivity. Qed.

Lemma graph_inv_add_node (g : nx.Graph) (n : string) (attr : list (string * string)) :
  graph_inv g -> graph_inv (nx.add_node g n attr).
Proof.
  intros (W & RD & LV). split; [apply wf_spec_add_node; exact W|]. split.
  - intros x w x' w' r. rewrite !link_ref_add_node by exact W. apply RD.
  - intros x w r. rewrite link_ref_add_node by exact W. unfold nx.deref.
    rewrite data_add_node. apply LV.
Qed.

(** The links after [add_edge]: the pair written, in both directions, and
    the links there were. *)
Lemma link_ref_link_adj (g1 : nx.Graph) (u v : string) (nu nv : dict string nat) (r : nat)
  (data' : list nx.attrs) (x w : string) :
  get (nx._adj g1) u = Some nu -> get (nx._adj g1) v = Some nv ->
  link_ref (nx.mkGraph (nx._node g1) (link_adj (nx._adj g1) u v nu r) data') x w
  = if (keqb x u && keqb w v) || (keqb x v && keqb w u) then Some r
    else link_ref g1 x w.
Proof. intros Gu Gv. unfold link_ref. cbn [nx._adj]. apply (link_adj_get _ u v nu nv); assumption. Qed.

Lemma pair_cases (x w u v : string) :
  (keqb x u && keqb w v) || (keqb x v && keqb w u) = true <->
  (x = u /\ w = v) \/ (x = v /\ w = u).
Proof.
  rewrite orb_true_iff, !andb_true_iff, !keqb_eq. reflexivity.
Qed.

Lemma graph_inv_add_edge (g : nx.Graph) (u v : string) (attr : list (string * float)) :
  graph_inv g ->
  (forall d, link_valid (update d attr) = true) ->
  graph_inv (nx.add_edge g u v attr).
Proof.
  intros (W & RD & LV) A. split; [apply wf_spec_add_edge; exact W|].
  destruct (add_edge_unfold g u v attr W)
    as (g1 & nu & nv & r & data' & W1 & Gu & Gv & LE & L & LR & D1 & O & N & F & ->).
  assert (SY1 : forall x w r0, link_ref g1 x w = Some r0 -> r0 < List.length (nx._data g1)).
  { intros x w r0 G. destruct W1 as (_ & _ & SY & _). apply (SY x w r0 G). }
  assert (OLD : forall x w, link_ref g1 x w = Some r -> (x = u /\ w = v) \/ (x = v /\ w = u)).
  { intros x w G. destruct F as [F|F].
    - assert (G0 : link_ref g1 u v = Some r) by (unfold link_ref; rewrite Gu; exact F).
      rewrite LR in G, G0. destruct (RD x w u v r G G0) as [[-> ->]|[-> ->]]; auto.
    - apply SY1 in G. rewrite F in G. exfalso. exact (Nat.lt_irrefl _ G). }
  split.
  - intros x w x' w' r0.
    rewrite !(link_ref_link_adj g1 u v nu nv r data') by assumption.
    destruct ((keqb x u && keqb w v) || (keqb x v && keqb w u)) eqn:C1;
      destruct ((keqb x' u && keqb w' v) || (keqb x' v && keqb w' u)) eqn:C2.
    + apply pair_cases in C1, C2. intros _ _.
      destruct C1 as [[-> ->]|[-> ->]], C2 as [[-> ->]|[-> ->]]; auto.
    + apply pair_cases in C1. intros [= <-] G. apply OLD in G.
      destruct C1 as [[-> ->]|[-> ->]], G as [[-> ->]|[-> ->]]; auto.
    + apply pair_cases in C2. intros G [= <-]. apply OLD in G.
      destruct C2 as [[-> ->]|[-> ->]], G as [[-> ->]|[-> ->]]; auto.
    + rewrite !LR. apply RD.
  - intros x w r0. rewrite (link_ref_link_adj g1 u v nu nv r data') by assumption.
    unfold nx.deref. cbn [nx._data].
    assert (Vr : link_valid (nth r data' []) = true) by (rewrite N; apply A).
    destruct ((keqb x u && keqb w v) || (keqb x v && keqb w u)).
    + intros [= <-]. exact Vr.
    + intros G. destruct (Nat.eq_dec r0 r) as [->|NE]; [exact Vr|].
      pose proof (O r0 NE (SY1 x w r0 G)) as E0. rewrite LR in G.
      pose proof (LV x w r0 G) as V0. unfold nx.deref in V0. rewrite <- D1 in V0.
      exact (eq_ind_r (fun d => link_valid d = true) V0 E0).
Qed.

(** A metric update writes into the link's dictionary only. *)
Lemma update_link_metrics_graph (c c' : SDWANController) (a b : string)
  (metrics : list (string * float)) :
  wf_spec (topology c) ->
  update_link_metrics c a b metrics = Ok c' ->
  c' = c \/
  exists r, link_ref (topology c) a b = Some r /\
            r < List.length (nx._data (topology c)) /\
            c' = mkController
                   (nx.mkGraph (nx._node (topology c)) (nx._adj (topology c))
                      (write (nx._data (topology c)) r
                             (update (nx.deref (topology c) r) metrics)))
                   (flows c).
Proof.
  intros W. unfold update_link_metrics, nx.has_edge, mem.
  destruct (get (nx._adj (topology c)) a) as [nbrs|] eqn:G1; [|intros [= <-]; auto].
  destruct (get nbrs b) as [r|] eqn:G2; [|intros [= <-]; auto].
  assert (LRr : link_ref (topology c) a b = Some r) by (unfold link_ref; rewrite G1; exact G2).
  assert (L : r < List.length (nx._data (topology c))).
  { destruct W as (_ & _ & SY & _). apply (SY a b r LRr). }
  rewrite (set_metrics_ok metrics _ a b nbrs r G1 G2 L). cbn [bind].
  intros [= <-]. right. exists r. auto.
Qed.

Lemma graph_inv_update_link_metrics (c c' : SDWANController) (a b : string)
  (metrics : list (string * float)) :
  graph_inv (topology c) ->
  forallb metric_valid metrics = true ->
  update_link_metrics c a b metrics = Ok c' ->
  graph_inv (topology c').
Proof.
  intros (W & RD & LV) M U.
  destruct (update_link_metrics_graph c c' a b metrics W U) as [->|(r & G & L & ->)];
    [split; [exact W|split; [exact RD|exact LV]]|].
  cbn [topology]. split; [|split].
  - destruct W as (ND & NB & SY & NM). split; [exact ND|]. split; [exact NB|].
    split; [|exact NM]. intros x w r0 G0. cbn [nx._data]. rewrite length_write.
    apply (SY x w r0 G0).
  - exact RD.
  - intros x w r0 G0. unfold nx.deref. cbn [nx._data].
    destruct (Nat.eq_dec r r0) as [<-|NE].
    + rewrite nth_write_same by exact L. apply link_valid_update; [|exact M].
      apply (LV a b r G).
    + rewrite nth_write_other by exact NE. apply (LV x w r0 G0).
Qed.

(** Controllers built with the methods of [SDWANController], the links
    and the metric updates carrying valid values. *)
Inductive built : SDWANController -> Prop :=
| built_init : built SDWANController_init
| built_add_node c node_id node_type :
    built c -> built (add_node c node_id node_type)
| built_add_link c node1 node2 link :
    built c -> NetworkLink_valid link = true -> built (add_link c node1 node2 link)
| built_add_traffic_flow c flow_id flow :
    built c -> built (add_traffic_flow c flow_id flow)
| built_update_link_metrics c node1 node2 metrics c' :
    built c -> forallb metric_valid metrics = true ->
    update_link_metrics c node1 node2 metrics = Ok c' -> built c'.

Lemma built_graph_inv (c : SDWANController) : built c -> graph_inv (topology c).
Proof.
  induction 1 as [|c n t B IH|c a b link B IH V|c i f B IH|c a b m c' B IH M U].
  - exact graph_inv_empty.
  - apply graph_inv_add_node. exact IH.
  - apply graph_inv_add_edge; [exact IH|]. intros d. apply link_valid_NetworkLink. exact V.
  - exact IH.
  - eapply graph_inv_update_link_metrics; eauto.
Qed.

Lemma built_demo_topology : built demo_topology.
Proof. unfold demo_topology. repeat (first [apply built_add_link; [|reflexivity] | apply built_add_node | apply built_init]). Qed.

Lemma built_demo_controller : built demo_controller.
Proof. unfold demo_controller. repeat apply built_add_traffic_flow. exact built_demo_topology. Qed.

(** ** Links of built controllers *)

Lemma has_edge_link_ref (g : nx.Graph) (u v : string) :
  nx.has_edge g u v = match link_ref g u v with Some _ => true | None => false end.
Proof.
  unfold nx.has_edge, link_ref, mem. destruct (get (nx._adj g) u); reflexivity.
Qed.

Lemma edge_data_link_ref (g : nx.Graph) (u v : string) :
  nx.edge_data g u v
  = match link_ref g u v with Some r => Ok (nx.deref g r) | None => Raise KeyError end.
Proof.
  unfold nx.edge_data, nx.adj, getitem, link_ref.
  destruct (get (nx._adj g) u) as [nb|]; [cbn [bind]|reflexivity].
  destruct (get nb v); reflexivity.
Qed.

Lemma link_ref_sym (g : nx.Graph) (u v : string) :
  wf_spec g -> link_ref g u v = link_ref g v u.
Proof.
  intros (_ & _ & SY & _).
  destruct (link_ref g u v) as [r|] eqn:E1.
  - symmetry. apply (SY u v r E1).
  - destruct (link_ref g v u) as [r|] eqn:E2; [|reflexivity].
    destruct (SY v u r E2) as [_ E3]. congruence.
Qed.

Lemma link_ref_nodes (g : nx.Graph) (u v : string) (r : nat) :
  wf_spec g -> link_ref g u v = Some r ->
  nx.has_node g u = true /\ nx.has_node g v = true.
Proof.
  intros W E. pose proof E as E'. rewrite (link_ref_sym g u v W) in E'.
  destruct W as (_ & _ & _ & NM). unfold nx.has_node. rewrite !NM.
  split; eapply link_ref_mem; eauto.
Qed.

(** X1. In every controller built with [add_node], [add_link],
    [add_traffic_flow] and [update_link_metrics], links are undirected:
    a link is seen from both ends, with the same attributes (or the same
    [KeyError] when there is none), and both its ends are nodes. *)
Theorem built_links_undirected (c : SDWANController) (u v : string) :
  built c ->
  nx.has_edge (topology c) u v = nx.has_edge (topology c) v u /\
  nx.edge_data (topology c) u v = nx.edge_data (topology c) v u /\
  (nx.has_edge (topology c) u v = true ->
   nx.has_node (topology c) u = true /\ nx.has_node (topology c) v = true).
Proof.
  intros B. destruct (built_graph_inv c B) as (W & _ & _).
  rewrite !has_edge_link_ref, !edge_data_link_ref, (link_ref_sym _ u v W).
  split; [reflexivity|]. split; [reflexivity|].
  destruct (link_ref (topology c) v u) as [r|] eqn:E; [|discriminate].
  intros _. rewrite <- (link_ref_sym _ u v W) in E. eapply link_ref_nodes; eauto.
Qed.

Lemma built_links_undirected_witness :
  nx.has_edge (topology demo_controller) "CloudGW" "Branch1" = true /\
  nx.edge_data (topology demo_controller) "CloudGW" "Branch1"
  = nx.edge_data (topology demo_controller) "Branch1" "CloudGW".
Proof.
  destruct (built_links_undirected demo_controller "CloudGW" "Branch1" built_demo_controller)
    as (_ & E & _).
  split; [vm_compute; reflexivity|exact E].
Defined.

(** X2. Every link of a built controller carries the four metrics the
    path computations read, with latency, jitter and packet loss not
    negative and the bandwidth positive, whatever sequence of valid
    [add_link] and [update_link_metrics] calls produced it. *)
Theorem built_links_valid (c : SDWANController) (u v : string) (d : nx.attrs) :
  built c ->
  nx.edge_data (topology c) u v = Ok d ->
  exists l j p b,
    get d "latency"%string = Some l /\ get d "jitter"%string = Some j /\
    get d "packet_loss"%string = Some p /\ get d "bandwidth"%string = Some b /\
    (0 <=? l)%float = true /\ (0 <=? j)%float = true /\
    (0 <=? p)%float = true /\ (0 <? b)%float = true.
Proof.
  intros B. destruct (built_graph_inv c B) as (_ & _ & LV).
  rewrite edge_data_link_ref. destruct (link_ref (topology c) u v) as [r|] eqn:E; [|discriminate].
  intros [= <-]. specialize (LV u v r E). unfold link_valid in LV.
  destruct (get (nx.deref (topology c) r) "latency"%string) as [l|]; [|discriminate].
  destruct (get (nx.deref (topology c) r) "jitter"%string) as [j|]; [|discriminate].
  destruct (get (nx.deref (topology c) r) "packet_loss"%string) as [p|]; [|discriminate].
  destruct (get (nx.deref (topology c) r) "bandwidth"%string) as [b|]; [|discriminate].
  rewrite !andb_true_iff in LV. destruct LV as [[[Hl Hj] Hp] Hb].
  exists l, j, p, b. repeat (split; [reflexivity|]). auto.
Qed.

Lemma built_links_valid_witness :
  exists d, nx.edge_data (topology (demo_with_latency 45)) "HQ" "Branch1" = Ok d /\
            get d "latency"%string = Some 45%float /\
            exists b, get d "bandwidth"%string = Some b /\ (0 <? b)%float = true.
Proof.
  assert (B : built (demo_with_latency 45)).
  { apply (built_update_link_metrics demo_controller "HQ" "Branch1"
             [("latency"%string, 45%float)]);
      [exact built_demo_controller|reflexivity|vm_compute; reflexivity]. }
  destruct (nx.edge_data (topology (demo_with_latency 45)) "HQ" "Branch1") as [d|e] eqn:E;
    [|vm_compute in E; discriminate].
  destruct (built_links_valid (demo_with_latency 45) "HQ" "Branch1" d B E)
    as (l & j & p & b & Gl & _ & _ & Gb & _ & _ & _ & Hb).
  exists d. split; [reflexivity|]. split; [|exists b; auto].
  apply (f_equal (fun r => match r with Ok d => get d "latency"%string | Raise _ => None end)) in E.
  rewrite <- E. vm_compute. reflexivity.
Defined.

(** ** What the mutations leave alone *)

Lemma has_node_add_node (g : nx.Graph) (n m : string) (attr : list (string * string)) :
  nx.has_node (nx.add_node g n attr) m = keqb n m || nx.has_node g m.
Proof.
  unfold nx.add_node, nx.has_node.
  destruct (get (nx._node g) n); cbn [nx._node]; apply mem_set.
Qed.

Lemma has_node_ensure_node (g : nx.Graph) (u m : string) :
  nx.has_node (nx.ensure_node g u) m = keqb u m || nx.has_node g m.
Proof.
  unfold nx.ensure_node, nx.has_node. destruct (mem (nx._node g) u) eqn:M; cbn [nx._node].
  - destruct (keqb u m) eqn:E; [|reflexivity]. apply keqb_eq in E; subst m. exact M.
  - apply mem_set.
Qed.

Lemma node_add_edge (g : nx.Graph) (u v : string) (attr : list (string * float)) :
  nx._node (nx.add_edge g u v attr) = nx._node (nx.ensure_node (nx.ensure_node g u) v).
Proof.
  unfold nx.add_edge.
  destruct (get (get_default (nx._adj (nx.ensure_node (nx.ensure_node g u) v)) u []) v);
    reflexivity.
Qed.

Lemma has_node_add_edge (g : nx.Graph) (u v m : string) (attr : list (string * float)) :
  nx.has_node (nx.add_edge g u v attr) m = keqb u m || keqb v m || nx.has_node g m.
Proof.
  unfold nx.has_node at 1. rewrite node_add_edge.
  change (mem (nx._node (nx.ensure_node (nx.ensure_node g u) v)) m)
    with (nx.has_node (nx.ensure_node (nx.ensure_node g u) v) m).
  rewrite !has_node_ensure_node.
  destruct (keqb u m), (keqb v m); reflexivity.
Qed.

(** The links other than the one written by [add_edge]. *)
Lemma add_edge_other_links (g : nx.Graph) (u v : string) (attr : list (string * float))
  (x w : string) :
  wf_spec g -> refs_distinct g ->
  ~ ((x = u /\ w = v) \/ (x = v /\ w = u)) ->
  nx.edge_data (nx.add_edge g u v attr) x w = nx.edge_data g x w.
Proof.
  intros W RD NP.
  destruct (add_edge_unfold g u v attr W)
    as (g1 & nu & nv & r & data' & W1 & Gu & Gv & LE & L & LR & D1 & O & N & F & ->).
  rewrite !edge_data_link_ref, (link_ref_link_adj g1 u v nu nv r data') by assumption.
  destruct ((keqb x u && keqb w v) || (keqb x v && keqb w u)) eqn:C.
  { apply pair_cases in C. contradiction. }
  rewrite LR. destruct (link_ref g x w) as [r0|] eqn:G; [|reflexivity].
  assert (L0 : r0 < List.length (nx._data g1)).
  { destruct W1 as (_ & _ & SY & _). apply (SY x w r0). rewrite LR. exact G. }
  assert (NE : r0 <> r).
  { intros ->. destruct F as [F|F].
    - assert (G0 : link_ref g u v = Some r) by (rewrite <- LR; unfold link_ref; rewrite Gu; exact F).
      apply NP. destruct (RD x w u v r G G0) as [[-> ->]|[-> ->]]; auto.
    - rewrite F in L0. exact (Nat.lt_irrefl _ L0). }
  pose proof (O r0 NE L0) as E0. unfold nx.deref. cbn [nx._data]. rewrite <- D1.
  exact (f_equal Ok E0).
Qed.

(** X3. In a built controller, [add_link(a, b, link)] changes nothing
    but the link between [a] and [b]: the flows are kept, a node is
    present afterwards exactly when it was present or is [a] or [b], and
    every other pair of nodes has the same link as before, with the same
    attributes (or none, as before). *)
Theorem add_link_frame (c : SDWANController) (a b : string) (link : NetworkLink) :
  built c ->
  flows (add_link c a b link) = flows c /\
  (forall n, nx.has_node (topology (add_link c a b link)) n
             = String.eqb a n || String.eqb b n || nx.has_node (topology c) n) /\
  (forall x w, ~ ((x = a /\ w = b) \/ (x = b /\ w = a)) ->
     nx.edge_data (topology (add_link c a b link)) x w = nx.edge_data (topology c) x w /\
     nx.has_edge (topology (add_link c a b link)) x w = nx.has_edge (topology c) x w).
Proof.
  intros B. destruct (built_graph_inv c B) as (W & RD & _).
  split; [reflexivity|]. split.
  - intros n. apply has_node_add_edge.
  - intros x w NP. unfold add_link. cbn [topology].
    pose proof (add_edge_other_links (topology c) a b (NetworkLink_dict link) x w W RD NP) as E.
    split; [exact E|]. rewrite !edge_data_link_ref in E. rewrite !has_edge_link_ref.
    destruct (link_ref (nx.add_edge (topology c) a b (NetworkLink_dict link)) x w),
             (link_ref (topology c) x w); try reflexivity; discriminate.
Qed.

Lemma add_link_frame_witness :
  nx.edge_data (topology (add_link demo_controller "HQ" "CloudGW" (mkNetworkLink 9 1 0 10 1)))
               "Branch1" "HQ"
  = nx.edge_data (topology demo_controller) "Branch1" "HQ".
Proof.
  destruct (add_link_frame demo_controller "HQ" "CloudGW" (mkNetworkLink 9 1 0 10 1)
                           built_demo_controller) as (_ & _ & F).
  apply F. intros [[E _]|[E _]]; discriminate E.
Defined.

(** X4. In a built controller, a successful [update_link_metrics(a, b,
    ...)] changes nothing but the attributes of the link between [a] and
    [b]: flows, nodes and the set of links are kept, and every other link
    keeps all its attributes. *)
Theorem update_link_metrics_frame (c c' : SDWANController) (a b : string)
  (metrics : list (string * float)) :
  built c ->
  update_link_metrics c a b metrics = Ok c' ->
  flows c' = flows c /\
  (forall n, nx.has_node (topology c') n = nx.has_node (topology c) n) /\
  nx.edges (topology c') = nx.edges (topology c) /\
  (forall x w, nx.has_edge (topology c') x w = nx.has_edge (topology c) x w) /\
  (forall x w, ~ ((x = a /\ w = b) \/ (x = b /\ w = a)) ->
     nx.edge_data (topology c') x w = nx.edge_data (topology c) x w).
Proof.
  intros B U. destruct (built_graph_inv c B) as (W & RD & _).
  destruct (update_link_metrics_graph c c' a b metrics W U) as [->|(r & G & L & ->)];
    [repeat (split; [reflexivity|]); reflexivity|].
  cbn [topology flows]. split; [reflexivity|]. split; [reflexivity|].
  split; [reflexivity|]. split; [reflexivity|].
  intros x w NP. rewrite !edge_data_link_ref.
  change (link_ref (nx.mkGraph (nx._node (topology c)) (nx._adj (topology c))
                      (write (nx._data (topology c)) r
                             (update (nx.deref (topology c) r) metrics))) x w)
    with (link_ref (topology c) x w).
  destruct (link_ref (topology c) x w) as [r0|] eqn:G0; [|reflexivity].
  unfold nx.deref. cbn [nx._data]. rewrite nth_write_other; [reflexivity|].
  intros ->. apply NP. destruct (RD x w a b r0 G0 G) as [[-> ->]|[-> ->]]; auto.
Qed.

Lemma update_link_metrics_frame_witness :
  nx.edge_data (topology (demo_with_latency 45)) "Branch1" "Branch2"
  = nx.edge_data (topology demo_controller) "Branch1" "Branch2".
Proof.
  assert (U : update_link_metrics demo_controller "HQ" "Branch1" [("latency"%string, 45%float)]
              = Ok (demo_with_latency 45)) by (vm_compute; reflexivity).
  pose proof (update_link_metrics_frame demo_controller (demo_with_latency 45) "HQ" "Branch1"
                [("latency"%string, 45%float)] built_demo_controller U) as F.
  apply (proj2 (proj2 (proj2 (proj2 F))) "Branch1"%string "Branch2"%string).
  intros [[E _]|[_ E]]; discriminate E.
Defined.

(** X5. In a built controller, [add_node] never touches a link, also
    when the node exists already (its links are kept, not reset): the
    node is present afterwards, the other nodes are as before, and every
    pair of nodes has the same link with the same attributes. *)
Theorem add_node_keeps_links (c : SDWANController) (node_id node_type : string) :
  built c ->
  flows (add_node c node_id node_type) = flows c /\
  (forall n, nx.has_node (topology (add_node c node_id node_type)) n
             = String.eqb node_id n || nx.has_node (topology c) n) /\
  nx.edges (topology (add_node c node_id node_type)) = nx.edges (topology c) /\
  (forall x w, nx.edge_data (topology (add_node c node_id node_type)) x w
               = nx.edge_data (topology c) x w).
Proof.
  intros B. destruct (built_graph_inv c B) as (W & _ & _).
  split; [reflexivity|]. split; [intros n; apply has_node_add_node|]. split.
  - unfold add_node. cbn [topology]. unfold nx.add_node.
    destruct (get (nx._node (topology c)) node_id) as [a|] eqn:G; [reflexivity|].
    unfold nx.edges. cbn [nx._adj].
    assert (M : mem (nx._adj (topology c)) node_id = false).
    { destruct W as (_ & _ & _ & NM). rewrite <- NM. unfold mem. rewrite G. reflexivity. }
    revert M. generalize (@nil string). induction (nx._adj (topology c)) as [|[k nb] A IH];
      intros seen M.
    + reflexivity.
    + unfold mem in M. cbn [get] in M. cbn [set]. destruct (keqb k node_id) eqn:E; [discriminate|].
      cbn [nx.edges_from]. f_equal. apply IH. exact M.
  - intros x w. unfold add_node. cbn [topology].
    rewrite !edge_data_link_ref, link_ref_add_node by exact W.
    unfold nx.deref. rewrite data_add_node. reflexivity.
Qed.

Lemma add_node_keeps_links_witness :
  nx.edge_data (topology (add_node demo_controller "HQ" "cloud")) "HQ" "Branch1"
  = nx.edge_data (topology demo_controller) "HQ" "Branch1".
Proof.
  destruct (add_node_keeps_links demo_controller "HQ" "cloud" built_demo_controller)
    as (_ & _ & _ & F).
  apply F.
Defined.

(** ** Outcomes of [calculate_best_path] *)

Lemma built_wf_graph (c : SDWANController) :
  built c -> wf_graph (topology c) = true /\ links_valid (topology c) = true.
Proof.
  intros B. destruct (built_graph_inv c B) as (W & _ & LV).
  split; [apply wf_graph_spec; exact W|]. apply links_valid_iff; assumption.
Qed.

(** Both searches start with [if source not in G or target not in G]. *)
Lemma shortest_path_node_not_found (g : nx.Graph) (s t : string)
  (weight : option nx.weightfn) :
  nx.has_node g s = false \/ nx.has_node g t = false ->
  nx.shortest_path g s t weight = Raise NodeNotFound.
Proof.
  intros N. unfold nx.shortest_path, nx.bidirectional_shortest_path, nx.bidirectional_dijkstra.
  destruct weight as [w|]; destruct (nx.has_node g s); cbn [negb orb bind]; try reflexivity;
    destruct N as [N|N]; try discriminate; rewrite N; reflexivity.
Qed.

Lemma calculate_best_path_node_not_found (c : SDWANController) (flow_id : string)
  (flow : TrafficFlow) :
  get (flows c) flow_id = Some flow ->
  nx.has_node (topology c) (source flow) = false \/
  nx.has_node (topology c) (destination flow) = false ->
  calculate_best_path c flow_id = Raise NodeNotFound.
Proof.
  intros F N. unfold calculate_best_path, getitem. rewrite F. cbn [bind].
  destruct (String.eqb (sensitivity flow) "latency");
    [apply shortest_path_node_not_found; exact N|].
  destruct (String.eqb (sensitivity flow) "throughput");
    [apply shortest_path_node_not_found; exact N|].
  destruct (String.eqb (sensitivity flow) "reliability");
    apply shortest_path_node_not_found; exact N.
Qed.

(** X6. The outcomes of [calculate_best_path] on a built controller,
    for every sensitivity: [KeyError] exactly for an unregistered flow;
    [NodeNotFound] exactly for a registered flow with an endpoint that is
    not a node; [NetworkXNoPath] exactly when both endpoints are nodes
    and not connected; otherwise a walk from source to destination.  No
    other exception (no [ZeroDivisionError] of the bandwidth weight, no
    [ValueError] of the weighted search) is raised. *)
Theorem calculate_best_path_outcomes (c : SDWANController) (flow_id : string) :
  built c ->
  match calculate_best_path c flow_id, get (flows c) flow_id with
  | Raise e, None => e = KeyError
  | Ok _, None => False
  | Ok p, Some flow =>
      nx.has_node (topology c) (source flow) = true /\
      nx.has_node (topology c) (destination flow) = true /\
      walk (topology c) (source flow) (destination flow) p
  | Raise e, Some flow =>
      (e = NodeNotFound /\
       (nx.has_node (topology c) (source flow) = false \/
        nx.has_node (topology c) (destination flow) = false)) \/
      (e = NetworkXNoPath /\
       nx.has_node (topology c) (source flow) = true /\
       nx.has_node (topology c) (destination flow) = true /\
       ~ reach (topology c) (source flow) (destination flow))
  end.
Proof.
  intros B. destruct (built_wf_graph c B) as [WF LV].
  destruct (get (flows c) flow_id) as [flow|] eqn:F.
  - destruct (nx.has_node (topology c) (source flow)) eqn:S.
    + destruct (nx.has_node (topology c) (destination flow)) eqn:T.
      * pose proof (calculate_best_path_spec c flow_id flow WF LV F S T) as P.
        destruct (calculate_best_path c flow_id) as [p|e]; [auto|].
        right. destruct P as [-> N]. auto.
      * rewrite (calculate_best_path_node_not_found c flow_id flow F) by (rewrite T; auto).
        left. auto.
    + rewrite (calculate_best_path_node_not_found c flow_id flow F) by (rewrite S; auto).
      left. auto.
  - unfold calculate_best_path, getitem. rewrite F. reflexivity.
Qed.

Lemma calculate_best_path_outcomes_witness :
  walk (topology demo_controller) "Branch1" "CloudGW" ["Branch1"%string; "CloudGW"%string].
Proof.
  pose proof (calculate_best_path_outcomes demo_controller "backup1" built_demo_controller) as H.
  assert (E : calculate_best_path demo_controller "backup1"
              = Ok ["Branch1"%string; "CloudGW"%string]) by (vm_compute; reflexivity).
  assert (G : get (flows demo_controller) "backup1"%string
              = Some (mkTrafficFlow "Branch1" "CloudGW" 20 4 "throughput")) by reflexivity.
  rewrite E, G in H. apply H.
Defined.

(** ** A flow from a node to itself *)

Lemma shortest_path_self (g : nx.Graph) (s : string) (weight : option nx.weightfn) :
  nx.has_node g s = true -> nx.shortest_path g s s weight = Ok [s].
Proof.
  intros N. unfold nx.shortest_path, nx.bidirectional_shortest_path, nx.bidirectional_dijkstra,
    nx._bidirectional_pred_succ.
  rewrite N, String.eqb_refl. destruct weight as [w|]; cbn [negb orb bind]; [reflexivity|].
  cbn [nx.follow List.length]. unfold getitem. cbn [get].
  change (@keqb string EqKey_string s s) with (String.eqb s s).
  rewrite String.eqb_refl. cbn [bind nx.follow app rev]. unfold last_item. cbn [rev app bind].
  unfold getitem. cbn [get].
  change (@keqb string EqKey_string s s) with (String.eqb s s).
  rewrite String.eqb_refl. reflexivity.
Qed.

(** X7. A registered flow whose destination is its own source, a node of
    the topology, gets the one-node path for every sensitivity, with no
    link read: the aggregated metrics are latency 0, jitter 0, packet
    loss 0 and infinite bandwidth, and the score of a latency or
    reliability flow is 100. *)
Theorem self_flow_path (c : SDWANController) (flow_id : string) (flow : TrafficFlow) :
  get (flows c) flow_id = Some flow ->
  destination flow = source flow ->
  nx.has_node (topology c) (source flow) = true ->
  calculate_best_path c flow_id = Ok [source flow] /\
  _get_path_metrics c [source flow] = Ok (mkPathMetrics 0 0 0 infinity) /\
  (sensitivity flow = "latency"%string \/ sensitivity flow = "reliability"%string ->
   _calculate_path_score (mkPathMetrics 0 0 0 infinity) flow = Ok 100%float).
Proof.
  intros F D N. split; [|split].
  - unfold calculate_best_path, getitem. rewrite F. cbn [bind]. rewrite D.
    destruct (String.eqb (sensitivity flow) "latency"); [apply shortest_path_self; exact N|].
    destruct (String.eqb (sensitivity flow) "throughput"); [apply shortest_path_self; exact N|].
    destruct (String.eqb (sensitivity flow) "reliability"); apply shortest_path_self; exact N.
  - vm_compute. reflexivity.
  - unfold _calculate_path_score. intros [-> | ->]; vm_compute; reflexivity.
Qed.

Lemma self_flow_path_witness :
  calculate_best_path
    (add_traffic_flow demo_controller "loop" (mkTrafficFlow "HQ" "HQ" 1 1 "throughput")) "loop"
  = Ok ["HQ"%string].
Proof.
  apply (self_flow_path
           (add_traffic_flow demo_controller "loop" (mkTrafficFlow "HQ" "HQ" 1 1 "throughput"))
           "loop" (mkTrafficFlow "HQ" "HQ" 1 1 "throughput")); reflexivity.
Defined.

(** ** When the metrics of a path are defined *)

(** Consecutive nodes of the path are linked. *)
Fixpoint linked_path (g : nx.Graph) (p : list string) : bool :=
  match p with
  | u :: ((v :: _) as rest) => nx.has_edge g u v && linked_path g rest
  | _ => true
  end.

(** [x], [y] are consecutive in the path. *)
Fixpoint adjacent (p : list string) (x y : string) : Prop :=
  match p with
  | u :: ((v :: _) as rest) => (x = u /\ y = v) \/ adjacent rest x y
  | _ => False
  end.

Lemma link_valid_gets (d : nx.attrs) :
  link_valid d = true ->
  exists l j p b,
    get d "latency"%string = Some l /\ get d "jitter"%string = Some j /\
    get d "packet_loss"%string = Some p /\ get d "bandwidth"%string = Some b /\
    nonneg l /\ nonneg j /\ nonneg p /\ (0 <? b)%float = true.
Proof.
  unfold link_valid, nonneg.
  destruct (get d "latency"%string) as [l|]; [|discriminate].
  destruct (get d "jitter"%string) as [j|]; [|discriminate].
  destruct (get d "packet_loss"%string) as [p|]; [|discriminate].
  destruct (get d "bandwidth"%string) as [b|]; [|discriminate].
  rewrite !andb_true_iff. intros [[[Hl Hj] Hp] Hb].
  exists l, j, p, b. repeat (split; [reflexivity|]). auto.
Qed.

Lemma path_loop_defined (g : nx.Graph) (p : list string) :
  links_valid_spec g ->
  forall acc,
    match path_loop g p acc with
    | Ok _ => linked_path g p = true
    | Raise e => e = KeyError /\ linked_path g p = false
    end.
Proof.
  intros LV. induction p as [|u p IH]; intros acc; [reflexivity|].
  destruct p as [|v rest]; [reflexivity|].
  rewrite path_loop_cons, edge_data_link_ref. cbn [linked_path].
  rewrite has_edge_link_ref.
  destruct (link_ref g u v) as [r|] eqn:G; cbn [bind andb]; [|auto].
  destruct (link_valid_gets _ (LV u v r G)) as (l & j & pl & b & Gl & Gj & Gp & Gb & _).
  unfold getitem. rewrite Gl, Gj, Gp, Gb. cbn [bind]. apply IH.
Qed.

(** X8. On a built controller [_get_path_metrics] is defined exactly on
    the node lists whose consecutive nodes are linked (the empty list and
    the one-node lists among them, whatever the node); on any other list
    it raises [KeyError], and nothing else. *)
Theorem get_path_metrics_defined (c : SDWANController) (p : list string) :
  built c ->
  match _get_path_metrics c p with
  | Ok _ => linked_path (topology c) p = true
  | Raise e => e = KeyError /\ linked_path (topology c) p = false
  end.
Proof.
  intros B. destruct (built_graph_inv c B) as (_ & _ & LV).
  unfold _get_path_metrics.
  pose proof (path_loop_defined (topology c) p LV (0, 0, 1, infinity)%float) as P.
  destruct (path_loop (topology c) p (0, 0, 1, infinity)%float) as [[[[lat jit] loss] bw]|e];
    exact P.
Qed.

Lemma get_path_metrics_defined_witness :
  linked_path (topology demo_controller) ["HQ"%string; "CloudGW"%string] = false /\
  _get_path_metrics demo_controller ["HQ"%string; "CloudGW"%string] = Raise KeyError.
Proof.
  split; [vm_compute; reflexivity|].
  pose proof (get_path_metrics_defined demo_controller ["HQ"%string; "CloudGW"%string]
                built_demo_controller) as H.
  destruct (_get_path_metrics demo_controller ["HQ"%string; "CloudGW"%string]) as [m|e].
  - vm_compute in H. discriminate H.
  - destruct H as [-> _]. reflexivity.
Defined.

(** ** Bounds on the aggregated metrics *)

Lemma py_min_cases (a b : float) :
  (0 <? a)%float = true -> (0 <? b)%float = true ->
  (py_min a b = a \/ py_min a b = b) /\
  (0 <? py_min a b)%float = true /\
  (py_min a b <=? a)%float = true /\ (py_min a b <=? b)%float = true.
Proof.
  intros Pa Pb. unfold py_min.
  pose proof (ltb_leb _ _ Pa) as Na. pose proof (ltb_leb _ _ Pb) as Nb.
  destruct (b <? a)%float eqn:E.
  - split; [auto|]. split; [exact Pb|]. split; [apply ltb_leb; exact E|apply leb_refl; exact Nb].
  - split; [auto|]. split; [exact Pa|]. split; [apply leb_refl; exact Na|].
    apply ltb_false_leb; assumption.
Qed.

Lemma path_loop_bounds (g : nx.Graph) (p : list string) :
  links_valid_spec g ->
  forall lat jit loss bw lat' jit' loss' bw',
    path_loop g p (lat, jit, loss, bw) = Ok (lat', jit', loss', bw') ->
    nonneg lat -> nonneg jit -> (0 <? bw)%float = true ->
    nonneg lat' /\ nonneg jit' /\ (0 <? bw')%float = true /\
    (bw' <=? bw)%float = true /\
    (bw' = bw \/
     exists x y d, adjacent p x y /\ nx.edge_data g x y = Ok d /\
                   get d "bandwidth"%string = Some bw') /\
    (forall x y, adjacent p x y ->
       exists d b, nx.edge_data g x y = Ok d /\ get d "bandwidth"%string = Some b /\
                   (bw' <=? b)%float = true).
Proof.
  intros LV. induction p as [|u p IH]; intros lat jit loss bw lat' jit' loss' bw' E Nl Nj Pb.
  { injection E as <- <- <- <-. repeat (split; auto).
    - apply leb_refl. apply ltb_leb. exact Pb.
    - intros x y []. }
  destruct p as [|v rest].
  { injection E as <- <- <- <-. repeat (split; auto).
    - apply leb_refl. apply ltb_leb. exact Pb.
    - intros x y []. }
  rewrite path_loop_cons, edge_data_link_ref in E.
  destruct (link_ref g u v) as [r|] eqn:G; cbn [bind] in E; [|discriminate].
  destruct (link_valid_gets _ (LV u v r G)) as (l & j & pl & b & Gl & Gj & Gp & Gb & Hl & Hj & _ & Hb).
  unfold getitem in E. rewrite Gl, Gj, Gp, Gb in E. cbn [bind] in E.
  unfold path_step, lm_latency, lm_jitter, lm_packet_loss, lm_bandwidth in E. cbn [fst snd] in E.
  destruct (py_min_cases bw b Pb Hb) as (C & Pm & Lbw & Lb).
  destruct (IH _ _ _ _ _ _ _ _ E (proj2 (add_nonneg_ge lat l Nl Hl))
               (proj2 (add_nonneg_ge jit j Nj Hj)) Pm)
    as (Nl' & Nj' & Pb' & Lm & A & F).
  assert (ED : nx.edge_data g u v = Ok (nx.deref g r)) by (rewrite edge_data_link_ref, G; reflexivity).
  pose proof (ltb_leb _ _ Pb') as N1. pose proof (ltb_leb _ _ Pm) as N2.
  pose proof (ltb_leb _ _ Pb) as N3. pose proof (ltb_leb _ _ Hb) as N4.
  split; [exact Nl'|]. split; [exact Nj'|]. split; [exact Pb'|].
  split; [apply (leb_trans bw' (py_min bw b) bw); assumption|]. split.
  - destruct A as [->|(x & y & d & A1 & A2 & A3)].
    + destruct C as [->| ->]; [left; reflexivity|].
      right. exists u, v, (nx.deref g r). cbn [adjacent]. auto.
    + right. exists x, y, d. cbn [adjacent]. auto.
  - intros x y [[-> ->]|A1].
    + exists (nx.deref g r), b. split; [exact ED|]. split; [exact Gb|].
      apply (leb_trans bw' (py_min bw b) b); assumption.
    + apply F. exact A1.
Qed.

(** X9. On a built controller, the metrics [_get_path_metrics] returns
    satisfy: latency and jitter are not negative; the bandwidth is
    positive, is at most the bandwidth of every link along the path (the
    bottleneck), and is either infinite (no link) or the bandwidth of one
    of the links along the path. *)
Theorem path_bandwidth_bottleneck (c : SDWANController) (p : list string) (m : PathMetrics) :
  built c ->
  _get_path_metrics c p = Ok m ->
  (0 <=? pm_latency m)%float = true /\
  (0 <=? pm_jitter m)%float = true /\
  (0 <? pm_bandwidth m)%float = true /\
  (pm_bandwidth m = infinity \/
   exists x y d, adjacent p x y /\ nx.edge_data (topology c) x y = Ok d /\
                 get d "bandwidth"%string = Some (pm_bandwidth m)) /\
  (forall x y, adjacent p x y ->
     exists d b, nx.edge_data (topology c) x y = Ok d /\
                 get d "bandwidth"%string = Some b /\
                 (pm_bandwidth m <=? b)%float = true).
Proof.
  intros B. destruct (built_graph_inv c B) as (_ & _ & LV).
  unfold _get_path_metrics.
  destruct (path_loop (topology c) p (0, 0, 1, infinity)%float)
    as [[[[lat jit] loss] bw]|e] eqn:E; cbn [bind]; [|discriminate].
  intros M. apply (f_equal (fun r => match r with Ok x => x | Raise _ => m end)) in M.
  subst m. cbn [pm_latency pm_jitter pm_bandwidth].
  destruct (path_loop_bounds (topology c) p LV _ _ _ _ _ _ _ _ E)
    as (Nl & Nj & Pb & _ & A & F); try reflexivity.
  auto.
Qed.

Lemma path_bandwidth_bottleneck_witness :
  exists m, _get_path_metrics demo_controller ["HQ"%string; "Branch1"%string; "Branch2"%string]
            = Ok m /\
            (pm_bandwidth m <=? 20)%float = true.
Proof.
  destruct (_get_path_metrics demo_controller ["HQ"%string; "Branch1"%string; "Branch2"%string])
    as [m|e] eqn:E; [|vm_compute in E; discriminate E].
  exists m. split; [reflexivity|].
  destruct (path_bandwidth_bottleneck demo_controller _ m built_demo_controller E)
    as (_ & _ & _ & _ & F).
  destruct (F "Branch1"%string "Branch2"%string) as (d & b & Ed & Gb & L).
  { cbn [adjacent]. auto. }
  apply (f_equal (fun r => match r with
                           | Ok d => get d "bandwidth"%string
                           | Raise _ => None
                           end)) in Ed.
  rewrite Gb in Ed. vm_compute in Ed.
  apply (f_equal (fun o => match o with Some x => (pm_bandwidth m <=? x)%float | None => true end))
    in Ed.
  cbn beta iota in Ed. rewrite Ed. exact L.
Defined.

(** ** When [simulate_traffic] succeeds *)

Lemma linked_path_snoc (g : nx.Graph) (v w : string) :
  nx.has_edge g v w = true ->
  forall q, linked_path g (q ++ [v]) = true -> linked_path g ((q ++ [v]) ++ [w]) = true.
Proof.
  intros E. induction q as [|a q IH]; intros L.
  - cbn [app linked_path]. rewrite E. reflexivity.
  - destruct q as [|b q].
    + cbn [app linked_path] in *. apply andb_true_iff in L as [L _]. rewrite L, E. reflexivity.
    + cbn [app linked_path] in L. apply andb_true_iff in L as [L1 L2].
      cbn [app linked_path]. rewrite L1. apply IH. exact L2.
Qed.

Lemma walk_linked_path (g : nx.Graph) (s t : string) (p : list string) :
  walk g s t p -> linked_path g p = true /\ exists q, p = q ++ [t].
Proof.
  induction 1 as [|v w p W [L (q & ->)] E].
  - split; [reflexivity|]. exists []. reflexivity.
  - split; [apply linked_path_snoc; assumption|]. exists (q ++ [v]). reflexivity.
Qed.

Lemma update_link_metrics_flows (c c' : SDWANController) (a b : string)
  (metrics : list (string * float)) :
  update_link_metrics c a b metrics = Ok c' -> flows c' = flows c.
Proof.
  unfold update_link_metrics. destruct (nx.has_edge (topology c) a b); [|intros [= <-]; reflexivity].
  destruct (set_metrics (topology c) a b metrics) as [g|e]; cbn [bind]; [|discriminate].
  intros [= <-]. reflexivity.
Qed.

Lemma built_flows_NoDup (c : SDWANController) : built c -> NoDup (keys (flows c)).
Proof.
  induction 1 as [|c n t B IH|c a b link B IH V|c i f B IH|c a b m c' B IH M U].
  - constructor.
  - exact IH.
  - exact IH.
  - apply NoDup_keys_set. exact IH.
  - rewrite (update_link_metrics_flows _ _ _ _ _ U). exact IH.
Qed.

(** The results come in the order of the flows. *)
Lemma simulate_loop_keys (c : SDWANController) (items : list (string * TrafficFlow)) :
  forall acc results,
    NoDup (keys acc ++ keys items) ->
    simulate_loop c items acc = Ok results ->
    keys results = keys acc ++ keys items.
Proof.
  induction items as [|[i f] items IH]; intros acc results ND E.
  - injection E as <-. cbn [keys map]. rewrite app_nil_r. reflexivity.
  - rewrite simulate_loop_cons in E.
    destruct (evaluate_flow c i f) as [r|]; cbn [bind] in E; [|discriminate].
    assert (M : mem acc i = false).
    { destruct (mem acc i) eqn:M; [|reflexivity]. apply mem_In_keys in M.
      apply NoDup_remove_2 in ND. exfalso. apply ND. apply in_or_app. left. exact M. }
    assert (K : keys (set acc i r) = keys acc ++ [i]) by (rewrite keys_set, M; reflexivity).
    change (keys ((i, f) :: items)) with (i :: keys items) in *.
    rewrite (IH (set acc i r) results); [rewrite K, <- app_assoc; reflexivity| |exact E].
    rewrite K, <- app_assoc. exact ND.
Qed.

(** What makes the evaluation of a flow succeed. *)
Definition flow_ready (c : SDWANController) (flow : TrafficFlow) : Prop :=
  known_sensitivity (sensitivity flow) = true /\
  (required_bandwidth flow =? 0)%float = false /\
  nx.has_node (topology c) (source flow) = true /\
  nx.has_node (topology c) (destination flow) = true /\
  reach (topology c) (source flow) (destination flow).

Lemma evaluate_flow_ok (c : SDWANController) (flow_id : string) (flow : TrafficFlow) :
  built c -> get (flows c) flow_id = Some flow -> flow_ready c flow ->
  exists r, evaluate_flow c flow_id flow = Ok r /\
            walk (topology c) (source flow) (destination flow) (path r) /\
            (0 <=? score r)%float = true /\ (score r <=? 100)%float = true.
Proof.
  intros B F (K & R & S & T & RE).
  destruct (built_wf_graph c B) as [WF LV]. destruct (built_graph_inv c B) as (_ & _ & LS).
  unfold evaluate_flow.
  pose proof (calculate_best_path_spec c flow_id flow WF LV F S T) as P.
  destruct (calculate_best_path c flow_id) as [p|e]; [|destruct P as [_ N]; contradiction].
  cbn [bind]. destruct (walk_linked_path _ _ _ _ P) as [L _].
  unfold _get_path_metrics.
  pose proof (path_loop_defined (topology c) p LS (0, 0, 1, infinity)%float) as D.
  destruct (path_loop (topology c) p (0, 0, 1, infinity)%float) as [[[[lat jit] loss] bw]|e];
    [|destruct D as [_ D]; congruence].
  cbn [bind].
  destruct (score_in_range (mkPathMetrics lat jit ((1 - loss) * 100)%float bw) flow K R)
    as (s & Es & S0 & S1).
  rewrite Es. cbn [bind]. eexists. split; [reflexivity|]. cbn [path score]. auto.
Qed.

(** X10. On a built controller whose registered flows all have one of
    the three named sensitivities, a required bandwidth other than zero,
    and a source and a destination that are nodes connected to each
    other, [simulate_traffic] succeeds; the result holds one entry per
    flow, in registration order, each with a path that follows links from
    the flow's source to its destination and a score within [0, 100]. *)
Theorem simulate_traffic_succeeds (c : SDWANController) :
  built c ->
  (forall flow_id flow, get (flows c) flow_id = Some flow -> flow_ready c flow) ->
  exists results,
    simulate_traffic c = Ok results /\
    keys results = keys (flows c) /\
    (forall flow_id r, get results flow_id = Some r ->
       exists flow, get (flows c) flow_id = Some flow /\
                    walk (topology c) (source flow) (destination flow) (path r) /\
                    (0 <=? score r)%float = true /\ (score r <=? 100)%float = true).
Proof.
  intros B R. pose proof (built_flows_NoDup c B) as ND. unfold simulate_traffic.
  assert (T : Forall (fun kv => exists r, evaluate_flow c (fst kv) (snd kv) = Ok r) (flows c)).
  { apply Forall_forall. intros [i f] I. cbn [fst snd].
    pose proof (In_get_NoDup _ _ _ ND I) as G.
    destruct (evaluate_flow_ok c i f B G (R i f G)) as (r & E & _). eauto. }
  destruct (simulate_loop_total c (flows c) T []) as [results E].
  exists results. split; [exact E|]. split.
  - apply (simulate_loop_keys c (flows c) [] results); [exact ND|exact E].
  - intros i r G. destruct (simulate_loop_ok c (flows c) [] results ND E) as [A Bk].
    destruct (get (flows c) i) as [f|] eqn:Gf.
    + exists f. split; [reflexivity|].
      destruct (A i f (get_In _ _ _ Gf)) as (r' & Ev & G').
      destruct (evaluate_flow_ok c i f B Gf (R i f Gf)) as (r'' & Ev' & W & S0 & S1).
      assert (r'' = r) by congruence. subst r''. auto.
    + rewrite Bk in G; [discriminate G|].
      intros I. apply In_keys_get in I as [f Gf']. congruence.
Qed.

Lemma simulate_traffic_succeeds_witness :
  exists results,
    simulate_traffic demo_controller = Ok results /\
    keys results = ["voip1"%string; "backup1"%string; "video1"%string].
Proof.
  destruct (simulate_traffic_succeeds demo_controller built_demo_controller)
    as (results & E & K & _).
  - intros flow_id flow. cbn [demo_controller]. unfold demo_controller.
    assert (R1 : reach (topology demo_controller) "Branch1" "HQ").
    { apply (reach_step _ _ "Branch1"); [apply reach_refl|vm_compute; reflexivity]. }
    assert (R2 : reach (topology demo_controller) "Branch1" "CloudGW").
    { apply (reach_step _ _ "Branch1"); [apply reach_refl|vm_compute; reflexivity]. }
    assert (R3 : reach (topology demo_controller) "Branch2" "HQ").
    { apply (reach_step _ _ "Branch2"); [apply reach_refl|vm_compute; reflexivity]. }
    change (get (flows demo_controller) flow_id = Some flow -> flow_ready demo_controller flow).
    change (flows demo_controller)
      with [("voip1"%string, mkTrafficFlow "Branch1" "HQ" 0.5 1 "latency");
            ("backup1"%string, mkTrafficFlow "Branch1" "CloudGW" 20 4 "throughput");
            ("video1"%string, mkTrafficFlow "Branch2" "HQ" 5 2 "reliability")].
    cbn [get].
    destruct (keqb "voip1"%string flow_id);
      [intros G; apply (f_equal (fun o => match o with Some f => f | None => flow end)) in G;
       subst flow; repeat split; try reflexivity; assumption|].
    destruct (keqb "backup1"%string flow_id);
      [intros G; apply (f_equal (fun o => match o with Some f => f | None => flow end)) in G;
       subst flow; repeat split; try reflexivity; assumption|].
    destruct (keqb "video1"%string flow_id);
      [intros G; apply (f_equal (fun o => match o with Some f => f | None => flow end)) in G;
       subst flow; repeat split; try reflexivity; assumption|].
    intros G; discriminate G.
  - exists results. split; [exact E|exact K].
Defined.

(** ** Outcomes of [_calculate_path_score] *)

(** X11. The outcomes of [_calculate_path_score], for any metrics at all
    (infinite or NaN included): a sensitivity other than the three named
    ones raises [UnboundLocalError]; a throughput flow whose required
    bandwidth is zero raises [ZeroDivisionError]; in every other case the
    result is a score within [0, 100], never a NaN. *)
Theorem path_score_outcomes (m : PathMetrics) (flow : TrafficFlow) :
  match _calculate_path_score m flow with
  | Ok s =>
      known_sensitivity (sensitivity flow) = true /\
      ~ (sensitivity flow = "throughput"%string /\
         (required_bandwidth flow =? 0)%float = true) /\
      (0 <=? s)%float = true /\ (s <=? 100)%float = true
  | Raise e =>
      (e = UnboundLocalError /\ known_sensitivity (sensitivity flow) = false) \/
      (e = ZeroDivisionError /\ sensitivity flow = "throughput"%string /\
       (required_bandwidth flow =? 0)%float = true)
  end.
Proof.
  unfold _calculate_path_score, known_sensitivity, py_div.
  destruct (String.eqb (sensitivity flow) "latency") eqn:E1.
  { cbn [bind orb]. split; [reflexivity|]. split; [|apply clamp_bounds].
    apply String.eqb_eq in E1. intros [T _]. rewrite E1 in T. discriminate T. }
  destruct (String.eqb (sensitivity flow) "throughput") eqn:E2.
  { destruct (required_bandwidth flow =? 0)%float eqn:R; cbn [bind orb].
    - right. apply String.eqb_eq in E2. auto.
    - split; [reflexivity|]. split; [|apply clamp_bounds]. intros [_ Z]. discriminate Z. }
  destruct (String.eqb (sensitivity flow) "reliability") eqn:E3.
  { cbn [bind orb]. split; [reflexivity|]. split; [|apply clamp_bounds].
    apply String.eqb_eq in E3. intros [T _]. rewrite E3 in T. discriminate T. }
  cbn [bind orb]. left. auto.
Qed.

(** ** The drift between two snapshots *)

(** [x] is not below zero: it is a NaN, a zero, or positive. *)
Definition not_neg (x : float) : Prop := (x <? 0)%float = false.

Lemma not_neg_iff (x : float) : not_neg x <-> nonneg x \/ Prim2SF x = S754_nan.
Proof.
  unfold not_neg. rewrite nonneg_SF, ltb_spec. change (Prim2SF 0) with (S754_zero false).
  destruct (Prim2SF x) as [[]|[]| |[] ? ?]; cbn; split; auto;
    try discriminate; intros [H|H]; try discriminate H; auto; try contradiction.
Qed.

Lemma abs_not_neg (y : float) : not_neg (abs y).
Proof.
  apply not_neg_iff. rewrite nonneg_SF, abs_spec.
  destruct (Prim2SF y) as [[]|[]| |[] ? ?]; cbn; auto.
Qed.

Lemma add_not_neg (t a : float) : not_neg t -> not_neg a -> not_neg (t + a).
Proof.
  rewrite !not_neg_iff. intros [Nt|Nt] [Na|Na].
  - left. apply add_nonneg_ge; assumption.
  - right. rewrite add_spec, Na. destruct (Prim2SF t) as [[]|[]| |[] ? ?]; reflexivity.
  - right. rewrite add_spec, Nt. reflexivity.
  - right. rewrite add_spec, Nt. reflexivity.
Qed.

Lemma diff_loop_outcomes (state2 : State) (items : list ((string * string) * EdgeState)) :
  forall t, not_neg t ->
    match diff_loop items state2 t with
    | Ok d => (forall k, In k (keys items) -> mem state2 k = true) /\ not_neg d
    | Raise e => e = KeyError /\ exists k, In k (keys items) /\ mem state2 k = false
    end.
Proof.
  induction items as [|[k e1] items IH]; intros t N.
  - cbn [diff_loop]. split; [intros k []|exact N].
  - cbn [diff_loop]. unfold getitem, mem.
    destruct (get state2 k) as [e2|] eqn:G; cbn [bind].
    + specialize (IH (t + abs (es_latency e1 - es_latency e2)
                        + abs (es_jitter e1 - es_jitter e2)
                        + abs (es_packet_loss e1 - es_packet_loss e2))%float).
      destruct (diff_loop items state2 _) as [d|e].
      * destruct IH as [A Nd]; [repeat apply add_not_neg; auto using abs_not_neg|].
        split; [|exact Nd]. intros k' [<-|I]; [cbn [fst]; rewrite G; reflexivity|apply A; exact I].
      * destruct IH as [-> (k' & I & M)]; [repeat apply add_not_neg; auto using abs_not_neg|].
        split; [reflexivity|]. exists k'. split; [right; exact I|exact M].
    + split; [reflexivity|]. exists k. split; [left; reflexivity|]. rewrite G. reflexivity.
Qed.

(** X12. The outcomes of [_state_diff(state1, state2)]: it raises
    [KeyError] exactly when some key of [state1] is missing from
    [state2]; otherwise it returns a drift that is never below zero
    (a sum of absolute values: not negative, or a NaN). *)
Theorem state_diff_outcomes (state1 state2 : State) :
  match _state_diff state1 state2 with
  | Ok d => (forall k, In k (keys state1) -> mem state2 k = true) /\ (d <? 0)%float = false
  | Raise e => e = KeyError /\ exists k, In k (keys state1) /\ mem state2 k = false
  end.
Proof. apply diff_loop_outcomes. reflexivity. Qed.

Lemma diff_loop_restrict (state2 state2' : State)
  (items : list ((string * string) * EdgeState)) :
  (forall k, In k (keys items) -> get state2' k = get state2 k) ->
  forall t, diff_loop items state2' t = diff_loop items state2 t.
Proof.
  induction items as [|[k e1] items IH]; intros A t; [reflexivity|].
  cbn [diff_loop]. unfold getitem. rewrite (A k) by (left; reflexivity).
  destruct (get state2 k) as [e2|]; cbn [bind]; [|reflexivity].
  apply IH. intros k' I. apply A. right. exact I.
Qed.

(** X13. The drift depends on the second snapshot only through the
    entries whose keys occur in the first: entries of links that are not
    in the baseline (links added since) never contribute. *)
Theorem state_diff_restrict (state1 state2 state2' : State) :
  (forall k, In k (keys state1) -> get state2' k = get state2 k) ->
  _state_diff state1 state2' = _state_diff state1 state2.
Proof. intros A. apply diff_loop_restrict. exact A. Qed.

Lemma state_diff_restrict_witness :
  _state_diff [(("A", "B")%string, mkEdgeState 30 5 0.1)]
              [(("A", "B")%string, mkEdgeState 40 5 0.1);
               (("A", "C")%string, mkEdgeState 70 20 0.4)]
  = _state_diff [(("A", "B")%string, mkEdgeState 30 5 0.1)]
                [(("A", "B")%string, mkEdgeState 40 5 0.1)].
Proof.
  apply state_diff_restrict. intros k [<-|[]]. reflexivity.
Defined.

(** ** The edges of a graph *)

Lemma not_seen_iff (nbr : string) (seen : list string) :
  negb (existsb (String.eqb nbr) seen) = true <-> ~ In nbr seen.
Proof.
  rewrite negb_true_iff. split.
  - intros E I. assert (X : existsb (String.eqb nbr) seen = true); [|congruence].
    apply existsb_exists. exists nbr. split; [exact I|apply String.eqb_refl].
  - intros N. destruct (existsb (String.eqb nbr) seen) eqn:E; [|reflexivity].
    apply existsb_exists in E as (y & I & E). apply String.eqb_eq in E. subst y. contradiction.
Qed.

(** [(u, v)] is reported when [v] is a neighbour of [u] that does not
    come before [u] in node order. *)
Lemma edges_from_In (A : dict string (dict string nat)) :
  forall (seen : list string) (u v : string),
    In (u, v) (nx.edges_from A seen) <->
    exists A1 nbrs A2,
      A = A1 ++ (u, nbrs) :: A2 /\ In v (keys nbrs) /\ ~ In v seen /\ ~ In v (keys A1).
Proof.
  induction A as [|[n nbrs] rest IH]; intros seen u v.
  - cbn [nx.edges_from]. split; [intros []|].
    intros (A1 & nb & A2 & E & _). destruct A1; discriminate E.
  - cbn [nx.edges_from]. rewrite in_app_iff, in_map_iff, IH. split.
    + intros [(x & E & I)|(A1 & nb & A2 & E & I & N1 & N2)].
      * injection E as <- <-. apply filter_In in I as [I N]. apply not_seen_iff in N.
        exists [], nbrs, rest. cbn [app keys map]. auto.
      * exists ((n, nbrs) :: A1), nb, A2. rewrite E. split; [reflexivity|]. split; [exact I|].
        split; [intros X; apply N1; right; exact X|].
        cbn [keys map fst]. intros [X|X]; [apply N1; left; exact X|apply N2; exact X].
    + intros (A1 & nb & A2 & E & I & N1 & N2). destruct A1 as [|a A1].
      * cbn [app] in E. injection E as <- <- <-. left. exists v. split; [reflexivity|].
        apply filter_In. split; [exact I|]. apply not_seen_iff. exact N1.
      * cbn [app] in E. injection E as <- ->. right. exists A1, nb, A2.
        split; [reflexivity|]. split; [exact I|]. cbn [keys map fst] in N2. split.
        -- intros [X|X]; [apply N2; left; exact X|apply N1; exact X].
        -- intros X. apply N2. right. exact X.
Qed.

Lemma get_split {V : Type} (A : dict string V) (k : string) (v : V) :
  get A k = Some v -> exists A1 A2, A = A1 ++ (k, v) :: A2 /\ ~ In k (keys A1).
Proof.
  induction A as [|[k' v'] A IH]; cbn [get]; [discriminate|].
  destruct (keqb k' k) eqn:E.
  - apply keqb_eq in E. subst k'. intros [= ->]. exists [], A. split; [reflexivity|intros []].
  - intros G. destruct (IH G) as (A1 & A2 & -> & N). exists ((k', v') :: A1), A2.
    split; [reflexivity|]. cbn [keys map fst]. intros [X|X]; [|exact (N X)].
    subst k'. rewrite keqb_refl in E. discriminate E.
Qed.

(** Two ways of cutting one list at an element. *)
Lemma split_cmp {T : Type} (A1 : list T) :
  forall (a : T) (A2 B1 : list T) (b : T) (B2 : list T),
    A1 ++ a :: A2 = B1 ++ b :: B2 ->
    (exists C, B1 = A1 ++ a :: C) \/ (exists C, A1 = B1 ++ b :: C) \/
    (A1 = B1 /\ a = b /\ A2 = B2).
Proof.
  induction A1 as [|x A1 IH]; intros a A2 B1 b B2 E.
  - destruct B1 as [|y B1]; cbn [app] in E; injection E as E1 E2; subst.
    + right. right. auto.
    + left. exists B1. reflexivity.
  - destruct B1 as [|y B1]; cbn [app] in E; injection E as E1 E2; subst.
    + right. left. exists A1. reflexivity.
    + destruct (IH _ _ _ _ _ E2) as [(C & ->)|[(C & ->)|(-> & -> & ->)]].
      * left. exists C. reflexivity.
      * right. left. exists C. reflexivity.
      * right. right. auto.
Qed.

Lemma keys_app {V : Type} (A B : dict string V) : keys (A ++ B) = keys A ++ keys B.
Proof. apply map_app. Qed.

Lemma NoDup_map_pair (n : string) (l : list string) :
  NoDup l -> NoDup (map (fun nbr => (n, nbr)) l).
Proof.
  induction 1 as [|x l NI _ IH]; cbn [map]; constructor; [|exact IH].
  intros I. apply in_map_iff in I as (y & [= ->] & I). contradiction.
Qed.

Section Edges.
Variable g : nx.Graph.
Hypothesis W : wf_spec g.

(** An edge of [edges()] is a link. *)
Lemma edges_link (u v : string) :
  In (u, v) (nx.edges g) -> exists r, link_ref g u v = Some r.
Proof.
  unfold nx.edges. rewrite edges_from_In. intros (A1 & nbrs & A2 & E & I & _ & _).
  destruct W as (ND & _). unfold link_ref.
  rewrite (In_get_NoDup (nx._adj g) u nbrs ND) by (rewrite E; apply in_elt).
  apply In_keys_get in I as [r G]. eauto.
Qed.

(** Every link is among the edges, in one direction. *)
Lemma link_edges (u v : string) (r : nat) :
  link_ref g u v = Some r -> In (u, v) (nx.edges g) \/ In (v, u) (nx.edges g).
Proof.
  intros G. pose proof G as G'. rewrite (link_ref_sym g u v W) in G'.
  unfold link_ref in G, G'.
  destruct (get (nx._adj g) u) as [nu|] eqn:Gu; [|discriminate].
  destruct (get (nx._adj g) v) as [nv|] eqn:Gv; [|discriminate].
  destruct (get_split _ _ _ Gu) as (A1 & A2 & EA & NA).
  destruct (get_split _ _ _ Gv) as (B1 & B2 & EB & NB).
  unfold nx.edges. rewrite !edges_from_In.
  destruct (in_dec string_dec v (keys A1)) as [I|NI].
  - right. exists B1, nv, B2. split; [exact EB|]. split; [eapply get_In_keys; eauto|].
    split; [intros []|]. rewrite EA in EB.
    destruct (split_cmp _ _ _ _ _ _ EB) as [(C & ->)|[(C & ->)|(-> & _)]].
    + exfalso. apply NB. rewrite keys_app. apply in_or_app. left. exact I.
    + intros X. apply NA. rewrite keys_app. apply in_or_app. left. exact X.
    + contradiction.
  - left. exists A1, nu, A2. split; [exact EA|]. split; [eapply get_In_keys; eauto|].
    split; [intros []|exact NI].
Qed.

(** No link is reported in both directions. *)
Lemma edges_one_direction (u v : string) :
  In (u, v) (nx.edges g) -> In (v, u) (nx.edges g) -> u = v.
Proof.
  unfold nx.edges. rewrite !edges_from_In.
  intros (A1 & nu & A2 & EA & _ & _ & NA) (B1 & nv & B2 & EB & _ & _ & NB).
  rewrite EA in EB.
  destruct (split_cmp _ _ _ _ _ _ EB) as [(C & ->)|[(C & ->)|(_ & E & _)]].
  - exfalso. apply NB. rewrite keys_app. apply in_or_app. right. left. reflexivity.
  - exfalso. apply NA. rewrite keys_app. apply in_or_app. right. left. reflexivity.
  - injection E as ->. reflexivity.
Qed.

Lemma edges_from_NoDup (A : dict string (dict string nat)) :
  NoDup (keys A) -> (forall n nbrs, In (n, nbrs) A -> NoDup (keys nbrs)) ->
  forall seen, NoDup (nx.edges_from A seen).
Proof.
  induction A as [|[n nbrs] rest IH]; intros ND NB seen; [constructor|].
  cbn [nx.edges_from]. cbn [keys map fst] in ND. inversion ND as [|? ? NI ND']; subst.
  apply NoDup_app.
  - apply NoDup_map_pair. apply NoDup_filter. apply (NB n nbrs). left. reflexivity.
  - apply IH; [exact ND'|]. intros n' nb I. apply (NB n' nb). right. exact I.
  - intros [x y] I1 I2. apply in_map_iff in I1 as (z & [= <- <-] & _).
    apply edges_from_In in I2 as (A1 & nb & A2 & E & _). apply NI.
    change (In n (keys rest)). rewrite E, keys_app. apply in_or_app. right. left. reflexivity.
Qed.

Lemma edges_NoDup : NoDup (nx.edges g).
Proof.
  destruct W as (ND & NB & _). apply edges_from_NoDup; [exact ND|].
  intros n nbrs I. apply (NB n nbrs). apply In_get_NoDup; assumption.
Qed.

End Edges.

(** ** The snapshot *)

Lemma capture_loop_spec (g : nx.Graph) (es : list (string * string)) :
  links_valid_spec g ->
  (forall u v, In (u, v) es -> exists r, link_ref g u v = Some r) ->
  forall st, NoDup (keys st ++ es) ->
    exists s,
      capture_loop g es st = Ok s /\
      keys s = keys st ++ es /\
      (forall k, ~ In k es -> get s k = get st k) /\
      (forall u v, In (u, v) es ->
         exists r e, link_ref g u v = Some r /\ get s (u, v) = Some e /\
                     get (nx.deref g r) "latency"%string = Some (es_latency e) /\
                     get (nx.deref g r) "jitter"%string = Some (es_jitter e) /\
                     get (nx.deref g r) "packet_loss"%string = Some (es_packet_loss e)).
Proof.
  intros LV. induction es as [|[u v] es IH]; intros L st ND.
  - exists st. split; [reflexivity|]. split; [rewrite app_nil_r; reflexivity|].
    split; [reflexivity|intros u v []].
  - destruct (L u v) as [r G]; [left; reflexivity|].
    destruct (link_valid_gets _ (LV u v r G)) as (l & j & p & b & Gl & Gj & Gp & _).
    assert (M : mem st (u, v) = false).
    { destruct (mem st (u, v)) eqn:M; [|reflexivity]. apply mem_In_keys in M.
      apply NoDup_remove_2 in ND. exfalso. apply ND. apply in_or_app. left. exact M. }
    assert (K : keys (set st (u, v) (mkEdgeState l j p)) = keys st ++ [(u, v)])
      by (rewrite keys_set, M; reflexivity).
    assert (NI : ~ In (u, v) es).
    { apply NoDup_remove_2 in ND. intros I. apply ND. apply in_or_app. right. exact I. }
    destruct (IH (fun x y I => L x y (or_intror I)) (set st (u, v) (mkEdgeState l j p)))
      as (s & E & Ks & O & A).
    { rewrite K, <- app_assoc. exact ND. }
    exists s. split; [|split; [|split]].
    + cbn [capture_loop]. rewrite edge_data_link_ref, G. cbn [bind]. unfold getitem.
      rewrite Gl, Gj, Gp. cbn [bind]. exact E.
    + rewrite Ks, K, <- app_assoc. reflexivity.
    + intros k N. rewrite O by (intros I; apply N; right; exact I).
      apply get_set_other. intros <-. apply N. left. reflexivity.
    + intros x y [[= <- <-]|I]; [|apply A; exact I].
      exists r, (mkEdgeState l j p). split; [exact G|]. split; [|auto].
      rewrite O by exact NI. apply get_set_same.
Qed.

(** X14. On a built controller [_capture_state] succeeds, and the
    snapshot has exactly one entry per link: its keys are the edges of the
    topology, in order and without repetition; every link is there in one
    direction, and only a link from a node to itself in both; each entry
    holds the latency, jitter and packet loss of its link. *)
Theorem capture_state_entries (c : SDWANController) :
  built c ->
  exists state,
    _capture_state c = Ok state /\
    keys state = nx.edges (topology c) /\
    NoDup (keys state) /\
    (forall u v, nx.has_edge (topology c) u v = true ->
                 mem state (u, v) = true \/ mem state (v, u) = true) /\
    (forall u v, mem state (u, v) = true -> mem state (v, u) = true -> u = v) /\
    (forall u v e, get state (u, v) = Some e ->
       exists d, nx.edge_data (topology c) u v = Ok d /\
                 get d "latency"%string = Some (es_latency e) /\
                 get d "jitter"%string = Some (es_jitter e) /\
                 get d "packet_loss"%string = Some (es_packet_loss e)).
Proof.
  intros B. destruct (built_graph_inv c B) as (W & _ & LV).
  pose proof (edges_NoDup (topology c) W) as ND.
  destruct (capture_loop_spec (topology c) (nx.edges (topology c)) LV
              (edges_link (topology c) W) [] ND) as (s & E & K & _ & A).
  cbn [keys map app] in K.
  exists s. split; [exact E|]. split; [exact K|]. split; [rewrite K; exact ND|].
  split; [|split].
  - intros u v H. rewrite has_edge_link_ref in H.
    destruct (link_ref (topology c) u v) as [r|] eqn:G; [|discriminate H].
    rewrite !mem_In_keys, K. apply (link_edges (topology c) W u v r G).
  - intros u v. rewrite !mem_In_keys, K. apply (edges_one_direction (topology c)).
  - intros u v e G. assert (I : In (u, v) (nx.edges (topology c))).
    { rewrite <- K. eapply get_In_keys. exact G. }
    destruct (A u v I) as (r & e' & Gr & Ge & Gl & Gj & Gp).
    assert (e' = e) by congruence. subst e'.
    exists (nx.deref (topology c) r). rewrite edge_data_link_ref, Gr. auto.
Qed.

Lemma capture_state_entries_witness :
  exists state,
    _capture_state demo_controller = Ok state /\
    keys state = [("HQ", "Branch1"); ("HQ", "Branch2"); ("Branch1", "Branch2");
                  ("Branch1", "CloudGW"); ("Branch2", "CloudGW")]%string.
Proof.
  destruct (capture_state_entries demo_controller built_demo_controller)
    as (state & E & K & _).
  exists state. split; [exact E|]. rewrite K. vm_compute. reflexivity.
Defined.

(** ** Link monitoring *)

(** The metrics one pass of the loop of [monitor_links] writes for a link
    with latency [l], jitter [j] and packet loss [p], and the generator
    after its three draws. *)
Definition monitor_metrics (l j p : float) (rnd : Random)
  : list (string * float) * Random :=
  let '(x1, r1) := uniform 0.9 1.1 rnd in
  let '(x2, r2) := uniform 0.8 1.2 r1 in
  let '(x3, r3) := uniform (-0.1) 0.1 r2 in
  ([("latency"%string, (l * x1)%float); ("jitter"%string, (j * x2)%float);
    ("packet_loss"%string, py_min 5%float (py_max 0%float (p + x3)%float))], r3).

Definition in_0_5 (p : float) : Prop := (0 <=? p)%float = true /\ (p <=? 5)%float = true.

Lemma clamp_0_5 (y : float) : in_0_5 (py_min 5 (py_max 0 y)).
Proof.
  unfold in_0_5, py_min, py_max. destruct (0 <? y)%float eqn:E1.
  - destruct (y <? 5)%float eqn:E2.
    + split; apply ltb_leb; assumption.
    + split; reflexivity.
  - split; reflexivity.
Qed.

Lemma monitor_metrics_spec (l j p : float) (rnd : Random) :
  keys (fst (monitor_metrics l j p rnd))
  = ["latency"%string; "jitter"%string; "packet_loss"%string] /\
  (exists x, In ("packet_loss"%string, x) (fst (monitor_metrics l j p rnd)) /\ in_0_5 x) /\
  draws (snd (monitor_metrics l j p rnd)) = draws rnd /\
  drawn (snd (monitor_metrics l j p rnd)) = 3 + drawn rnd.
Proof.
  unfold monitor_metrics, uniform, random. cbn [fst snd keys map draws drawn].
  split; [reflexivity|]. split; [|split; reflexivity].
  eexists. split; [right; right; left; reflexivity|apply clamp_0_5].
Qed.

(** Every link carries the three metrics the monitor reads. *)
Definition links_tracked (g : nx.Graph) : Prop :=
  forall x w r, link_ref g x w = Some r ->
    exists l j p,
      get (nx.deref g r) "latency"%string = Some l /\
      get (nx.deref g r) "jitter"%string = Some j /\
      get (nx.deref g r) "packet_loss"%string = Some p.

Definition loss_clamped (g : nx.Graph) (x w : string) : Prop :=
  forall r, link_ref g x w = Some r ->
    exists p, get (nx.deref g r) "packet_loss"%string = Some p /\ in_0_5 p.

(** The graph with the attributes of reference [r] updated. *)
Definition with_metrics (g : nx.Graph) (r : nat) (metrics : list (string * float))
  : nx.Graph :=
  nx.mkGraph (nx._node g) (nx._adj g)
             (write (nx._data g) r (update (nx.deref g r) metrics)).

Lemma monitor_loop_cons (c : SDWANController) (u v : string)
  (rest : list (string * string)) (rnd : Random) (r : nat) (l j p : float) :
  wf_spec (topology c) ->
  link_ref (topology c) u v = Some r ->
  get (nx.deref (topology c) r) "latency"%string = Some l ->
  get (nx.deref (topology c) r) "jitter"%string = Some j ->
  get (nx.deref (topology c) r) "packet_loss"%string = Some p ->
  monitor_loop c ((u, v) :: rest) rnd
  = monitor_loop
      (mkController (with_metrics (topology c) r (fst (monitor_metrics l j p rnd))) (flows c))
      rest (snd (monitor_metrics l j p rnd)).
Proof.
  intros W G Gl Gj Gp. cbn [monitor_loop]. rewrite edge_data_link_ref, G. cbn [bind].
  unfold getitem. rewrite Gl, Gj, Gp. cbn [bind].
  unfold monitor_metrics, uniform, random. cbn [fst snd draws drawn bind].
  unfold update_link_metrics. rewrite has_edge_link_ref, G.
  assert (L : r < List.length (nx._data (topology c))).
  { destruct W as (_ & _ & SY & _). apply (SY u v r G). }
  unfold link_ref in G. destruct (get (nx._adj (topology c)) u) as [nbrs|] eqn:G1; [|discriminate].
  rewrite (set_metrics_ok _ _ u v nbrs r G1 G L). cbn [bind]. reflexivity.
Qed.

Lemma with_metrics_wf (g : nx.Graph) (r : nat) (metrics : list (string * float)) :
  wf_spec g -> wf_spec (with_metrics g r metrics).
Proof.
  intros (ND & NB & SY & NM). split; [exact ND|]. split; [exact NB|]. split; [|exact NM].
  intros x w r0 G. unfold with_metrics. cbn [nx._data]. rewrite length_write. apply (SY x w r0 G).
Qed.

Lemma deref_with_metrics (g : nx.Graph) (r r0 : nat) (metrics : list (string * float)) :
  r < List.length (nx._data g) ->
  nx.deref (with_metrics g r metrics) r0
  = if Nat.eqb r r0 then update (nx.deref g r) metrics else nx.deref g r0.
Proof.
  intros L. unfold with_metrics, nx.deref at 1. cbn [nx._data].
  destruct (Nat.eqb r r0) eqn:E.
  - apply Nat.eqb_eq in E. subst r0. apply nth_write_same. exact L.
  - apply Nat.eqb_neq in E. apply nth_write_other. exact E.
Qed.

(** What the loop of [monitor_links] does on a list of links. *)
Lemma monitor_loop_spec (es : list (string * string)) :
  forall (c : SDWANController) (rnd : Random),
    wf_spec (topology c) -> links_tracked (topology c) ->
    (forall u v, In (u, v) es -> exists r, link_ref (topology c) u v = Some r) ->
    exists c' rnd',
      monitor_loop c es rnd = Ok (c', rnd') /\
      flows c' = flows c /\
      nx._node (topology c') = nx._node (topology c) /\
      nx._adj (topology c') = nx._adj (topology c) /\
      draws rnd' = draws rnd /\
      drawn rnd' = 3 * List.length es + drawn rnd /\
      (forall r0 k, k <> "latency"%string -> k <> "jitter"%string ->
                    k <> "packet_loss"%string ->
                    get (nx.deref (topology c') r0) k = get (nx.deref (topology c) r0) k) /\
      (forall x w, loss_clamped (topology c) x w -> loss_clamped (topology c') x w) /\
      (forall x w, In (x, w) es -> loss_clamped (topology c') x w).
Proof.
  induction es as [|[u v] es IH]; intros c rnd W T L.
  - exists c, rnd. split; [reflexivity|]. repeat (split; [reflexivity|]).
    split; [auto|intros x w []].
  - destruct (L u v) as [r G]; [left; reflexivity|].
    destruct (T u v r G) as (l & j & p & Gl & Gj & Gp).
    rewrite (monitor_loop_cons c u v es rnd r l j p W G Gl Gj Gp).
    destruct (monitor_metrics_spec l j p rnd) as (K & (x & Ix & Cx) & D1 & D2).
    set (ms := fst (monitor_metrics l j p rnd)) in *.
    set (rnd1 := snd (monitor_metrics l j p rnd)) in *.
    assert (Lr : r < List.length (nx._data (topology c))).
    { destruct W as (_ & _ & SY & _). apply (SY u v r G). }
    assert (NDk : NoDup (keys ms)).
    { rewrite K. apply nodupb_NoDup. reflexivity. }
    set (c1 := mkController (with_metrics (topology c) r ms) (flows c)).
    assert (W1 : wf_spec (topology c1)) by (apply with_metrics_wf; exact W).
    assert (LR1 : forall a b, link_ref (topology c1) a b = link_ref (topology c) a b)
      by reflexivity.
    assert (T1 : links_tracked (topology c1)).
    { intros a b r0 G0. rewrite LR1 in G0. cbn [c1 topology].
      rewrite deref_with_metrics by exact Lr. destruct (Nat.eqb r r0) eqn:E.
      - assert (forall k, In k (keys ms) -> exists y, get (update (nx.deref (topology c) r) ms) k = Some y).
        { intros k I. apply in_map_iff in I as ([k' y] & <- & I). exists y.
          apply get_update_In; assumption. }
        destruct (H "latency"%string) as [y1 H1]; [rewrite K; cbn; auto|].
        destruct (H "jitter"%string) as [y2 H2]; [rewrite K; cbn; auto|].
        destruct (H "packet_loss"%string) as [y3 H3]; [rewrite K; cbn; auto|].
        exists y1, y2, y3. auto.
      - apply (T a b r0 G0). }
    assert (C1 : forall a b, loss_clamped (topology c) a b -> loss_clamped (topology c1) a b).
    { intros a b Q r0 G0. rewrite LR1 in G0. cbn [c1 topology].
      rewrite deref_with_metrics by exact Lr. destruct (Nat.eqb r r0) eqn:E.
      - exists x. split; [apply get_update_In; assumption|exact Cx].
      - apply (Q r0 G0). }
    assert (Cuv : loss_clamped (topology c1) u v).
    { intros r0 G0. rewrite LR1, G in G0. injection G0 as <-. cbn [c1 topology].
      rewrite deref_with_metrics, Nat.eqb_refl by exact Lr.
      exists x. split; [apply get_update_In; assumption|exact Cx]. }
    destruct (IH c1 rnd1 W1 T1) as (c' & rnd' & E & F & N & A & Dr & Dn & O & P & Q).
    { intros a b I. rewrite LR1. apply L. right. exact I. }
    exists c', rnd'. split; [exact E|]. split; [exact F|]. split; [exact N|]. split; [exact A|].
    split; [rewrite Dr; exact D1|]. split.
    { rewrite Dn, D2. cbn [List.length].
      generalize (List.length es), (drawn rnd). clear. intros n m. lia. }
    split; [|split].
    + intros r0 k N1 N2 N3. rewrite O by assumption. cbn [c1 topology].
      rewrite deref_with_metrics by exact Lr. destruct (Nat.eqb r r0) eqn:E0; [|reflexivity].
      apply Nat.eqb_eq in E0. subst r0. apply get_update_other. rewrite K.
      intros [X|[X|[X|[]]]]; congruence.
    + intros a b Q0. apply P. apply C1. exact Q0.
    + intros a b [[= <- <-]|I]; [apply P; exact Cuv|apply Q; exact I].
Qed.

Lemma links_valid_tracked (g : nx.Graph) : links_valid_spec g -> links_tracked g.
Proof.
  intros LV x w r G.
  destruct (link_valid_gets _ (LV x w r G)) as (l & j & p & b & Gl & Gj & Gp & _).
  exists l, j, p. auto.
Qed.

Lemma link_ref_adj (g g' : nx.Graph) (x w : string) :
  nx._adj g' = nx._adj g -> link_ref g' x w = link_ref g x w.
Proof. unfold link_ref. intros ->. reflexivity. Qed.

(** X15. On a built controller [monitor_links] never fails, whatever the
    random draws (NaN and infinities included).  It makes three draws per
    edge, keeps the flows, the nodes and the links, and changes no
    attribute of any link other than latency, jitter and packet loss:
    bandwidth and cost stay as they were. *)
Theorem monitor_links_keeps_shape (c : SDWANController) (rnd : Random) :
  built c ->
  exists c' rnd',
    monitor_links c rnd = Ok (c', rnd') /\
    flows c' = flows c /\
    nx.edges (topology c') = nx.edges (topology c) /\
    (forall n, nx.has_node (topology c') n = nx.has_node (topology c) n) /\
    (forall u v, nx.has_edge (topology c') u v = nx.has_edge (topology c) u v) /\
    draws rnd' = draws rnd /\
    drawn rnd' = 3 * List.length (nx.edges (topology c)) + drawn rnd /\
    (forall u v d k,
       nx.edge_data (topology c) u v = Ok d ->
       k <> "latency"%string -> k <> "jitter"%string -> k <> "packet_loss"%string ->
       exists d', nx.edge_data (topology c') u v = Ok d' /\ get d' k = get d k).
Proof.
  intros B. destruct (built_graph_inv c B) as (W & _ & LV).
  destruct (monitor_loop_spec (nx.edges (topology c)) c rnd W (links_valid_tracked _ LV)
              (edges_link (topology c) W))
    as (c' & rnd' & E & F & N & A & Dr & Dn & O & _ & _).
  exists c', rnd'. split; [exact E|]. split; [exact F|].
  split; [unfold nx.edges; rewrite A; reflexivity|].
  split; [intros n; unfold nx.has_node; rewrite N; reflexivity|].
  split; [intros u v; unfold nx.has_edge; rewrite A; reflexivity|].
  split; [exact Dr|]. split; [exact Dn|].
  intros u v d k Ed N1 N2 N3. rewrite edge_data_link_ref in Ed.
  rewrite edge_data_link_ref, (link_ref_adj _ _ u v A).
  destruct (link_ref (topology c) u v) as [r|]; [|discriminate Ed].
  exists (nx.deref (topology c') r). split; [reflexivity|].
  rewrite (O r k N1 N2 N3).
  apply (f_equal (fun x => match x with Ok d0 => get d0 k | Raise _ => None end)) in Ed.
  exact Ed.
Qed.

Lemma monitor_links_keeps_shape_witness :
  exists c' rnd',
    monitor_links demo_controller (mkRandom (fun _ => 0.5%float) 0) = Ok (c', rnd') /\
    drawn rnd' = 15 /\
    nx.edges (topology c') = nx.edges (topology demo_controller).
Proof.
  destruct (monitor_links_keeps_shape demo_controller (mkRandom (fun _ => 0.5%float) 0)
              built_demo_controller)
    as (c' & rnd' & E & _ & Ed & _ & _ & _ & Dn & _).
  exists c', rnd'. split; [exact E|]. split; [|exact Ed].
  rewrite Dn. vm_compute. reflexivity.
Defined.

(** X16. After [monitor_links] on a built controller the packet loss of
    every link lies within [0, 5], whatever it was before and whatever
    the random draws were (a NaN is clamped to 0). *)
Theorem monitor_links_loss_clamped (c c' : SDWANController) (rnd rnd' : Random)
  (u v : string) (d' : nx.attrs) :
  built c ->
  monitor_links c rnd = Ok (c', rnd') ->
  nx.edge_data (topology c') u v = Ok d' ->
  exists p, get d' "packet_loss"%string = Some p /\
            (0 <=? p)%float = true /\ (p <=? 5)%float = true.
Proof.
  intros B E Ed. destruct (built_graph_inv c B) as (W & _ & LV).
  destruct (monitor_loop_spec (nx.edges (topology c)) c rnd W (links_valid_tracked _ LV)
              (edges_link (topology c) W))
    as (c1 & rnd1 & E1 & _ & _ & A & _ & _ & _ & _ & Q).
  unfold monitor_links in E. rewrite E1 in E.
  apply (f_equal (fun x => match x with Ok (c0, _) => c0 | Raise _ => c' end)) in E.
  subst c1. rewrite edge_data_link_ref in Ed.
  destruct (link_ref (topology c') u v) as [r|] eqn:G; [|discriminate Ed].
  apply (f_equal (fun x => match x with Ok d0 => d0 | Raise _ => d' end)) in Ed. subst d'.
  pose proof G as G0. rewrite (link_ref_adj _ _ u v A) in G0.
  destruct (link_edges (topology c) W u v r G0) as [I|I].
  - apply (Q u v I r G).
  - apply (Q v u I r). rewrite (link_ref_adj _ _ v u A), <- (link_ref_sym _ u v W). exact G0.
Qed.

(** The scenario after one round of monitoring with every draw equal to
    one half. *)
Definition demo_monitored : SDWANController :=
  match monitor_links demo_controller (mkRandom (fun _ => 0.5%float) 0) with
  | Ok (c, _) => c
  | Raise _ => demo_controller
  end.

Lemma monitor_links_loss_clamped_witness :
  exists d p, nx.edge_data (topology demo_monitored) "Branch2" "CloudGW" = Ok d /\
              get d "packet_loss"%string = Some p /\ (p <=? 5)%float = true.
Proof.
  assert (E : monitor_links demo_controller (mkRandom (fun _ => 0.5%float) 0)
              = Ok (demo_monitored, mkRandom (fun _ => 0.5%float) 15))
    by (vm_compute; reflexivity).
  destruct (nx.edge_data (topology demo_monitored) "Branch2" "CloudGW") as [d|e] eqn:Ed;
    [|vm_compute in Ed; discriminate Ed].
  destruct (monitor_links_loss_clamped demo_controller demo_monitored _ _
              "Branch2" "CloudGW" d built_demo_controller E Ed) as (p & Gp & _ & P5).
  exists d, p. auto.
Defined.

(** ** Monitoring keeps the link invariants *)

(** A finite number above zero. *)
Definition pos_finite (x : float) : bool := is_finite x && (0 <? x)%float.

Lemma pos_finite_SF (f : float) :
  pos_finite f = true -> exists m e, Prim2SF f = S754_finite false m e.
Proof.
  unfold pos_finite. rewrite andb_true_iff, ltb_spec. intros [F P].
  change (Prim2SF 0) with (S754_zero false) in P.
  destruct (is_finite_SF f F) as [[s E]|(s & m & e & E)]; rewrite E in P.
  - destruct s; discriminate P.
  - destruct s; [discriminate P|]. rewrite E. eauto.
Qed.

Lemma mul_pos_finite_nonneg (l f : float) :
  nonneg l -> pos_finite f = true -> nonneg (l * f).
Proof.
  intros N P. destruct (pos_finite_SF f P) as (m & e & E).
  apply nonneg_SF. rewrite mul_spec, E. apply SFmul_nn_fin. apply nonneg_SF. exact N.
Qed.

(** The factors [random.uniform(0.9, 1.1)] and [random.uniform(0.8, 1.2)]
    give for every value the generator may return are finite and positive
    (as they are for values in [0, 1)). *)
Definition factors_positive (rnd : Random) : Prop :=
  forall i,
    pos_finite (fst (uniform 0.9 1.1 (mkRandom (draws rnd) i))) = true /\
    pos_finite (fst (uniform 0.8 1.2 (mkRandom (draws rnd) i))) = true.

Lemma monitor_loop_built (es : list (string * string)) :
  forall (c c' : SDWANController) (rnd rnd' : Random),
    built c -> factors_positive rnd ->
    monitor_loop c es rnd = Ok (c', rnd') -> built c'.
Proof.
  induction es as [|[u v] es IH]; intros c c' rnd rnd' B FP E.
  - cbn [monitor_loop] in E.
    apply (f_equal (fun x => match x with Ok (c0, _) => c0 | Raise _ => c' end)) in E.
    cbv beta iota in E. subst c'. exact B.
  - destruct (built_graph_inv c B) as (W & _ & LV).
    cbn [monitor_loop] in E. rewrite edge_data_link_ref in E.
    destruct (link_ref (topology c) u v) as [r|] eqn:G; cbn [bind] in E; [|discriminate E].
    destruct (link_valid_gets _ (LV u v r G)) as (l & j & p & b & Gl & Gj & Gp & _ & Hl & Hj & _).
    unfold getitem in E. rewrite Gl, Gj, Gp in E. cbn [bind] in E.
    unfold uniform at 1 2 3 in E. unfold random in E. cbn [fst snd draws drawn bind] in E.
    destruct (update_link_metrics c u v _) as [c1|e] eqn:U; cbn [bind] in E; [|discriminate E].
    apply (IH c1 c' (mkRandom (draws rnd) (S (S (S (drawn rnd))))) rnd'); [| |exact E].
    + eapply built_update_link_metrics; [exact B| |exact U].
      cbn [forallb]. unfold metric_valid. cbn [fst snd].
      change (String.eqb "latency" "bandwidth") with false.
      change (String.eqb "latency" "latency") with true.
      change (String.eqb "jitter" "bandwidth") with false.
      change (String.eqb "jitter" "latency") with false.
      change (String.eqb "jitter" "jitter") with true.
      change (String.eqb "packet_loss" "bandwidth") with false.
      change (String.eqb "packet_loss" "latency") with false.
      change (String.eqb "packet_loss" "jitter") with false.
      change (String.eqb "packet_loss" "packet_loss") with true.
      cbv iota. rewrite !andb_true_iff. split; [|split; [|split; [|reflexivity]]].
      * apply mul_pos_finite_nonneg; [exact Hl|]. apply (FP (drawn rnd)).
      * apply mul_pos_finite_nonneg; [exact Hj|]. apply (FP (S (drawn rnd))).
      * apply clamp_0_5.
    + exact FP.
Qed.

(** X17. [monitor_links] keeps the link invariants: when the factors
    drawn by [random.uniform(0.9, 1.1)] and [random.uniform(0.8, 1.2)] are
    finite and positive, the controller [monitor_links] leaves behind is
    again a built one (every link with latency, jitter, packet loss not
    negative and bandwidth positive), so that path computation on it can
    fail with [NetworkXNoPath] only. *)
Theorem monitor_links_built (c c' : SDWANController) (rnd rnd' : Random) :
  built c -> factors_positive rnd ->
  monitor_links c rnd = Ok (c', rnd') ->
  built c'.
Proof. intros B FP E. exact (monitor_loop_built _ c c' rnd rnd' B FP E). Qed.

Lemma monitor_links_built_witness : built demo_monitored.
Proof.
  apply (monitor_links_built demo_controller demo_monitored
           (mkRandom (fun _ => 0.5%float) 0) (mkRandom (fun _ => 0.5%float) 15)).
  - exact built_demo_controller.
  - intros i. split; vm_compute; reflexivity.
  - vm_compute. reflexivity.
Defined.

(** ** The simulation loop *)

Lemma simulate_traffic_total (c : SDWANController) :
  built c ->
  (forall flow_id flow, get (flows c) flow_id = Some flow -> flow_ready c flow) ->
  exists results, simulate_traffic c = Ok results.
Proof.
  intros B R. pose proof (built_flows_NoDup c B) as ND. unfold simulate_traffic.
  apply simulate_loop_total. apply Forall_forall. intros [i f] I. cbn [fst snd].
  pose proof (In_get_NoDup _ _ _ ND I) as G.
  destruct (evaluate_flow_ok c i f B G (R i f G)) as (r & E & _). eauto.
Qed.

Lemma reach_adj (g g' : nx.Graph) (s t : string) :
  nx._adj g' = nx._adj g -> reach g s t -> reach g' s t.
Proof.
  intros A. induction 1 as [|u v R IH E]; [apply reach_refl|].
  apply (reach_step g' s u v IH). unfold nx.has_edge in *. rewrite A. exact E.
Qed.

Lemma flow_ready_adj (c c' : SDWANController) (flow : TrafficFlow) :
  nx._node (topology c') = nx._node (topology c) ->
  nx._adj (topology c') = nx._adj (topology c) ->
  flow_ready c flow -> flow_ready c' flow.
Proof.
  intros N A (K & R & S & T & RE). unfold flow_ready, nx.has_node in *. rewrite N.
  repeat (split; [assumption|]). apply (reach_adj _ _ _ _ A RE).
Qed.

(** The baseline of the optimizer, when there is one, holds links of the
    controller only. *)
Definition tracks (o : DynamicPathOptimizer) (c : SDWANController) : Prop :=
  forall last, last_item (history o) = Ok last ->
    forall k, In k (keys last) -> In k (nx.edges (topology c)).

Lemma capture_state_ok (c : SDWANController) :
  built c -> exists s, _capture_state c = Ok s /\ keys s = nx.edges (topology c).
Proof.
  intros B. destruct (built_graph_inv c B) as (W & _ & LV).
  destruct (capture_loop_spec (topology c) (nx.edges (topology c)) LV
              (edges_link (topology c) W) [] (edges_NoDup (topology c) W))
    as (s & E & K & _).
  exists s. split; [exact E|exact K].
Qed.

Lemma optimize_paths_ok (o : DynamicPathOptimizer) (c : SDWANController) (th : float) :
  built c -> tracks o c ->
  exists signal o', optimize_paths o c th = Ok (signal, o') /\ tracks o' c.
Proof.
  intros B T. destruct (capture_state_ok c B) as (s & E & K).
  unfold optimize_paths. rewrite E. cbn [bind].
  assert (TS : tracks (mkOptimizer (history o ++ [s])) c).
  { intros last L k I. cbn [history] in L. rewrite last_item_snoc in L.
    apply (f_equal (fun x => match x with Ok y => y | Raise _ => last end)) in L.
    cbv beta iota in L. subst last. rewrite <- K. exact I. }
  destruct (rev (history o)) as [|last rest] eqn:R; [eauto|].
  assert (L : last_item (history o) = Ok last) by (rewrite last_item_rev, R; reflexivity).
  pose proof (diff_loop_outcomes s last 0%float eq_refl) as D.
  unfold _state_diff. destruct (diff_loop last s 0%float) as [d|e]; cbn [bind].
  - destruct (th <? d)%float; eauto.
  - exfalso. destruct D as [_ (k & I & M)].
    assert (X : mem s k = true); [|congruence].
    apply mem_In_keys. rewrite K. apply (T last L k I).
Qed.

Lemma simulation_step_ok (c : SDWANController) (o : DynamicPathOptimizer) (rnd : Random) :
  built c ->
  (forall flow_id flow, get (flows c) flow_id = Some flow -> flow_ready c flow) ->
  tracks o c -> factors_positive rnd ->
  exists c' o' rnd' reported,
    simulation_step c o rnd = Ok (c', o', rnd', reported) /\
    built c' /\
    (forall flow_id flow, get (flows c') flow_id = Some flow -> flow_ready c' flow) /\
    tracks o' c' /\ factors_positive rnd'.
Proof.
  intros B R T FP. destruct (built_graph_inv c B) as (W & _ & LV).
  destruct (monitor_loop_spec (nx.edges (topology c)) c rnd W (links_valid_tracked _ LV)
              (edges_link (topology c) W))
    as (c1 & rnd1 & E & F & N & A & Dr & _).
  assert (B1 : built c1) by (apply (monitor_loop_built _ c c1 rnd rnd1 B FP E)).
  assert (R1 : forall i f, get (flows c1) i = Some f -> flow_ready c1 f).
  { intros i f G. rewrite F in G. apply (flow_ready_adj c c1 f N A). apply (R i f G). }
  assert (T1 : tracks o c1).
  { intros last L k I. unfold nx.edges. rewrite A. apply (T last L k I). }
  assert (FP1 : factors_positive rnd1).
  { intros i. unfold factors_positive in FP. rewrite Dr. apply FP. }
  destruct (optimize_paths_ok o c1 10 B1 T1) as (signal & o' & Eo & T').
  destruct (simulate_traffic_total c1 B1 R1) as (results & Es).
  unfold simulation_step, monitor_links. rewrite E. cbn [bind]. rewrite Eo. cbn [bind].
  destruct signal.
  - rewrite Es. cbn [bind]. exists c1, o', rnd1, (Some results). auto.
  - exists c1, o', rnd1, None. auto.
Qed.

Lemma simulation_loop_ok (steps : nat) :
  forall (c : SDWANController) (o : DynamicPathOptimizer) (rnd : Random)
         (out : list (option (dict string PathResult))),
    built c ->
    (forall flow_id flow, get (flows c) flow_id = Some flow -> flow_ready c flow) ->
    tracks o c -> factors_positive rnd ->
    exists out', simulation_loop steps c o rnd out = Ok out' /\
                 List.length out' = steps + List.length out.
Proof.
  induction steps as [|n IH]; intros c o rnd out B R T FP.
  - exists out. split; reflexivity.
  - destruct (simulation_step_ok c o rnd B R T FP)
      as (c' & o' & rnd' & reported & E & B' & R' & T' & FP').
    cbn [simulation_loop]. rewrite E. cbn [bind].
    destruct (IH c' o' rnd' (out ++ [reported]) B' R' T' FP') as (out' & E' & L).
    exists out'. split; [exact E'|]. rewrite L, length_app. cbn [List.length].
    generalize (List.length out). clear. intros m. lia.
Qed.

Lemma demo_flows_ready (flow_id : string) (flow : TrafficFlow) :
  get (flows demo_controller) flow_id = Some flow -> flow_ready demo_controller flow.
Proof.
  assert (R1 : reach (topology demo_controller) "Branch1" "HQ").
  { apply (reach_step _ _ "Branch1"); [apply reach_refl|vm_compute; reflexivity]. }
  assert (R2 : reach (topology demo_controller) "Branch1" "CloudGW").
  { apply (reach_step _ _ "Branch1"); [apply reach_refl|vm_compute; reflexivity]. }
  assert (R3 : reach (topology demo_controller) "Branch2" "HQ").
  { apply (reach_step _ _ "Branch2"); [apply reach_refl|vm_compute; reflexivity]. }
  change (flows demo_controller)
    with [("voip1"%string, mkTrafficFlow "Branch1" "HQ" 0.5 1 "latency");
          ("backup1"%string, mkTrafficFlow "Branch1" "CloudGW" 20 4 "throughput");
          ("video1"%string, mkTrafficFlow "Branch2" "HQ" 5 2 "reliability")].
  cbn [get].
  destruct (keqb "voip1"%string flow_id);
    [intros G; apply (f_equal (fun o => match o with Some f => f | None => flow end)) in G;
     subst flow; repeat split; try reflexivity; assumption|].
  destruct (keqb "backup1"%string flow_id);
    [intros G; apply (f_equal (fun o => match o with Some f => f | None => flow end)) in G;
     subst flow; repeat split; try reflexivity; assumption|].
  destruct (keqb "video1"%string flow_id);
    [intros G; apply (f_equal (fun o => match o with Some f => f | None => flow end)) in G;
     subst flow; repeat split; try reflexivity; assumption|].
  intros G; discriminate G.
Qed.

(** X18. [run_simulation] never fails: whatever the generator returns,
    provided the factors drawn for latency and jitter are finite and
    positive, each of the ten passes of monitoring, drift check and (when
    signalled) evaluation of the three flows succeeds, and the run reports
    ten times (results or nothing). *)
Theorem run_simulation_succeeds (rnd : Random) :
  factors_positive rnd ->
  exists out, run_simulation rnd = Ok out /\ List.length out = 10.
Proof.
  intros FP. unfold run_simulation.
  destruct (simulation_loop_ok 10 demo_controller DynamicPathOptimizer_init rnd []
              built_demo_controller demo_flows_ready) as (out & E & L).
  - intros last X. discriminate X.
  - exact FP.
  - exists out. split; [exact E|exact L].
Qed.

Lemma run_simulation_succeeds_witness :
  exists out, run_simulation (mkRandom (fun _ => 0.5%float) 0) = Ok out /\
              List.length out = 10.
Proof.
  apply run_simulation_succeeds. intros i. split; vm_compute; reflexivity.
Defined.

(** ** Metric updates *)

Lemma update_link_metrics_link (c : SDWANController) (a b : string) (r : nat)
  (metrics : list (string * float)) :
  wf_spec (topology c) -> link_ref (topology c) a b = Some r ->
  update_link_metrics c a b metrics
  = Ok (mkController (with_metrics (topology c) r metrics) (flows c)).
Proof.
  intros W G. unfold update_link_metrics. rewrite has_edge_link_ref, G.
  assert (L : r < List.length (nx._data (topology c))).
  { destruct W as (_ & _ & SY & _). apply (SY a b r G). }
  unfold link_ref in G. destruct (get (nx._adj (topology c)) a) as [nbrs|] eqn:G1; [|discriminate].
  rewrite (set_metrics_ok _ _ a b nbrs r G1 G L). reflexivity.
Qed.

Lemma update_link_metrics_no_link (c : SDWANController) (a b : string)
  (metrics : list (string * float)) :
  link_ref (topology c) a b = None -> update_link_metrics c a b metrics = Ok c.
Proof.
  intros G. unfold update_link_metrics. rewrite has_edge_link_ref, G. reflexivity.
Qed.

Lemma update_app {K V : Type} `{EqKey K} (d : dict K V) (m1 m2 : list (K * V)) :
  update d (m1 ++ m2) = update (update d m1) m2.
Proof. unfold update. apply fold_left_app. Qed.

(** X19. On a built controller the two endpoints of a link can be given
    in either order: [update_link_metrics(a, b, ...)] and
    [update_link_metrics(b, a, ...)] with the same metrics leave the same
    controller. *)
Theorem update_link_metrics_symmetric (c : SDWANController) (a b : string)
  (metrics : list (string * float)) :
  built c ->
  update_link_metrics c a b metrics = update_link_metrics c b a metrics.
Proof.
  intros B. destruct (built_graph_inv c B) as (W & _ & _).
  pose proof (link_ref_sym (topology c) a b W) as S.
  destruct (link_ref (topology c) a b) as [r|] eqn:G.
  - rewrite (update_link_metrics_link c a b r metrics W G).
    rewrite (update_link_metrics_link c b a r metrics W (eq_sym S)). reflexivity.
  - rewrite (update_link_metrics_no_link c a b metrics G).
    rewrite (update_link_metrics_no_link c b a metrics (eq_sym S)). reflexivity.
Qed.

Lemma update_link_metrics_symmetric_witness :
  update_link_metrics demo_controller "Branch1" "HQ" [("latency"%string, 45%float)]
  = Ok (demo_with_latency 45).
Proof.
  rewrite (update_link_metrics_symmetric demo_controller "Branch1" "HQ" _ built_demo_controller).
  vm_compute. reflexivity.
Defined.

(** X20. On a built controller two metric updates of the same link in a
    row amount to one update with the metrics of the first followed by
    those of the second (for a field given in both, the second value
    stays). *)
Theorem update_link_metrics_compose (c c1 : SDWANController) (a b : string)
  (m1 m2 : list (string * float)) :
  built c ->
  update_link_metrics c a b m1 = Ok c1 ->
  update_link_metrics c1 a b m2 = update_link_metrics c a b (m1 ++ m2).
Proof.
  intros B U. destruct (built_graph_inv c B) as (W & _ & _).
  destruct (link_ref (topology c) a b) as [r|] eqn:G.
  - rewrite (update_link_metrics_link c a b r m1 W G) in U.
    apply (f_equal (fun x => match x with Ok y => y | Raise _ => c1 end)) in U.
    cbv beta iota in U. subst c1.
    assert (L : r < List.length (nx._data (topology c))).
    { destruct W as (_ & _ & SY & _). apply (SY a b r G). }
    rewrite (update_link_metrics_link _ a b r m2); [|apply with_metrics_wf; exact W|exact G].
    rewrite (update_link_metrics_link c a b r (m1 ++ m2) W G).
    cbn [topology flows]. unfold with_metrics at 1.
    rewrite deref_with_metrics, Nat.eqb_refl by exact L.
    unfold with_metrics. cbn [nx._node nx._adj nx._data].
    rewrite write_write, <- update_app. reflexivity.
  - rewrite (update_link_metrics_no_link c a b m1 G) in U.
    apply (f_equal (fun x => match x with Ok y => y | Raise _ => c1 end)) in U.
    cbv beta iota in U. subst c1.
    rewrite !(update_link_metrics_no_link c a b _ G). reflexivity.
Qed.

Lemma update_link_metrics_compose_witness :
  update_link_metrics (demo_with_latency 45) "HQ" "Branch1" [("latency"%string, 50%float)]
  = Ok (demo_with_latency 50).
Proof.
  assert (U : update_link_metrics demo_controller "HQ" "Branch1" [("latency"%string, 45%float)]
              = Ok (demo_with_latency 45)) by (vm_compute; reflexivity).
  rewrite (update_link_metrics_compose demo_controller (demo_with_latency 45) "HQ" "Branch1"
             [("latency"%string, 45%float)] [("latency"%string, 50%float)]
             built_demo_controller U).
  vm_compute. reflexivity.
Defined.

(** ** The drift check is always defined *)

(** X21. On a built controller whose optimizer has no baseline yet, or
    a baseline that holds links of the controller only, [optimize_paths]
    never fails: it captures a snapshot and either signals, leaving the
    optimizer as it was (and then there was a baseline), or does not
    signal and appends the snapshot, which becomes the baseline.  The
    optimizer it returns satisfies the same condition again. *)
Theorem optimize_paths_total (o : DynamicPathOptimizer) (c : SDWANController) (th : float) :
  built c -> tracks o c ->
  exists s signal o',
    _capture_state c = Ok s /\
    optimize_paths o c th = Ok (signal, o') /\
    (signal = true -> o' = o /\ history o <> []) /\
    (signal = false -> history o' = history o ++ [s]) /\
    tracks o' c.
Proof.
  intros B T. destruct (capture_state_ok c B) as (s & E & K).
  assert (TS : tracks (mkOptimizer (history o ++ [s])) c).
  { intros last L k I. cbn [history] in L. rewrite last_item_snoc in L.
    apply (f_equal (fun x => match x with Ok y => y | Raise _ => last end)) in L.
    cbv beta iota in L. subst last. rewrite <- K. exact I. }
  exists s. unfold optimize_paths. rewrite E. cbn [bind].
  destruct (rev (history o)) as [|last rest] eqn:R.
  { exists false, (mkOptimizer (history o ++ [s])). split; [reflexivity|].
    split; [reflexivity|]. split; [discriminate|]. split; [reflexivity|exact TS]. }
  assert (L : last_item (history o) = Ok last) by (rewrite last_item_rev, R; reflexivity).
  assert (NE : history o <> []) by (intros X; rewrite X in R; discriminate R).
  pose proof (diff_loop_outcomes s last 0%float eq_refl) as D.
  unfold _state_diff. destruct (diff_loop last s 0%float) as [d|e]; cbn [bind].
  - destruct (th <? d)%float.
    + exists true, o. split; [reflexivity|]. split; [reflexivity|].
      split; [auto|]. split; [discriminate|exact T].
    + exists false, (mkOptimizer (history o ++ [s])). split; [reflexivity|].
      split; [reflexivity|]. split; [discriminate|]. split; [reflexivity|exact TS].
  - exfalso. destruct D as [_ (k & I & M)].
    assert (X : mem s k = true); [|congruence].
    apply mem_In_keys. rewrite K. apply (T last L k I).
Qed.

Lemma optimize_paths_total_witness :
  exists s, optimize_paths DynamicPathOptimizer_init demo_controller 10
            = Ok (false, mkOptimizer [s]).
Proof.
  destruct (optimize_paths_total DynamicPathOptimizer_init demo_controller 10
              built_demo_controller) as (s & signal & o' & _ & E & Tt & Ff & _).
  - intros last X. discriminate X.
  - exists s. destruct signal.
    + destruct (Tt eq_refl) as [_ NE]. exfalso. apply NE. reflexivity.
    + rewrite E. destruct o' as [h]. cbn [history] in Ff. rewrite (Ff eq_refl). reflexivity.
Defined.

(** ** Growing the topology *)

Lemma edges_from_set_mono (A : dict string (dict string nat)) (k : string)
  (val : dict string nat) :
  (forall old, get A k = Some old -> incl (keys old) (keys val)) ->
  forall seen e, In e (nx.edges_from A seen) -> In e (nx.edges_from (set A k val) seen).
Proof.
  induction A as [|[n nbrs] rest IH]; intros O seen e; [intros []|].
  cbn [nx.edges_from set]. destruct (keqb n k) eqn:E.
  - cbn [nx.edges_from]. rewrite !in_app_iff. intros [I|I]; [left|right; exact I].
    apply in_map_iff in I as (x & <- & I). apply in_map. apply filter_In in I as [I N].
    apply filter_In. split; [|exact N]. apply (O nbrs); [|exact I].
    cbn [get]. rewrite E. reflexivity.
  - cbn [nx.edges_from]. rewrite !in_app_iff. intros [I|I]; [left; exact I|right].
    apply IH; [|exact I]. intros old G. apply O. cbn [get]. rewrite E. exact G.
Qed.

Lemma edges_from_set_nbr (A : dict string (dict string nat)) (k k' : string) (r : nat) :
  forall seen e,
    In e (nx.edges_from A seen) ->
    In e (nx.edges_from (set A k (set (get_default A k []) k' r)) seen).
Proof.
  apply edges_from_set_mono. intros old G. unfold get_default. rewrite G.
  intros x I. rewrite keys_set. destruct (mem old k'); [exact I|].
  apply in_or_app. left. exact I.
Qed.

Lemma edges_ensure_node (g : nx.Graph) (u : string) (e : string * string) :
  wf_spec g -> In e (nx.edges g) -> In e (nx.edges (nx.ensure_node g u)).
Proof.
  intros (_ & _ & _ & NM) I. unfold nx.ensure_node.
  destruct (mem (nx._node g) u) eqn:M; [exact I|].
  unfold nx.edges. cbn [nx._adj]. apply edges_from_set_mono; [|exact I].
  intros old G. rewrite NM in M. unfold mem in M. rewrite G in M. discriminate M.
Qed.

Lemma edges_add_edge (g : nx.Graph) (u v : string) (attr : list (string * float))
  (e : string * string) :
  wf_spec g -> In e (nx.edges g) -> In e (nx.edges (nx.add_edge g u v attr)).
Proof.
  intros W I.
  pose proof (edges_ensure_node _ v e (wf_spec_ensure_node g u W)
                (edges_ensure_node g u e W I)) as I1.
  unfold nx.add_edge.
  destruct (get (get_default (nx._adj (nx.ensure_node (nx.ensure_node g u) v)) u []) v);
    unfold nx.edges; cbn [nx._adj]; apply edges_from_set_nbr; apply edges_from_set_nbr;
    exact I1.
Qed.

Lemma edges_add_node (g : nx.Graph) (n : string) (attr : list (string * string))
  (e : string * string) :
  wf_spec g -> In e (nx.edges g) -> In e (nx.edges (nx.add_node g n attr)).
Proof.
  intros (_ & _ & _ & NM) I. unfold nx.add_node.
  destruct (get (nx._node g) n) as [a|] eqn:G; [exact I|].
  unfold nx.edges. cbn [nx._adj]. apply edges_from_set_mono; [|exact I].
  intros old Go. specialize (NM n). unfold mem in NM. rewrite G, Go in NM. discriminate NM.
Qed.

(** X22. Growing a built controller never invalidates a baseline:
    [add_node] and [add_link] keep every edge of the topology among its
    edges, in the same direction, so a baseline snapshot taken before
    still holds links of the controller only, and the next
    [optimize_paths] succeeds (the links added since do not enter the
    drift). *)
Theorem baseline_survives_growth (o : DynamicPathOptimizer) (c : SDWANController) :
  built c -> tracks o c ->
  (forall a b link e, In e (nx.edges (topology c)) ->
                      In e (nx.edges (topology (add_link c a b link)))) /\
  (forall n t e, In e (nx.edges (topology c)) ->
                 In e (nx.edges (topology (add_node c n t)))) /\
  (forall a b link, tracks o (add_link c a b link)) /\
  (forall n t, tracks o (add_node c n t)) /\
  (forall a b link th, NetworkLink_valid link = true ->
     exists signal o', optimize_paths o (add_link c a b link) th = Ok (signal, o')).
Proof.
  intros B T. destruct (built_graph_inv c B) as (W & _ & _).
  assert (E1 : forall a b link e, In e (nx.edges (topology c)) ->
                 In e (nx.edges (topology (add_link c a b link)))).
  { intros a b link e I. apply edges_add_edge; assumption. }
  assert (E2 : forall n t e, In e (nx.edges (topology c)) ->
                 In e (nx.edges (topology (add_node c n t)))).
  { intros n t e I. apply edges_add_node; assumption. }
  assert (T1 : forall a b link, tracks o (add_link c a b link)).
  { intros a b link last L k I. apply E1. apply (T last L k I). }
  split; [exact E1|]. split; [exact E2|]. split; [exact T1|]. split.
  - intros n t last L k I. apply E2. apply (T last L k I).
  - intros a b link th V.
    destruct (optimize_paths_ok o (add_link c a b link) th
                (built_add_link c a b link B V) (T1 a b link)) as (signal & o' & E & _).
    eauto.
Qed.

Lemma baseline_survives_growth_witness :
  exists signal o',
    optimize_paths demo_baseline
      (add_link demo_controller "HQ" "CloudGW" (mkNetworkLink 9 1 0 10 1)) 10
    = Ok (signal, o').
Proof.
  assert (T : tracks demo_baseline demo_controller).
  { intros last L k I.
    assert (C : match last_item (history demo_baseline) with
                | Ok y => forallb (fun k => existsb (keqb k) (nx.edges (topology demo_controller)))
                                  (keys y)
                | Raise _ => true
                end = true) by (vm_compute; reflexivity).
    rewrite L in C. rewrite forallb_forall in C. specialize (C k I).
    apply existsb_exists in C as (k' & I' & Ek). apply keqb_eq in Ek. subst k'. exact I'. }
  destruct (baseline_survives_growth demo_baseline demo_controller built_demo_controller T)
    as (_ & _ & _ & _ & O).
  apply O. reflexivity.
Defined.
